(** * ReEDS-2.0, [ReEDS_Augur/stress_periods.py]

    A shallow embedding of the adequacy-driven stress-period selection and of
    the reserve-margin update, with the properties of the piecewise-linear
    shortfall curve, of the two NEUE aggregations and of the early exit of
    the criterion loop.

    Floating-point columns are embedded as exact rationals ([Q]); the
    dataframe operations the script relies on (stable [sort_values],
    [groupby(...).transform], [shift], [cumsum], [drop_duplicates]) are
    embedded as list functions on rows.

    What is stated of the shortfall curve rests on the order of its values
    and on the signs of its products and quotients, which rounding to
    nearest keeps.  What rounding does not keep, the closing value of a
    curve against its last start value, is shown on doubles in
    [UpdatePrmDoubles]. *)

From Stdlib Require Import String Ascii.
From Stdlib Require Import List Bool Arith ZArith Lia.
From Stdlib Require Import QArith Qminmax Lqa.
From Stdlib Require Import Permutation Sorting.Sorted OrderedTypeEx.
From Stdlib Require Import PrimFloat.
Import ListNotations.

Set Implicit Arguments.
Open Scope Q_scope.

(** * Dataframe operations on lists of rows *)

Module Pandas.

Section Frames.
Variables A K : Type.

(** Stable insertion: [a] goes before the first row it is not greater
    than, so rows with equal keys keep their order of arrival. *)
Fixpoint insert_row (le : A -> A -> bool) (a : A) (l : list A) : list A :=
  match l with
  | [] => [a]
  | b :: l' => if le a b then a :: l else b :: insert_row le a l'
  end.

(** [DataFrame.sort_values] on several keys is a stable sort. *)
Fixpoint sort_values (le : A -> A -> bool) (df : list A) : list A :=
  match df with
  | [] => []
  | a :: df' => insert_row le a (sort_values le df')
  end.

Variable eqb : K -> K -> bool.
Variable key : A -> K.

(** The rows of the group with key [k], in frame order. *)
Definition group_of (k : K) (df : list A) : list A :=
  filter (fun b => eqb (key b) k) df.

(** [df.groupby(key)[col].transform(f)]: [f] is applied to the column of
    every group and each result goes back to the row it came from.  The
    frame is walked once; [before] holds the rows already passed, so the
    number of them in the group of [a] is the place of [a] in its group. *)
Fixpoint transform_rows (col : A -> Q) (f : list Q -> list Q)
         (df before rest : list A) : list Q :=
  match rest with
  | [] => []
  | a :: rest' =>
      nth (length (group_of (key a) before))
          (f (map col (group_of (key a) df))) 0
      :: transform_rows col f df (before ++ [a]) rest'
  end.

Definition groupby_transform (col : A -> Q) (f : list Q -> list Q)
           (df : list A) : list Q :=
  transform_rows col f df [] df.

(** [df[c] = col]: the new column is attached row by row. *)
Definition assign (set : Q -> A -> A) (df : list A) (col : list Q) : list A :=
  map (fun p => set (snd p) (fst p)) (combine df col).
End Frames.

Definition Qsum (l : list Q) : Q := fold_right Qplus 0 l.

(** [Series.cumsum]. *)
Fixpoint cumsum_from (acc : Q) (l : list Q) : list Q :=
  match l with
  | [] => []
  | v :: l' => (acc + v) :: cumsum_from (acc + v) l'
  end.

Definition cumsum (l : list Q) : list Q := cumsum_from 0 l.

(** [transform('sum')]: every row of the group receives the group total. *)
Definition broadcast_sum (l : list Q) : list Q :=
  repeat (Qsum l) (length l).

(** [shift(1, fill_value=fill)] and [shift(-1, fill_value=fill)]. *)
Definition shift_down (fill : Q) (l : list Q) : list Q :=
  match l with
  | [] => []
  | _ :: _ => fill :: removelast l
  end.

Definition shift_up (fill : Q) (l : list Q) : list Q :=
  match l with
  | [] => []
  | _ :: l' => l' ++ [fill]
  end.

(** [Series.clip(lower=lo)]. *)
Definition clip_lower (lo v : Q) : Q := if Qle_bool lo v then v else lo.

(** [Series.max()]; an empty series has no maximum (pandas answers NaN). *)
Definition series_max (l : list Q) : option Q :=
  match l with
  | [] => None
  | v :: l' => Some (fold_left Qmax l' v)
  end.

(** [enumerate(l)]. *)
Definition enumerate (A : Type) (l : list A) : list (nat * A) :=
  combine (seq 0 (length l)) l.

(** Keys met before are dropped; the first occurrence stays. *)
Fixpoint unique (K : Type) (eqb : K -> K -> bool) (l : list K) : list K :=
  match l with
  | [] => []
  | k :: l' => k :: filter (fun k' => negb (eqb k' k)) (unique eqb l')
  end.

End Pandas.

(** * The reserve-margin update: the piecewise-linear shortfall curve *)

Module UpdatePrm.
Import Pandas.

(** What [reeds.io.read_pras_results] hands back for the shortfall samples:
    one table per sample, hours down the rows, one column per region. *)
Record ShortfallSamples := {
  regions : list string;
  samples : list (list (list Q))
}.

(** A row of [net_short] in long format. *)
Record net_short_row := {
  ns_sample : nat;
  ns_hour : nat;
  ns_r : string;
  ns_mwh : Q
}.

(** A row of [net_short_crit] and then of [plfs]; a column that has not been
    assigned yet holds 0. *)
Record plf_row := {
  r : string;
  sample : nat;
  net_short_mwh : Q;
  intercept : Q;
  slope : Q;
  x1 : Q;
  x2 : Q;
  Dy : Q;
  y1 : Q;
  y2 : Q
}.

Definition set_intercept (v : Q) (a : plf_row) : plf_row :=
  {| r := r a; sample := sample a; net_short_mwh := net_short_mwh a;
     intercept := v; slope := slope a; x1 := x1 a; x2 := x2 a; Dy := Dy a;
     y1 := y1 a; y2 := y2 a |}.

Definition set_slope (v : Q) (a : plf_row) : plf_row :=
  {| r := r a; sample := sample a; net_short_mwh := net_short_mwh a;
     intercept := intercept a; slope := v; x1 := x1 a; x2 := x2 a; Dy := Dy a;
     y1 := y1 a; y2 := y2 a |}.

Definition set_x1 (v : Q) (a : plf_row) : plf_row :=
  {| r := r a; sample := sample a; net_short_mwh := net_short_mwh a;
     intercept := intercept a; slope := slope a; x1 := v; x2 := x2 a;
     Dy := Dy a; y1 := y1 a; y2 := y2 a |}.

Definition set_x2 (v : Q) (a : plf_row) : plf_row :=
  {| r := r a; sample := sample a; net_short_mwh := net_short_mwh a;
     intercept := intercept a; slope := slope a; x1 := x1 a; x2 := v;
     Dy := Dy a; y1 := y1 a; y2 := y2 a |}.

Definition set_Dy (v : Q) (a : plf_row) : plf_row :=
  {| r := r a; sample := sample a; net_short_mwh := net_short_mwh a;
     intercept := intercept a; slope := slope a; x1 := x1 a; x2 := x2 a;
     Dy := v; y1 := y1 a; y2 := y2 a |}.

Definition set_y1 (v : Q) (a : plf_row) : plf_row :=
  {| r := r a; sample := sample a; net_short_mwh := net_short_mwh a;
     intercept := intercept a; slope := slope a; x1 := x1 a; x2 := x2 a;
     Dy := Dy a; y1 := v; y2 := y2 a |}.

Definition set_y2 (v : Q) (a : plf_row) : plf_row :=
  {| r := r a; sample := sample a; net_short_mwh := net_short_mwh a;
     intercept := intercept a; slope := slope a; x1 := x1 a; x2 := x2 a;
     Dy := Dy a; y1 := y1 a; y2 := v |}.

(** [n_samples = len(net_short)]. *)
Definition n_samples (s : ShortfallSamples) : nat := length (samples s).

(** [pd.concat] of the samples, then [melt]: one block of rows per region
    column, inside it the samples in order and their hours in order. *)
Definition net_short_long (s : ShortfallSamples) : list net_short_row :=
  flat_map
    (fun jr =>
       flat_map
         (fun kdf =>
            map (fun hrow =>
                   {| ns_sample := fst kdf; ns_hour := fst hrow;
                      ns_r := snd jr; ns_mwh := nth (fst jr) (snd hrow) 0 |})
                (enumerate (snd kdf)))
         (enumerate (samples s)))
    (enumerate (regions s)).

(** [net_short['net_short_mwh'].clip(lower=0)]. *)
Definition clip_net_short (df : list net_short_row) : list net_short_row :=
  map (fun a =>
         {| ns_sample := ns_sample a; ns_hour := ns_hour a; ns_r := ns_r a;
            ns_mwh := clip_lower 0 (ns_mwh a) |})
      df.

Definition key_eqb (k1 k2 : string * nat) : bool :=
  String.eqb (fst k1) (fst k2) && Nat.eqb (snd k1) (snd k2).

Definition key_leb (k1 k2 : string * nat) : bool :=
  match String.compare (fst k1) (fst k2) with
  | Lt => true
  | Eq => Nat.leb (snd k1) (snd k2)
  | Gt => false
  end.

(** [net_short.groupby(['r','sample'], as_index=False)['net_short_mwh'].sum()]:
    one row per (region, sample), in key order. *)
Definition net_short_crit (df : list net_short_row) : list plf_row :=
  map (fun k =>
         {| r := fst k; sample := snd k;
            net_short_mwh :=
              Qsum (map ns_mwh
                        (filter (fun a => key_eqb (ns_r a, ns_sample a) k) df));
            intercept := 0; slope := 0; x1 := 0; x2 := 0; Dy := 0;
            y1 := 0; y2 := 0 |})
      (sort_values key_leb
                   (unique key_eqb (map (fun a => (ns_r a, ns_sample a)) df))).

(** Order of [sort_values(['r','net_short_mwh'])]. *)
Definition row_leb (a b : plf_row) : bool :=
  match String.compare (r a) (r b) with
  | Lt => true
  | Eq => Qle_bool (net_short_mwh a) (net_short_mwh b)
  | Gt => false
  end.

Definition row_geb (a b : plf_row) : bool := row_leb b a.

Definition Qn (n : nat) : Q := inject_Z (Z.of_nat n).

(** Lines 353 to 375 of [update_prm], before the assertion is looked at. *)
Definition plfs_positive (crit : list plf_row) : list plf_row :=
  filter (fun a => negb (Qle_bool (net_short_mwh a) 0)) crit.

Definition plfs_intercept (n : nat) (df : list plf_row) : list plf_row :=
  assign set_intercept df
         (map (fun v => v / Qn n)
              (groupby_transform String.eqb r net_short_mwh broadcast_sum df)).

Definition plfs_slope (n : nat) (df : list plf_row) : list plf_row :=
  let df1 := sort_values row_geb df in
  let df2 := map (set_slope (-1)) df1 in
  let df3 :=
    assign set_slope df2
           (map (fun v => v / Qn n)
                (groupby_transform String.eqb r slope cumsum df2)) in
  sort_values row_leb df3.

Definition plfs_x (df : list plf_row) : list plf_row :=
  let df1 :=
    assign set_x1 df
           (groupby_transform String.eqb r net_short_mwh (shift_down 0) df) in
  map (fun a => set_x2 (net_short_mwh a) a) df1.

Definition plfs_Dy (df : list plf_row) : list plf_row :=
  map (fun a => set_Dy (slope a * (x2 a - x1 a)) a) df.

Definition plfs_y (df : list plf_row) : list plf_row :=
  let df1 :=
    assign set_y1 df
           (map (fun p => fst p + snd p)
                (combine (map intercept df)
                         (groupby_transform String.eqb r Dy
                            (fun x => shift_down 0 (cumsum x)) df))) in
  assign set_y2 df1 (groupby_transform String.eqb r y1 (shift_up 0) df1).

(** [assert plfs['Dy'].max() <= 0]; with no row at all the maximum is NaN
    and the comparison is false. *)
Definition assert_Dy (df : list plf_row) : bool :=
  match series_max (map Dy df) with
  | Some m => Qle_bool m 0
  | None => false
  end.

(** The table up to the column [Dy], on which the assertion is made. *)
Definition plfs_table (n : nat) (crit : list plf_row) : list plf_row :=
  plfs_Dy (plfs_x (plfs_slope n (plfs_intercept n (plfs_positive crit)))).

Definition plfs_upto_Dy (s : ShortfallSamples) : list plf_row :=
  plfs_table (n_samples s)
             (net_short_crit (clip_net_short (net_short_long s))).

(** The curve of every region, [None] when the assertion fires.  (With no
    sample at all [pd.concat] raises before the table is built; there is no
    curve then either.) *)
Definition plfs (s : ShortfallSamples) : option (list plf_row) :=
  let df := plfs_upto_Dy s in
  if assert_Dy df then Some (plfs_y df) else None.

(** ** Notions used to state the invariants of the curve *)

(** Number of entries of [vs] that are at least [x]. *)
Definition count_ge (x : Q) (vs : list Q) : nat :=
  length (filter (fun y => Qle_bool x y) vs).

(** The slope [s] of a row with shortfall [x] is minus a count of samples
    over [n], and no more samples are counted than have a shortfall of at
    least [x] in the group column [vs]. *)
Definition slope_ok (n : nat) (vs : list Q) (s x : Q) : Prop :=
  exists k : nat, s == - Qn k / Qn n /\ (k <= count_ge x vs)%nat.

(** The column [Dy] of one group, from its columns [slope] and
    [net_short_mwh] in ascending order; [prev] is the shortfall of the row
    before. *)
Fixpoint segment_drops (prev : Q) (sl vs : list Q) : list Q :=
  match sl, vs with
  | s :: sl', v :: vs' => s * (v - prev) :: segment_drops v sl' vs'
  | _, _ => []
  end.

(** A row without its slope, to compare tables up to that column. *)
Definition erase_slope : plf_row -> plf_row := set_slope 0.

(** The mean shortfall of region [k] over [n] samples. *)
Definition region_mean (n : nat) (df : list plf_row) (k : string) : Q :=
  Qsum (map net_short_mwh (group_of String.eqb r k df)) / Qn n.

End UpdatePrm.

Module UpdatePrmExamples.
Import UpdatePrm.

Definition two_regions : ShortfallSamples :=
  {| regions := ["p1"; "p2"]%string;
     samples := [ [ [3; -1]; [2; -4] ];
                  [ [-2; 6]; [1; 1] ];
                  [ [-5; -5]; [-1; -1] ];
                  [ [4; 0]; [1; 7] ] ] |}.


End UpdatePrmExamples.

(** * The curve of one region in double precision

    The columns of [plfs] are doubles.  The lines 355 to 375 of [update_prm]
    are written out once more, for the rows of a single region and on
    IEEE 754 doubles, to see what rounding does to [y1] and [y2]. *)

Module UpdatePrmDoubles.
Import Pandas.
Local Open Scope float_scope.

Record plf_row := {
  net_short_mwh : float;
  intercept : float;
  slope : float;
  x1 : float;
  x2 : float;
  Dy : float;
  y1 : float;
  y2 : float
}.

(** [n_samples] as a double. *)
Fixpoint float_of_nat (n : nat) : float :=
  match n with
  | O => 0
  | S k => float_of_nat k + 1
  end.

Definition fsum (l : list float) : float := fold_left PrimFloat.add l 0.

Fixpoint fcumsum_from (acc : float) (l : list float) : list float :=
  match l with
  | [] => []
  | v :: l' => (acc + v) :: fcumsum_from (acc + v) l'
  end.

Definition fshift_down (fill : float) (l : list float) : list float :=
  match l with
  | [] => []
  | _ :: _ => fill :: removelast l
  end.

Definition fshift_up (fill : float) (l : list float) : list float :=
  match l with
  | [] => []
  | _ :: l' => l' ++ [fill]
  end.

(** The rows of one region from its positive totals [vs], given in the
    order of the samples. *)
Definition region_curve (n_samples : nat) (vs : list float) : list plf_row :=
  let n := float_of_nat n_samples in
  (* line 355 *)
  let intercept := fsum vs / n in
  (* lines 358 to 360 *)
  let desc := sort_values (fun a b => b <=? a) vs in
  let slopes :=
    map (fun c => c / n) (fcumsum_from 0 (map (fun _ => -1) desc)) in
  (* line 362 *)
  let asc := sort_values (fun a b => fst a <=? fst b) (combine desc slopes) in
  (* lines 364 to 368 *)
  let x2s := map fst asc in
  let x1s := fshift_down 0 x2s in
  let Dys := map (fun p => snd (fst p) * (fst (fst p) - snd p))
                 (combine asc x1s) in
  (* lines 372 to 375 *)
  let y1s := map (fun c => intercept + c)
                 (fshift_down 0 (fcumsum_from 0 Dys)) in
  let y2s := fshift_up 0 y1s in
  map (fun p =>
         {| net_short_mwh := fst (fst (fst (fst (fst p))));
            intercept := intercept;
            slope := snd (fst (fst (fst (fst p))));
            x1 := snd (fst (fst (fst p)));
            x2 := fst (fst (fst (fst (fst p))));
            Dy := snd (fst (fst p));
            y1 := snd (fst p);
            y2 := snd p |})
      (combine (combine (combine (combine asc x1s) Dys) y1s) y2s).

(** The shortfalls 0.1, 0.10000000000000002 and 0.05 of three samples. *)
Definition three_samples : list float :=
  [0x1.999999999999ap-4; 0x1.999999999999bp-4; 0x1.999999999999ap-5].

End UpdatePrmDoubles.

(** * The stress metric by period: [get_stress_periods] *)

Module StressPeriods.
Import Pandas.

(** Exceptions of the script that the embedding tells apart. *)
Inductive error : Type :=
| KeyError
| ValueError
| IndexError
| AttributeError
| UnboundLocalError
| NotEmbedded.

Inductive result (A : Type) : Type :=
| Ok (a : A)
| Raise (e : error).

Arguments Ok {A} a.
Arguments Raise {A} e.

Definition bind (A B : Type) (x : result A) (k : A -> result B) : result B :=
  match x with
  | Ok a => k a
  | Raise e => Raise e
  end.

Notation "x <- c ;; k" := (bind c (fun x => k))
  (at level 61, c at next level, right associativity).

(** A float that is the result of a division: a number, an infinity or NaN. *)
Inductive fval : Type :=
| Fin (q : Q)
| PosInf
| NegInf
| NaN.

Definition fdiv (a b : Q) : fval :=
  if Qeq_bool b 0 then
    if Qeq_bool a 0 then NaN
    else if Qle_bool 0 a then PosInf else NegInf
  else Fin (a / b).

(** [x * 1e6]. *)
Definition times_1e6 (x : fval) : fval :=
  match x with
  | Fin q => Fin (q * 1000000)
  | _ => x
  end.

(** The larger of two floats, NaN being skipped as pandas does. *)
Definition fmax2 (a b : fval) : fval :=
  match a, b with
  | NaN, _ => b
  | _, NaN => a
  | PosInf, _ => PosInf
  | _, PosInf => PosInf
  | NegInf, _ => b
  | _, NegInf => a
  | Fin p, Fin q => Fin (Qmax p q)
  end.

(** [agg('max')] on floats; NaN when nothing but NaN is there. *)
Definition series_fmax (l : list fval) : fval := fold_left fmax2 l NaN.

(** Equality of floats up to the representation of the rational. *)
Definition feq (a b : fval) : Prop :=
  match a, b with
  | Fin p, Fin q => p == q
  | PosInf, PosInf => True
  | NegInf, NegInf => True
  | NaN, NaN => True
  | _, _ => False
  end.

Record Timestamp := {
  year : nat;
  month : nat;
  day : nat;
  hour : nat
}.

Definition Date : Type := nat * nat * nat.

(** [(index.year, index.month, index.day)]. *)
Definition date_of (t : Timestamp) : Date := (year t, month t, day t).

Definition date_eqb (a b : Date) : bool :=
  Nat.eqb (fst (fst a)) (fst (fst b))
  && Nat.eqb (snd (fst a)) (snd (fst b))
  && Nat.eqb (snd a) (snd b).

Definition date_leb (a b : Date) : bool :=
  if Nat.ltb (fst (fst a)) (fst (fst b)) then true
  else if Nat.ltb (fst (fst b)) (fst (fst a)) then false
  else if Nat.ltb (snd (fst a)) (snd (fst b)) then true
  else if Nat.ltb (snd (fst b)) (snd (fst a)) then false
  else Nat.leb (snd a) (snd b).

(** A dataframe: the row labels and the labelled columns. *)
Record Frame (I C : Type) := {
  index : list I;
  cols : list (string * list C)
}.

Definition col_lookup (C : Type) (nm : string) (cs : list (string * list C))
  : option (list C) :=
  match find (fun c => String.eqb (fst c) nm) cs with
  | Some c => Some (snd c)
  | None => None
  end.

Fixpoint index_pos (I : Type) (eqb : I -> I -> bool) (i : I) (idx : list I)
  : option nat :=
  match idx with
  | [] => None
  | j :: idx' =>
      if eqb j i then Some O
      else match index_pos eqb i idx' with
           | Some p => Some (S p)
           | None => None
           end
  end.

(** [df.loc[i, nm]]. *)
Definition cell (I C : Type) (eqb : I -> I -> bool) (f : Frame I C)
           (i : I) (nm : string) : option C :=
  match index_pos eqb i (index f), col_lookup nm (cols f) with
  | Some p, Some col => nth_error col p
  | _, _ => None
  end.

(** [df.index = idx]; pandas refuses an index of another length. *)
Definition set_index (I J C : Type) (idx : list J) (f : Frame I C)
  : result (Frame J C) :=
  if Nat.eqb (length idx) (length (index f))
  then Ok {| index := idx; cols := cols f |}
  else Raise ValueError.

(** [df.rename(columns=rmap)]: a label missing from [rmap] stays. *)
Definition rename_label (rmap : list (string * string)) (nm : string)
  : string :=
  match find (fun p => String.eqb (fst p) nm) rmap with
  | Some p => snd p
  | None => nm
  end.

Definition rename_columns (I C : Type) (rmap : list (string * string))
           (f : Frame I C) : Frame I C :=
  {| index := index f;
     cols := map (fun c => (rename_label rmap (fst c), snd c)) (cols f) |}.

Definition add_columns (a b : list Q) : list Q :=
  map (fun p => fst p + snd p) (combine a b).

Definition sum_columns (n : nat) (cs : list (list Q)) : list Q :=
  fold_left add_columns cs (repeat 0 n).

Definition labels (C : Type) (cs : list (string * list C)) : list string :=
  sort_values String.leb (unique String.eqb (map fst cs)).

(** [df.groupby(axis=1, level=0).sum()]: the columns that share a label are
    added up; the labels come out sorted. *)
Definition groupby_columns_sum (I : Type) (f : Frame I Q) : Frame I Q :=
  {| index := index f;
     cols :=
       map (fun nm =>
              (nm,
               sum_columns
                 (length (index f))
                 (map snd (filter (fun c => String.eqb (fst c) nm) (cols f)))))
           (labels (cols f)) |}.

Definition day_keys (idx : list Timestamp) : list Date :=
  sort_values date_leb (unique date_eqb (map date_of idx)).

(** The entries of a column that fall on the day [D]. *)
Definition day_values (C : Type) (idx : list Timestamp) (col : list C)
           (D : Date) : list C :=
  map snd (filter (fun p => date_eqb (date_of (fst p)) D) (combine idx col)).

(** [df.groupby([index.year, index.month, index.day]).agg(...)]. *)
Definition groupby_day (C C' : Type) (agg : list C -> C')
           (f : Frame Timestamp C) : Frame Date C' :=
  {| index := day_keys (index f);
     cols :=
       map (fun c =>
              (fst c,
               map (fun D => agg (day_values (index f) (snd c) D))
                   (day_keys (index f))))
           (cols f) |}.

(** [fe / fl]: the two frames carry the same index; the columns are matched
    by label and a label missing on one side gives a column of NaN. *)
Definition frame_div (I : Type) (fe fl : Frame I Q) : Frame I fval :=
  {| index := index fe;
     cols :=
       map (fun nm =>
              (nm,
               match col_lookup nm (cols fe), col_lookup nm (cols fl) with
               | Some ce, Some cl =>
                   map (fun p => fdiv (fst p) (snd p)) (combine ce cl)
               | _, _ => repeat NaN (length (index fe))
               end))
           (sort_values String.leb
              (unique String.eqb (map fst (cols fe) ++ map fst (cols fl)))) |}.

Definition frame_map (I C C' : Type) (h : C -> C') (f : Frame I C)
  : Frame I C' :=
  {| index := index f;
     cols := map (fun c => (fst c, map h (snd c))) (cols f) |}.

(** [str.upper] on the letters a to z. *)
Definition upper_ascii (c : ascii) : ascii :=
  let n := nat_of_ascii c in
  if Nat.leb 97 n && Nat.leb n 122 then ascii_of_nat (n - 32) else c.

Fixpoint upper (s : string) : string :=
  match s with
  | EmptyString => EmptyString
  | String c s' => String (upper_ascii c) (upper s')
  end.

Definition startswith (s t : string) : bool := String.prefix t s.

Definition endswith (s t : string) : bool :=
  Nat.leb (String.length t) (String.length s)
  && String.eqb
       (String.substring (String.length s - String.length t)
                         (String.length t) s)
       t.

(** What the collaborators hand over for one year and iteration. *)
Record Inputs := {
  hierarchy : Frame string string;
  timeindex : list Timestamp;
  dfpras : Frame nat Q;
  pras_load : Frame nat Q
}.

(** [get_rmap]. *)
Definition get_rmap (h : Frame string string) (hierarchy_level : string)
  : result (list (string * string)) :=
  if String.eqb hierarchy_level "r" then Ok (combine (index h) (index h))
  else
    match col_lookup hierarchy_level (cols h) with
    | Some c => Ok (combine (index h) c)
    | None => Raise KeyError
    end.

Definition eue_tail : string := "_EUE".

(** [get_pras_eue]: the time index is put on the PRAS table, the zonal EUE
    columns are kept and lose their tail. *)
Definition get_pras_eue (inp : Inputs) : result (Frame Timestamp Q) :=
  df <- set_index (timeindex inp) (dfpras inp) ;;
  Ok {| index := index df;
        cols :=
          map (fun c =>
                 (String.substring
                    0 (String.length (fst c) - String.length eue_tail) (fst c),
                  snd c))
              (filter (fun c =>
                         endswith (fst c) eue_tail
                         && negb (startswith (fst c) "USA"))
                      (cols df)) |}.

(** [dfeue] after the aggregation to [hierarchy_level]. *)
Definition aggregated_eue (inp : Inputs) (hierarchy_level : string)
  : result (Frame Timestamp Q) :=
  rmap <- get_rmap (hierarchy inp) hierarchy_level ;;
  dfeue <- get_pras_eue inp ;;
  Ok (groupby_columns_sum (rename_columns rmap dfeue)).

(** [dfload] after the aggregation, with the index of [dfeue]. *)
Definition aggregated_load (inp : Inputs) (hierarchy_level : string)
  : result (Frame Timestamp Q) :=
  rmap <- get_rmap (hierarchy inp) hierarchy_level ;;
  dfeue <- aggregated_eue inp hierarchy_level ;;
  set_index (index dfeue)
            (groupby_columns_sum (rename_columns rmap (pras_load inp))).

(** [.agg(period_agg_method)] on unserved energy; pandas knows further
    aggregations by name, which are left out. *)
Definition agg_by_name (period_agg_method : string) : result (list Q -> fval) :=
  if String.eqb period_agg_method "sum" then Ok (fun l => Fin (Qsum l))
  else if String.eqb period_agg_method "max"
       then Ok (fun l => match series_max l with
                         | Some m => Fin m
                         | None => NaN
                         end)
       else Raise NotEmbedded.

(** [dfmetric_period] of [get_stress_periods]. *)
Definition dfmetric_period (inp : Inputs)
           (hierarchy_level stress_metric period_agg_method : string)
  : result (Frame Date fval) :=
  dfeue <- aggregated_eue inp hierarchy_level ;;
  if String.eqb (upper stress_metric) "EUE" then
    agg <- agg_by_name period_agg_method ;;
    Ok (groupby_day agg dfeue)
  else if String.eqb (upper stress_metric) "NEUE" then
    dfload <- aggregated_load inp hierarchy_level ;;
    if String.eqb period_agg_method "sum" then
      Ok (frame_map times_1e6
            (frame_div (groupby_day Qsum dfeue) (groupby_day Qsum dfload)))
    else if String.eqb period_agg_method "max" then
      Ok (frame_map times_1e6
            (groupby_day series_fmax (frame_div dfeue dfload)))
    else Raise UnboundLocalError
  else Raise UnboundLocalError.

(** ** Notions used to state what the normalised metric is *)

(** The hours of the day [D]: their positions in the time index. *)
Fixpoint day_hours_from (i : nat) (idx : list Timestamp) (D : Date)
  : list nat :=
  match idx with
  | [] => []
  | t :: idx' =>
      if date_eqb (date_of t) D then i :: day_hours_from (S i) idx' D
      else day_hours_from (S i) idx' D
  end.

Definition day_hours (idx : list Timestamp) (D : Date) : list nat :=
  day_hours_from 0 idx D.

(** The value of region [A] at the hour in position [i]. *)
Definition hourly (f : Frame Timestamp Q) (A : string) (i : nat) : Q :=
  match col_lookup A (cols f) with
  | Some col => nth i col 0
  | None => 0
  end.

(** What [a / b] is on floats, said case by case. *)
Inductive is_ratio (a b : Q) : fval -> Prop :=
| ratio_number : ~ b == 0 -> is_ratio a b (Fin (a / b))
| ratio_plus_infinity : b == 0 -> 0 < a -> is_ratio a b PosInf
| ratio_minus_infinity : b == 0 -> a < 0 -> is_ratio a b NegInf
| ratio_not_a_number : b == 0 -> a == 0 -> is_ratio a b NaN.

(** What [x * 1e6] is. *)
Inductive is_times_1e6 : fval -> fval -> Prop :=
| million_number (q : Q) : is_times_1e6 (Fin q) (Fin (q * 1000000))
| million_plus_infinity : is_times_1e6 PosInf PosInf
| million_minus_infinity : is_times_1e6 NegInf NegInf
| million_not_a_number : is_times_1e6 NaN NaN.

(** The order of the floats that are not NaN. *)
Definition fle (x z : fval) : Prop :=
  match x, z with
  | NaN, _ => False
  | _, NaN => False
  | NegInf, _ => True
  | _, PosInf => True
  | Fin p, Fin q => p <= q
  | _, _ => False
  end.

(** [x] is the largest entry of [l], NaN being set aside; it is NaN when
    there is nothing else in [l]. *)
Definition is_largest (l : list fval) (x : fval) : Prop :=
  (x = NaN /\ Forall (fun z => z = NaN) l)
  \/ (x <> NaN /\ In x l /\ Forall (fun z => z = NaN \/ fle z x) l).

(** Every column is as long as the index. *)
Definition well_formed (I C : Type) (f : Frame I C) : Prop :=
  Forall (fun c => length (snd c) = length (index f)) (cols f).

End StressPeriods.

Module StressPeriodsExamples.
Import StressPeriods.

Definition ts (d h : nat) : Timestamp :=
  {| year := 2012; month := 7; day := d; hour := h |}.

(** Two regions of one state on two days of two hours each; on the first day
    the unserved energy peaks in the hour of low load. *)
Definition two_days : Inputs :=
  {| hierarchy :=
       {| index := ["p1"; "p2"]%string;
          cols := [("st"%string, ["CA"; "CA"]%string)] |};
     timeindex := [ts 1 0; ts 1 1; ts 2 0; ts 2 1];
     dfpras :=
       {| index := [0; 1; 2; 3]%nat;
          cols := [("p1_EUE"%string, [6; 0; 1; 1]);
                   ("p2_EUE"%string, [4; 0; 0; 1]);
                   ("USA_EUE"%string, [10; 0; 1; 2]);
                   ("p1_LOLE"%string, [1; 0; 1; 1])] |};
     pras_load :=
       {| index := [0; 1; 2; 3]%nat;
          cols := [("p1"%string, [60; 200; 100; 100]);
                   ("p2"%string, [40; 100; 100; 100])] |} |}.

End StressPeriodsExamples.

(** * The criterion loop of [main] *)

Module Orchestrator.
Import Pandas StressPeriods.

(** ** Strings and dictionaries *)

(** [s.split(sep)]. *)
Fixpoint split (sep : ascii) (s : string) : list string :=
  match s with
  | EmptyString => [EmptyString]
  | String c s' =>
      if Ascii.eqb c sep then EmptyString :: split sep s'
      else match split sep s' with
           | [] => [String c EmptyString]
           | w :: ws => String c w :: ws
           end
  end.

Definition lower_ascii (c : ascii) : ascii :=
  let n := nat_of_ascii c in
  if Nat.leb 65 n && Nat.leb n 90 then ascii_of_nat (n + 32) else c.

Fixpoint lower (s : string) : string :=
  match s with
  | EmptyString => EmptyString
  | String c s' => String (lower_ascii c) (lower s')
  end.

Definition isin (x : string) (l : list string) : bool :=
  existsb (String.eqb x) l.

(** A Python dictionary: the keys in the order of their first insertion. *)
Definition dict (K V : Type) : Type := list (K * V).

Fixpoint dict_set (K V : Type) (eqb : K -> K -> bool) (k : K) (v : V)
         (d : dict K V) : dict K V :=
  match d with
  | [] => [(k, v)]
  | (k', v') :: d' =>
      if eqb k' k then (k', v) :: d' else (k', v') :: dict_set eqb k v d'
  end.

Definition dict_get (K V : Type) (eqb : K -> K -> bool) (k : K) (d : dict K V)
  : option V :=
  match find (fun kv => eqb (fst kv) k) d with
  | Some kv => Some (snd kv)
  | None => None
  end.

Definition dict_keys (K V : Type) (d : dict K V) : list K := map fst d.

Definition key2_eqb (a b : string * string) : bool :=
  String.eqb (fst a) (fst b) && String.eqb (snd a) (snd b).

(** [{**d1, **d2}]. *)
Definition dict_merge (K V : Type) (eqb : K -> K -> bool) (d1 d2 : dict K V)
  : dict K V :=
  fold_left (fun d kv => dict_set eqb (fst kv) (snd kv) d) d2 d1.

(** ** Comparisons of floats *)

Definition is_nan (x : fval) : bool :=
  match x with NaN => true | _ => false end.

Definition is_zero (x : fval) : bool :=
  match x with Fin q => Qeq_bool q 0 | _ => false end.

(** [a <= b] on floats that are not NaN. *)
Definition fle_bool (a b : fval) : bool :=
  match a, b with
  | NaN, _ => false
  | _, NaN => false
  | NegInf, _ => true
  | _, PosInf => true
  | Fin p, Fin q => Qle_bool p q
  | _, _ => false
  end.

(** [x > c] and [x >= c] against a number; false on NaN. *)
Definition fgt_bool (x : fval) (c : Q) : bool :=
  match x with
  | Fin q => negb (Qle_bool q c)
  | PosInf => true
  | _ => false
  end.

Definition fge_bool (x : fval) (c : Q) : bool :=
  match x with
  | Fin q => Qle_bool c q
  | PosInf => true
  | _ => false
  end.

(** [a / x] for a number over a float. *)
Definition fdiv_by (a : Q) (x : fval) : fval :=
  match x with
  | Fin q => fdiv a q
  | PosInf => Fin 0
  | NegInf => Fin 0
  | NaN => NaN
  end.

(** ** The table of [get_stress_periods] *)

(** A row of the tables of periods; a shoulder period has no metric. *)
Record period_row := {
  actual_period : string;
  y : nat;
  m : nat;
  d : nat;
  r : string;
  metric : fval
}.

(** [dfmetric_period.stack('r')]: one entry per day and region, the days
    outermost; NaN is dropped. *)
Definition stack (f : Frame Date fval) : list (Date * string * fval) :=
  flat_map
    (fun iD =>
       flat_map
         (fun c =>
            match nth_error (snd c) (fst iD) with
            | Some v => if is_nan v then [] else [(snd iD, fst c, v)]
            | None => []
            end)
         (cols f))
    (enumerate (index f)).

(** What the collaborators outside the script compute. *)
Record Collaborators := {
  (** [reeds.timeseries.timestamp2h] of the day and of [GSw_HourlyType] *)
  timestamp2h : Date -> string -> string;
  (** [ts.strftime('y%Yd%j')] *)
  strftime_period : Timestamp -> string;
  (** [float(s)] *)
  py_float : string -> result Q
}.

(** Lines 176 to 189: sorted in descending order, zeros dropped, the first
    and so largest region of every day kept, the period of the day added.
    The sort is stable here; pandas leaves the order of equal values open,
    so on a day with two regions of the same largest value it may keep the
    other one. *)
Definition dfmetric_top (co : Collaborators) (GSw_HourlyType : string)
           (f : Frame Date fval) : list period_row :=
  let sorted :=
    sort_values (fun a b => fle_bool (snd b) (snd a)) (stack f) in
  let nonzero := filter (fun a => negb (is_zero (snd a))) sorted in
  let top :=
    unique (fun a b => date_eqb (fst (fst a)) (fst (fst b))) nonzero in
  map (fun a =>
         {| actual_period :=
              hd EmptyString
                 (split "h" (timestamp2h co (fst (fst a)) GSw_HourlyType));
            y := fst (fst (fst (fst a)));
            m := snd (fst (fst (fst a)));
            d := snd (fst (fst a));
            r := snd (fst a);
            metric := snd a |})
      top.

(** Whether two frames carry the same columns in the same order. *)
Fixpoint same_labels (a b : list string) : bool :=
  match a, b with
  | [], [] => true
  | x :: a', x' :: b' => String.eqb x x' && same_labels a' b'
  | _, _ => false
  end.

(** Whether the columns of [dfmetric_period] are still called [r].  Line 134
    gives that name to the columns of [dfeue]; the columns of the load have
    no name.  A division of the two frames keeps the name where both carry
    the same columns and drops it where pandas has to align them. *)
Definition columns_called_r (inp : Inputs)
           (hierarchy_level stress_metric : string) : result bool :=
  if String.eqb (upper stress_metric) "EUE" then Ok true
  else
    dfeue <- aggregated_eue inp hierarchy_level ;;
    dfload <- aggregated_load inp hierarchy_level ;;
    Ok (same_labels (map fst (cols dfeue)) (map fst (cols dfload))).

(** [get_stress_periods]; [.stack('r')] raises KeyError on columns that are
    not called [r]. *)
Definition get_stress_periods (co : Collaborators) (inp : Inputs)
           (GSw_HourlyType : string)
           (hierarchy_level stress_metric period_agg_method : string)
  : result (list period_row) :=
  f <- dfmetric_period inp hierarchy_level stress_metric period_agg_method ;;
  called_r <- columns_called_r inp hierarchy_level stress_metric ;;
  if called_r then Ok (dfmetric_top co GSw_HourlyType f) else Raise KeyError.

(** ** [get_annual_neue] *)

Definition levels : list string :=
  ["country"; "interconnect"; "nercr"; "transreg"; "transgrp"; "st";
   "r"]%string.

(** [e.sum() / l.sum() * 1e6] on two frames: per label, NaN where a label is
    on one side only. *)
Definition annual_sum (e l : Frame Timestamp Q) : list (string * fval) :=
  map (fun nm =>
         (nm,
          times_1e6
            match col_lookup nm (cols e), col_lookup nm (cols l) with
            | Some ce, Some cl => fdiv (Qsum ce) (Qsum cl)
            | _, _ => NaN
            end))
      (sort_values String.leb
         (unique String.eqb (map fst (cols e) ++ map fst (cols l)))).

(** [(e / l).max() * 1e6]. *)
Definition annual_max (e l : Frame Timestamp Q) : list (string * fval) :=
  map (fun c => (fst c, times_1e6 (series_fmax (snd c))))
      (cols (frame_div e l)).

Definition neue_table : Type :=
  dict (string * string) (list (string * fval)).

Fixpoint annual_neue_levels (inp : Inputs) (dfeue dfload : Frame Timestamp Q)
         (ls : list string) (acc : neue_table) : result neue_table :=
  match ls with
  | [] => Ok acc
  | hierarchy_level :: ls' =>
      rmap <- get_rmap (hierarchy inp) hierarchy_level ;;
      let e := groupby_columns_sum (rename_columns rmap dfeue) in
      let l := groupby_columns_sum (rename_columns rmap dfload) in
      annual_neue_levels
        inp dfeue dfload ls'
        (dict_set key2_eqb (hierarchy_level, "max"%string) (annual_max e l)
           (dict_set key2_eqb (hierarchy_level, "sum"%string)
                     (annual_sum e l) acc))
  end.

Definition get_annual_neue (inp : Inputs) : result neue_table :=
  dfeue <- get_pras_eue inp ;;
  dfload <- set_index (index dfeue) (pras_load inp) ;;
  annual_neue_levels inp dfeue dfload levels [].

(** [neue[hierarchy_level][period_agg_method]]. *)
Definition neue_lookup (neue : neue_table)
           (hierarchy_level period_agg_method : string)
  : result (list (string * fval)) :=
  match dict_get key2_eqb (hierarchy_level, period_agg_method) neue with
  | Some s => Ok s
  | None => Raise KeyError
  end.

(** ** The switches and the data of one call of [main] *)

Record Switches := {
  GSw_PRM_StressThreshold : string;
  (** [int(sw.GSw_PRM_StressIncrement)], a count *)
  GSw_PRM_StressIncrement : nat;
  GSw_PRM_StressStorageCutoff : string;
  GSw_HourlyType : string;
  (** [int(sw.GSw_PRM_CapCredit)] is not zero *)
  GSw_PRM_CapCredit : bool;
  GSw_StartMarkets : nat
}.

Record CaseData := {
  inputs : Inputs;
  (** [PRAS_{t}i{iteration}-energy.h5] *)
  dfenergy : Frame nat Q;
  (** the column [actual_period] of this iteration's [period_szn.csv] *)
  stressperiods_this_iteration : list string
}.

(** The two lines the loop prints on the threshold of a criterion. *)
Inductive message : Type :=
| Failed (criterion : string)
| Passed (criterion : string).

Record LoopState := {
  _eue_sorted_periods : dict string (list period_row);
  failed : dict string (list (string * fval));
  high_eue_periods : dict (string * string) (list period_row);
  shoulder_periods : dict (string * string) (list period_row);
  stdout : list message
}.

Definition empty_state : LoopState :=
  {| _eue_sorted_periods := []; failed := []; high_eue_periods := [];
     shoulder_periods := []; stdout := [] |}.

Definition ymd_eqb (a b : period_row) : bool :=
  date_eqb (y a, m a, d a) (y b, m b, d b).

(** [df.groupby('r').head(n)]: of every region the first [n] rows, in the
    order of the table. *)
Fixpoint groupby_head (n : nat) (before rest : list period_row)
  : list period_row :=
  match rest with
  | [] => []
  | a :: rest' =>
      if Nat.ltb (length (group_of String.eqb r (r a) before)) n
      then a :: groupby_head n (before ++ [a]) rest'
      else groupby_head n (before ++ [a]) rest'
  end.

(** Lines 490 to 504: the new periods of the regions that failed. *)
Definition select_periods (sw : Switches) (data : CaseData)
           (sorted : list period_row) (failed_c : list (string * fval))
  : list period_row :=
  groupby_head
    (GSw_PRM_StressIncrement sw) []
    (unique ymd_eqb
       (filter (fun a =>
                  isin (r a) (map fst failed_c)
                  && negb (isin (actual_period a)
                                (stressperiods_this_iteration data)))
               sorted)).

(** ** Shoulder periods *)

(** [dfenergy_agg.max() - dfenergy_agg] and its share of the maximum, for
    one column. *)
Definition headspace_MWh (col : list Q) : list Q :=
  match series_max col with
  | Some mx => map (fun v => mx - v) col
  | None => []
  end.

Definition headspace_frac (col : list Q) : list fval :=
  match series_max col with
  | Some mx => map (fun v => fdiv (mx - v) mx) col
  | None => []
  end.

Definition ts_eqb (a b : Timestamp) : bool :=
  date_eqb (date_of a) (date_of b) && Nat.eqb (hour a) (hour b).

(** [timeindex[i]] with Python's negative positions. *)
Definition py_getitem (A : Type) (l : list A) (i : Z) : result A :=
  let n := Z.of_nat (length l) in
  let j := if Z.ltb i 0 then Z.add i n else i in
  if Z.ltb j 0 then Raise IndexError
  else match nth_error l (Z.to_nat j) with
       | Some a => Ok a
       | None => Raise IndexError
       end.

(** The test of lines 559 to 563 and 570 to 574; [float(cutoff)] is only
    evaluated where Python evaluates it. *)
Definition cutoff_reached (co : Collaborators) (cutofftype cutoff : string)
           (headspace : Q) (frac : fval) (day_eue : fval) : result bool :=
  if String.eqb cutofftype "eue" then
    c <- py_float co cutoff ;;
    Ok (fge_bool (fdiv_by headspace day_eue) c)
  else if String.eqb (String.substring 0 3 cutofftype) "cap" then
    c <- py_float co cutoff ;;
    if fge_bool frac c then Ok true
    else Ok (String.eqb (String.substring 0 3 cutofftype) "abs")
  else Ok (String.eqb (String.substring 0 3 cutofftype) "abs").

Definition shoulder_of (co : Collaborators) (row : period_row) (t : Timestamp)
  : list period_row :=
  [ {| actual_period := strftime_period co t;
       y := year t; m := month t; d := day t; r := r row;
       metric := NaN |} ].

(** [if test: shoulder_periods[key] = rows]. *)
Definition put_shoulder (test : bool) (key : string * string)
           (rows : list period_row)
           (sh : dict (string * string) (list period_row))
  : dict (string * string) (list period_row) :=
  if test then dict_set key2_eqb key rows sh else sh.

(** The body of the loop of lines 539 to 579 for one new period. *)
Definition shoulder_row (co : Collaborators) (timeindex : list Timestamp)
           (dfenergy_agg : Frame Timestamp Q)
           (criterion stress_metric cutofftype cutoff : string)
           (periodhours : nat)
           (sh : dict (string * string) (list period_row)) (row : period_row)
  : result (dict (string * string) (list period_row)) :=
  match col_lookup (r row) (cols dfenergy_agg) with
  | None => Ok sh
  | Some col =>
      let day := (y row, m row, d row) in
      let idx := index dfenergy_agg in
      match day_values idx (headspace_MWh col) day,
            day_values idx (headspace_frac col) day,
            day_values idx idx day with
      | mwh0 :: mwh, frac0 :: frac, t0 :: _ =>
          day_eue <- (if String.eqb stress_metric "EUE"
                      then Ok (metric row) else Raise AttributeError) ;;
          day_index <- match index_pos ts_eqb t0 timeindex with
                       | Some i => Ok i
                       | None => Raise IndexError
                       end ;;
          day_before <- py_getitem timeindex
                          (Z.sub (Z.of_nat day_index) (Z.of_nat periodhours)) ;;
          day_after <- py_getitem timeindex
                         (Z.of_nat ((day_index + periodhours)
                                    mod length timeindex)) ;;
          after <- cutoff_reached co cutofftype cutoff
                     (last mwh mwh0) (last frac frac0) day_eue ;;
          let sh1 :=
            put_shoulder after
                         (criterion,
                          String.append "after_" (actual_period row))
                         (shoulder_of co row day_after) sh in
          before <- cutoff_reached co cutofftype cutoff mwh0 frac0 day_eue ;;
          Ok (put_shoulder before
                           (criterion,
                            String.append "before_" (actual_period row))
                           (shoulder_of co row day_before) sh1)
      | _, _, _ => Raise KeyError
      end
  end.

Fixpoint shoulder_rows (co : Collaborators) (timeindex : list Timestamp)
         (dfenergy_agg : Frame Timestamp Q)
         (criterion stress_metric cutofftype cutoff : string)
         (periodhours : nat)
         (sh : dict (string * string) (list period_row))
         (rows : list period_row)
  : result (dict (string * string) (list period_row)) :=
  match rows with
  | [] => Ok sh
  | row :: rows' =>
      sh1 <- shoulder_row co timeindex dfenergy_agg criterion stress_metric
                          cutofftype cutoff periodhours sh row ;;
      shoulder_rows co timeindex dfenergy_agg criterion stress_metric
                    cutofftype cutoff periodhours sh1 rows'
  end.

(** [{'day':24, 'wek':24*5, 'year':24}[sw.GSw_HourlyType]]. *)
Definition periodhours_of (hourly_type : string) : result nat :=
  if String.eqb hourly_type "day" then Ok 24%nat
  else if String.eqb hourly_type "wek" then Ok 120%nat
  else if String.eqb hourly_type "year" then Ok 24%nat
  else Raise KeyError.

(** [df.empty]. *)
Definition frame_empty (I C : Type) (f : Frame I C) : bool :=
  match index f, cols f with
  | [], _ => true
  | _, [] => true
  | _, _ => false
  end.

(** Lines 513 to 579; the state with the shoulder periods of [rows]. *)
Definition add_shoulders (co : Collaborators) (sw : Switches)
           (data : CaseData) (dfenergy_r : Frame Timestamp Q)
           (criterion hierarchy_level stress_metric : string)
           (rows : list period_row) (st : LoopState) : result LoopState :=
  let cutoff_sw := lower (GSw_PRM_StressStorageCutoff sw) in
  if isin cutoff_sw ["off"; "0"; "false"]%string then Ok st
  else if frame_empty dfenergy_r then Ok st
  else
    match split "_" cutoff_sw with
    | [cutofftype; cutoff] =>
        periodhours <- periodhours_of (GSw_HourlyType sw) ;;
        rmap <- match col_lookup hierarchy_level
                                 (cols (hierarchy (inputs data))) with
                | Some c => Ok (combine (index (hierarchy (inputs data))) c)
                | None => Raise KeyError
                end ;;
        let dfenergy_agg :=
          groupby_columns_sum (rename_columns rmap dfenergy_r) in
        sh <- shoulder_rows co (timeindex (inputs data)) dfenergy_agg
                            criterion stress_metric cutofftype cutoff
                            periodhours (shoulder_periods st) rows ;;
        Ok {| _eue_sorted_periods := _eue_sorted_periods st;
              failed := failed st;
              high_eue_periods := high_eue_periods st;
              shoulder_periods := sh;
              stdout := stdout st |}
    | _ => Raise ValueError
    end.

(** An entry of [shoulder_periods] made under [criterion] for one of
    [rows]. *)
Definition shoulder_entry (co : Collaborators) (criterion : string)
           (rows : list period_row)
           (kv : (string * string) * list period_row) : Prop :=
  fst (fst kv) = criterion
  /\ exists q t,
      In q rows
      /\ snd kv = shoulder_of co q t
      /\ (snd (fst kv) = String.append "after_" (actual_period q)
          \/ snd (fst kv) = String.append "before_" (actual_period q)).

(** The row [s] is the shoulder period of the period [q] on one side: it
    carries the region of [q] and names the day of the time index that lies
    [periodhours] hours after, or before, the first hour of the day of [q],
    the positions taken cyclically. *)
Definition shoulder_day (co : Collaborators) (timeindex : list Timestamp)
           (periodhours : nat) (after : bool) (q s : period_row) : Prop :=
  exists (t0 t : Timestamp) (i : nat),
    hd_error (day_values timeindex timeindex (y q, m q, d q)) = Some t0
    /\ index_pos ts_eqb t0 timeindex = Some i
    /\ nth_error timeindex
                 ((if after then i + periodhours
                   else i + length timeindex - periodhours)
                    mod length timeindex) = Some t
    /\ s = {| actual_period := strftime_period co t;
              y := year t; m := month t; d := day t; r := r q;
              metric := NaN |}.

(** The key of the shoulder period of [q] on one side. *)
Definition shoulder_label (after : bool) (q : period_row) : string :=
  String.append (if after then "after_" else "before_") (actual_period q).

(** ** One turn of the loop over the criteria *)

(** The state after the turn, and whether the loop is left by [break]. *)
Definition criterion_step (co : Collaborators) (sw : Switches)
           (data : CaseData) (dfenergy_r : Frame Timestamp Q)
           (neue : neue_table) (st : LoopState) (criterion : string)
  : result (LoopState * bool) :=
  match split "_" criterion with
  | [hierarchy_level; ppm; stress_metric; period_agg_method] =>
      eue_periods <- get_stress_periods co (inputs data) (GSw_HourlyType sw)
                       hierarchy_level stress_metric period_agg_method ;;
      let sorted :=
        sort_values (fun a b => fle_bool (metric b) (metric a)) eue_periods in
      let st1 :=
        {| _eue_sorted_periods :=
             dict_set String.eqb criterion sorted (_eue_sorted_periods st);
           failed := failed st;
           high_eue_periods := high_eue_periods st;
           shoulder_periods := shoulder_periods st;
           stdout := stdout st |} in
      this_test <- neue_lookup neue hierarchy_level period_agg_method ;;
      threshold <- py_float co ppm ;;
      if existsb (fun x => fgt_bool (snd x) threshold) this_test then
        let failed_c :=
          filter (fun x => fgt_bool (snd x) threshold) this_test in
        let rows := select_periods sw data sorted failed_c in
        let st2 :=
          {| _eue_sorted_periods := _eue_sorted_periods st1;
             failed := dict_set String.eqb criterion failed_c (failed st1);
             high_eue_periods :=
               dict_set key2_eqb
                        (criterion, String.append "high_" stress_metric)
                        rows (high_eue_periods st1);
             shoulder_periods := shoulder_periods st1;
             stdout := stdout st1 ++ [Failed criterion] |} in
        st3 <- add_shoulders co sw data dfenergy_r criterion hierarchy_level
                             stress_metric rows st2 ;;
        Ok (st3, true)
      else
        Ok ({| _eue_sorted_periods := _eue_sorted_periods st1;
               failed := failed st1;
               high_eue_periods := high_eue_periods st1;
               shoulder_periods := shoulder_periods st1;
               stdout := stdout st1 ++ [Passed criterion] |},
            false)
  | _ => Raise ValueError
  end.

(** [for criterion in ...: ...]; a turn that breaks ends the loop. *)
Fixpoint criterion_loop (co : Collaborators) (sw : Switches)
         (data : CaseData) (dfenergy_r : Frame Timestamp Q)
         (neue : neue_table) (st : LoopState) (criteria : list string)
  : result LoopState :=
  match criteria with
  | [] => Ok st
  | criterion :: criteria' =>
      res <- criterion_step co sw data dfenergy_r neue st criterion ;;
      if snd res then Ok (fst res)
      else criterion_loop co sw data dfenergy_r neue (fst res) criteria'
  end.

(** The threshold test of a criterion, as the turn of the loop makes it. *)
Definition threshold_test (co : Collaborators) (neue : neue_table)
           (criterion : string) : result bool :=
  match split "_" criterion with
  | [hierarchy_level; ppm; _; period_agg_method] =>
      this_test <- neue_lookup neue hierarchy_level period_agg_method ;;
      threshold <- py_float co ppm ;;
      Ok (existsb (fun x => fgt_bool (snd x) threshold) this_test)
  | _ => Raise ValueError
  end.

(** The table of candidate periods of a criterion. *)
Definition candidate_periods (co : Collaborators) (sw : Switches)
           (data : CaseData) (criterion : string)
  : result (list period_row) :=
  match split "_" criterion with
  | [hierarchy_level; _; stress_metric; period_agg_method] =>
      get_stress_periods co (inputs data) (GSw_HourlyType sw)
                         hierarchy_level stress_metric period_agg_method
  | _ => Raise ValueError
  end.

(** A criterion is evaluated without an exception and no region is above
    its threshold. *)
Definition criterion_passes (co : Collaborators) (sw : Switches)
           (data : CaseData) (neue : neue_table) (criterion : string) : Prop :=
  (exists tbl, candidate_periods co sw data criterion = Ok tbl)
  /\ threshold_test co neue criterion = Ok false.

(** ** After the loop *)

(** A row of [new_stress_periods]: the two levels of the concatenated
    dictionaries and the period. *)
Record new_period := {
  criterion_of : string;
  periodtype : string;
  period : period_row
}.

(** [pd.concat(d, names=['criterion','periodtype']).reset_index()]. *)
Definition concat_periods (dd : dict (string * string) (list period_row))
  : list new_period :=
  flat_map
    (fun kv =>
       map (fun a =>
              {| criterion_of := fst (fst kv); periodtype := snd (fst kv);
                 period := a |})
           (snd kv))
    dd.

(** Lines 589 to 592. *)
Definition new_stress_periods (st : LoopState) : option (list new_period) :=
  match failed st with
  | [] => None
  | _ :: _ =>
      Some (unique
              (fun a b =>
                 String.eqb (actual_period (period a))
                            (actual_period (period b)))
              (concat_periods
                 (dict_merge key2_eqb (high_eue_periods st)
                             (shoulder_periods st))))
  end.

(** [c.split('|')[1]] for every column of the storage energy. *)
Fixpoint region_columns (cs : list (string * list Q))
  : result (list (string * list Q)) :=
  match cs with
  | [] => Ok []
  | c :: cs' =>
      match split "|" (fst c) with
      | _ :: nm :: _ =>
          rest <- region_columns cs' ;;
          Ok ((nm, snd c) :: rest)
      | _ => Raise IndexError
      end
  end.

(** Lines 446 to 456: the storage energy by region, on the time index. *)
Definition storage_by_region (data : CaseData) : result (Frame Timestamp Q) :=
  df <- set_index (timeindex (inputs data)) (dfenergy data) ;;
  cs <- region_columns (cols df) ;;
  Ok (groupby_columns_sum {| index := index df; cols := cs |}).

Record MainOutput := {
  eue_sorted_periods : dict string (list period_row);
  failed_criteria : dict string (list (string * fval));
  new_periods : option (list new_period);
  printed : list message
}.

(** What [main] has in hand when the loop is over. *)
Definition main_output (st : LoopState) : MainOutput :=
  {| eue_sorted_periods := _eue_sorted_periods st;
     failed_criteria := failed st;
     new_periods := new_stress_periods st;
     printed := stdout st |}.

(** [main] up to the table of new stress periods; [None] is the early
    return of line 437.  What follows in the script writes files. *)
Definition main (co : Collaborators) (sw : Switches) (t : nat)
           (data : CaseData) : result (option MainOutput) :=
  match get_annual_neue (inputs data) with
  | Raise e => if GSw_PRM_CapCredit sw then Ok None else Raise e
  | Ok neue =>
      if GSw_PRM_CapCredit sw || Nat.ltb t (GSw_StartMarkets sw) then Ok None
      else
        dfenergy_r <- storage_by_region data ;;
        st <- criterion_loop co sw data dfenergy_r neue empty_state
                             (split "/" (GSw_PRM_StressThreshold sw)) ;;
        Ok (Some (main_output st))
  end.

End Orchestrator.

Module OrchestratorExamples.
Import StressPeriods Orchestrator.

Definition hours (days : list nat) : list Timestamp :=
  flat_map (fun dd =>
              map (fun h =>
                     {| year := 2012; month := 7; day := dd; hour := h |})
                  (seq 0 24))
           days.

(** A column that is [base] but for the listed positions. *)
Definition column (n : nat) (base : Q) (special : list (nat * Q)) : list Q :=
  map (fun i =>
         match find (fun p => Nat.eqb (fst p) i) special with
         | Some p => snd p
         | None => base
         end)
      (seq 0 n).

(** Two regions of one state over three days; unserved energy on the second
    and on the third day. *)
Definition three_days : CaseData :=
  {| inputs :=
       {| hierarchy :=
            {| index := ["p1"; "p2"]%string;
               cols := [("country"%string, ["USA"; "USA"]%string);
                        ("interconnect"%string, ["western"; "western"]%string);
                        ("nercr"%string, ["WECC"; "WECC"]%string);
                        ("transreg"%string, ["CAISO"; "CAISO"]%string);
                        ("transgrp"%string, ["CAISO"; "CAISO"]%string);
                        ("st"%string, ["CA"; "CA"]%string)] |};
          timeindex := hours [1; 2; 3]%nat;
          dfpras :=
            {| index := seq 0 72;
               cols := [("p1_EUE"%string,
                         column 72 0 [(29%nat, 6); (49%nat, 1)]);
                        ("p2_EUE"%string, column 72 0 [(29%nat, 4)]);
                        ("USA_EUE"%string,
                         column 72 0 [(29%nat, 10); (49%nat, 1)])] |};
          pras_load :=
            {| index := seq 0 72;
               cols := [("p1"%string, column 72 100 []);
                        ("p2"%string, column 72 100 [])] |} |};
     dfenergy :=
       {| index := seq 0 72;
          cols := [("battery|p1|4"%string, column 72 50 [(24%nat, 10)]);
                   ("battery|p2|4"%string, column 72 30 [(47%nat, 0)])] |};
     stressperiods_this_iteration := ["y2012d001"%string] |}.

Definition day_label (dd : nat) : string :=
  match dd with
  | 1 => "y2012d183"
  | 2 => "y2012d184"
  | 3 => "y2012d185"
  | _ => "y2012d000"
  end%nat%string.

Definition collaborators : Collaborators :=
  {| timestamp2h := fun D _ => String.append (day_label (snd D)) "h001";
     strftime_period := fun t => day_label (day t);
     py_float :=
       fun s =>
         if String.eqb s "1" then Ok 1
         else if String.eqb s "10" then Ok 10
         else if String.eqb s "100" then Ok 100
         else if String.eqb s "100000" then Ok 100000
         else Raise ValueError |}.

(** The first criterion passes, the two after it are above their threshold;
    the storage cutoff adds the two neighbours of every new period. *)
Definition switches : Switches :=
  {| GSw_PRM_StressThreshold := "st_100000_EUE_sum/st_10_EUE_sum/r_1_EUE_max";
     GSw_PRM_StressIncrement := 1;
     GSw_PRM_StressStorageCutoff := "abs_1";
     GSw_HourlyType := "day";
     GSw_PRM_CapCredit := false;
     GSw_StartMarkets := 2010 |}.

Definition annual_neue_three_days : neue_table :=
  match get_annual_neue (inputs three_days) with
  | Ok neue => neue
  | Raise _ => []
  end.

Definition storage_three_days : Frame Timestamp Q :=
  match storage_by_region three_days with
  | Ok f => f
  | Raise _ => {| index := []; cols := [] |}
  end.

End OrchestratorExamples.

(** * Notions used to state further facts *)

Module Selection.
Import StressPeriods Orchestrator.

(** The rows a failing criterion may add (lines 491 to 497): of a region
    that failed, and not a stress period of this iteration yet. *)
Definition eligible (data : CaseData) (failed_c : list (string * fval))
           (a : period_row) : bool :=
  isin (r a) (map fst failed_c)
  && negb (isin (actual_period a) (stressperiods_this_iteration data)).

End Selection.

(** * The reserve-margin update: the regions that failed *)

Module FailedRegions.
Import Pandas StressPeriods Orchestrator.

(** A row of [failed_regions]. *)
Record failed_region := {
  r : string;
  region : string;
  hierarchy_level : string;
  ppm : Q
}.

(** [get_rmap(...).reset_index()]: the rows of base region and aggregate
    region.  The level [r] is left out: what [reset_index] does there hangs
    on the names that [reeds.io.get_hierarchy] gives to the index. *)
Definition rmap_rows (h : Frame string string) (level : string)
  : result (list (string * string)) :=
  if String.eqb level "r" then Raise NotEmbedded else get_rmap h level.

(** The body of the loop of lines 262 to 272. *)
Definition failed_regions_of (co : Collaborators) (h : Frame string string)
           (failed : dict string (list (string * fval))) (criterion : string)
  : result (list failed_region) :=
  match split "_" criterion with
  | [level; ppm_text; _; _] =>
      rmap <- rmap_rows h level ;;
      failed_c <- match dict_get String.eqb criterion failed with
                  | Some s => Ok s
                  | None => Raise KeyError
                  end ;;
      p <- py_float co ppm_text ;;
      Ok (map (fun rv =>
                 {| r := fst rv; region := snd rv; hierarchy_level := level;
                    ppm := p |})
              (filter (fun rv => isin (snd rv) (map fst failed_c)) rmap))
  | _ => Raise ValueError
  end.

Fixpoint failed_regions_loop (co : Collaborators) (h : Frame string string)
         (failed : dict string (list (string * fval)))
         (criteria : list string) : result (list failed_region) :=
  match criteria with
  | [] => Ok []
  | criterion :: criteria' =>
      rows <- failed_regions_of co h failed criterion ;;
      rest <- failed_regions_loop co h failed criteria' ;;
      Ok (rows ++ rest)
  end.

(** Lines 261 to 277: the rows of all criteria, sorted by [ppm], one row
    kept per base region.  Rows of equal [ppm] keep their order here;
    pandas leaves their order open. *)
Definition failed_regions (co : Collaborators) (h : Frame string string)
           (failed : dict string (list (string * fval)))
           (GSw_PRM_StressThreshold : string)
  : result (list failed_region) :=
  rows <- failed_regions_loop co h failed
                              (split "/" GSw_PRM_StressThreshold) ;;
  Ok (unique (fun a b => String.eqb (r a) (r b))
             (sort_values (fun a b => Qle_bool (ppm a) (ppm b)) rows)).

(** Lines 280 to 284: the same increment for every region that failed. *)
Definition fixed_increment (GSw_PRM_StressUpdateIncrement : Q)
           (fr : list failed_region) : list (string * Q) :=
  map (fun a => (r a, GSw_PRM_StressUpdateIncrement)) fr.

End FailedRegions.

(** * The reserve-margin update: from the target to the increment *)

Module DfloadAll.

(** A row of [dfload_all] after line 347. *)
Record row := {
  r : string;
  load_mwh : Q;
  stress_load_mwh : Q;
  ppm : Q;
  target_eue_mwh : Q
}.

End DfloadAll.

Module PrmIncrement.
Import Pandas StressPeriods UpdatePrm.

(** Lines 340 to 347: the total load and the load in the stress periods of
    a region are put side by side, the regions that failed are kept, and the
    target in ppm becomes unserved energy. *)
Definition dfload_all (dfload_total dfload_stress : list (string * Q))
           (failed_regions : list FailedRegions.failed_region)
  : list DfloadAll.row :=
  flat_map
    (fun tot =>
       flat_map
         (fun st =>
            map (fun fr =>
                   {| DfloadAll.r := fst tot;
                      DfloadAll.load_mwh := snd tot;
                      DfloadAll.stress_load_mwh := snd st;
                      DfloadAll.ppm := FailedRegions.ppm fr;
                      DfloadAll.target_eue_mwh :=
                        FailedRegions.ppm fr / 1000000 * snd tot |})
                (filter (fun fr => String.eqb (FailedRegions.r fr) (fst tot))
                        failed_regions))
         (filter (fun st => String.eqb (fst st) (fst tot)) dfload_stress))
    dfload_total.

(** [plfs.merge(dfload_all, on='r')]. *)
Definition merge_on_r (plfs : list plf_row) (loads : list DfloadAll.row)
  : list (plf_row * DfloadAll.row) :=
  flat_map
    (fun a =>
       map (fun l => (a, l))
           (filter (fun l => String.eqb (DfloadAll.r l) (r a)) loads))
    plfs.

(** Lines 379 to 381: the segment takes in the target. *)
Definition seg (a : plf_row) (target : Q) : bool :=
  Qle_bool target (y1 a) && Qle_bool (y2 a) target.

(** Lines 385 to 386. *)
Definition surplus_mwh (a : plf_row) (target : Q) : Q :=
  x1 a + (target - y1 a) * (1 / slope a).

(** Lines 378 to 392: the increment of every region whose curve takes in
    its target. *)
Definition prm_increment (plfs : list plf_row) (loads : list DfloadAll.row)
  : list (string * fval) :=
  map (fun p =>
         (r (fst p),
          fdiv (surplus_mwh (fst p) (DfloadAll.target_eue_mwh (snd p)))
               (DfloadAll.stress_load_mwh (snd p))))
      (filter (fun p => seg (fst p) (DfloadAll.target_eue_mwh (snd p)))
              (merge_on_r plfs loads)).

End PrmIncrement.

(** * The table written for the next iteration *)

Module PeriodsWrite.
Import Pandas StressPeriods Orchestrator.

Fixpoint mem_ascii (c : ascii) (chars : string) : bool :=
  match chars with
  | EmptyString => false
  | String c' chars' => Ascii.eqb c c' || mem_ascii c chars'
  end.

(** [s.lstrip(chars)], [s.rstrip(chars)] and [s.strip(chars)]. *)
Fixpoint lstrip (chars s : string) : string :=
  match s with
  | EmptyString => EmptyString
  | String c s' => if mem_ascii c chars then lstrip chars s' else s
  end.

Fixpoint rstrip (chars s : string) : string :=
  match s with
  | EmptyString => EmptyString
  | String c s' =>
      match rstrip chars s' with
      | EmptyString =>
          if mem_ascii c chars then EmptyString else String c EmptyString
      | t => String c t
      end
  end.

Definition strip (chars s : string) : string := rstrip chars (lstrip chars s).

Definition digit_value (c : ascii) : option nat :=
  let n := nat_of_ascii c in
  if Nat.leb 48 n && Nat.leb n 57 then Some (n - 48)%nat else None.

Fixpoint digits_value (acc : nat) (s : string) : option nat :=
  match s with
  | EmptyString => Some acc
  | String c s' =>
      match digit_value c with
      | Some v => digits_value (10 * acc + v) s'
      | None => None
      end
  end.

(** The characters that a text which [int] accepts may hold besides the
    digits: a sign, an underscore between digits, white space around the
    number, and what is not ASCII. *)
Definition beside_digits (c : ascii) : bool :=
  let n := nat_of_ascii c in
  Nat.eqb n 43 || Nat.eqb n 45 || Nat.eqb n 95 || Nat.eqb n 32
  || (Nat.leb 9 n && Nat.leb n 13) || (Nat.leb 28 n && Nat.leb n 31)
  || Nat.leb 128 n.

Fixpoint all_chars (P : ascii -> bool) (s : string) : bool :=
  match s with
  | EmptyString => true
  | String c s' => P c && all_chars P s'
  end.

(** [int(s)]: the value of a text of digits, ValueError on the empty text
    and on a text with a character that no number holds.  The texts with
    signs, underscores or white space are not embedded. *)
Definition py_int (s : string) : result nat :=
  match s with
  | EmptyString => Raise ValueError
  | _ =>
      match digits_value 0 s with
      | Some n => Ok n
      | None =>
          if all_chars (fun c => match digit_value c with
                                 | Some _ => true
                                 | None => beside_digits c
                                 end) s
          then Raise NotEmbedded
          else Raise ValueError
      end
  end.

(** A row of [new_stressperiods_write]. *)
Record write_row := {
  rep_period : string;
  year : nat;
  yperiod : nat;
  actual_period : string
}.

(** [p = 'w' if sw.GSw_HourlyType == 'wek' else 'd']. *)
Definition period_letter (GSw_HourlyType : string) : ascii :=
  if String.eqb GSw_HourlyType "wek" then "w"%char else "d"%char.

(** [int(x.strip('sy').split(p)[0])] and [int(x.strip('sy').split(p)[1])]. *)
Definition year_of (p : ascii) (x : string) : result nat :=
  py_int (hd EmptyString (split p (strip "sy" x))).

Definition yperiod_of (p : ascii) (x : string) : result nat :=
  match split p (strip "sy" x) with
  | _ :: b :: _ => py_int b
  | _ => Raise IndexError
  end.

(** [Series.map(f)]: the first exception ends the map. *)
Fixpoint series_map (A B : Type) (f : A -> result B) (l : list A)
  : result (list B) :=
  match l with
  | [] => Ok []
  | a :: l' =>
      b <- f a ;;
      bs <- series_map f l' ;;
      Ok (b :: bs)
  end.

(** Lines 594 to 603: the column [year] is mapped first, then the column
    [yperiod]. *)
Definition new_stressperiods_write (GSw_HourlyType : string)
           (new_stress_periods : list new_period) : result (list write_row) :=
  let p := period_letter GSw_HourlyType in
  let names :=
    map (fun n => Orchestrator.actual_period (period n)) new_stress_periods in
  years <- series_map (year_of p) names ;;
  yperiods <- series_map (yperiod_of p) names ;;
  Ok (map (fun x =>
             {| rep_period := fst (fst x); year := snd (fst x);
                yperiod := snd x; actual_period := fst (fst x) |})
          (combine (combine names years) yperiods)).

(** A text of digits, and the label of a period: [y], the year, the letter
    of the period type, the number of the period. *)
Definition is_digit (c : ascii) : bool :=
  match digit_value c with Some _ => true | None => false end.

Definition digits (s : string) : bool :=
  negb (String.eqb s EmptyString) && all_chars is_digit s.

Definition period_label (p : ascii) (Y J : string) : string :=
  String "y" (String.append Y (String p J)).

End PeriodsWrite.

Module ExtraExamples.
Import StressPeriods Orchestrator.

(** Thresholds that the three days of [OrchestratorExamples] stay under. *)
Definition lenient_switches : Switches :=
  {| GSw_PRM_StressThreshold := "st_100000_EUE_sum/r_100000_EUE_max";
     GSw_PRM_StressIncrement := 1;
     GSw_PRM_StressStorageCutoff := "abs_1";
     GSw_HourlyType := "day";
     GSw_PRM_CapCredit := false;
     GSw_StartMarkets := 2010 |}.

(** One criterion, which the three days of [OrchestratorExamples] fail. *)
Definition single_switches : Switches :=
  {| GSw_PRM_StressThreshold := "st_10_EUE_sum";
     GSw_PRM_StressIncrement := 1;
     GSw_PRM_StressStorageCutoff := "abs_1";
     GSw_HourlyType := "day";
     GSw_PRM_CapCredit := false;
     GSw_StartMarkets := 2010 |}.

(** The storage energy of the three days, summed over the state. *)
Definition storage_by_state : Frame Timestamp Q :=
  groupby_columns_sum
    (rename_columns [("p1", "CA"); ("p2", "CA")]%string
                    OrchestratorExamples.storage_three_days).

(** The two days of [StressPeriodsExamples] with a load table that has a
    region the hierarchy does not know. *)
Definition two_days_stray_load : Inputs :=
  {| hierarchy := hierarchy StressPeriodsExamples.two_days;
     timeindex := timeindex StressPeriodsExamples.two_days;
     dfpras := dfpras StressPeriodsExamples.two_days;
     pras_load :=
       {| index := [0; 1; 2; 3]%nat;
          cols := [("p1"%string, [60; 200; 100; 100]);
                   ("p2"%string, [40; 100; 100; 100]);
                   ("p9"%string, [10; 10; 10; 10])] |} |}.

(** A new stress period on the first day of the time index. *)
Definition first_day : period_row :=
  {| actual_period := "y2012d183"; y := 2012; m := 7; d := 1; r := "CA";
     metric := Fin 10 |}.

End ExtraExamples.

(** * Facts on the dataframe operations *)

Module PandasFacts.
Import Pandas.

Section SortFacts.
Variable A : Type.
Variable le : A -> A -> bool.

Lemma insert_row_perm (a : A) (l : list A) :
  Permutation (insert_row le a l) (a :: l).
Proof.
  induction l as [|b l IH]; simpl.
  - apply Permutation_refl.
  - destruct (le a b).
    + apply Permutation_refl.
    + apply perm_trans with (b :: a :: l).
      * now apply perm_skip.
      * apply perm_swap.
Qed.

Lemma sort_values_perm (l : list A) : Permutation (sort_values le l) l.
Proof.
  induction l as [|a l IH]; simpl.
  - apply perm_nil.
  - apply perm_trans with (a :: sort_values le l).
    + apply insert_row_perm.
    + now apply perm_skip.
Qed.

Hypothesis le_total : forall a b, le a b = false -> le b a = true.
Hypothesis le_trans :
  forall a b c, le a b = true -> le b c = true -> le a c = true.

Local Abbreviation leP := (fun a b : A => le a b = true).

Lemma insert_row_sorted (a : A) (l : list A) :
  StronglySorted leP l -> StronglySorted leP (insert_row le a l).
Proof.
  induction 1 as [|b l Hs IH Hb]; simpl.
  - constructor; constructor.
  - destruct (le a b) eqn:E.
    + constructor.
      * now constructor.
      * constructor; [exact E|].
        eapply Forall_impl; [|exact Hb].
        intros c Hc. eapply le_trans; eassumption.
    + constructor; [exact IH|].
      apply (Permutation_Forall (Permutation_sym (insert_row_perm a l))).
      constructor; [now apply le_total | exact Hb].
Qed.

Lemma sort_values_sorted (l : list A) :
  StronglySorted leP (sort_values le l).
Proof.
  induction l as [|a l IH]; simpl.
  - constructor.
  - now apply insert_row_sorted.
Qed.
End SortFacts.

Lemma StronglySorted_filter (A : Type) (R : A -> A -> Prop)
      (p : A -> bool) (l : list A) :
  StronglySorted R l -> StronglySorted R (filter p l).
Proof.
  induction 1 as [|a l Hs IH Ha]; simpl.
  - constructor.
  - destruct (p a).
    + constructor; [exact IH|].
      rewrite Forall_forall in *. intros b Hb.
      apply Ha. now apply filter_In in Hb.
    + exact IH.
Qed.

Lemma Permutation_filter (A : Type) (p : A -> bool) (l l' : list A) :
  Permutation l l' -> Permutation (filter p l) (filter p l').
Proof.
  induction 1 as [|a l l' H IH|a b l|l l' l'' H1 IH1 H2 IH2]; simpl.
  - apply perm_nil.
  - destruct (p a); [now apply perm_skip | exact IH].
  - destruct (p a), (p b); try apply Permutation_refl. apply perm_swap.
  - eapply perm_trans; eassumption.
Qed.

Lemma Qsum_app (l l' : list Q) : Qsum (l ++ l') == Qsum l + Qsum l'.
Proof.
  induction l as [|v l IH]; simpl.
  - lra.
  - rewrite IH. lra.
Qed.

Lemma Qsum_perm (l l' : list Q) : Permutation l l' -> Qsum l == Qsum l'.
Proof.
  induction 1 as [|a l l' H IH|a b l|l l' l'' H1 IH1 H2 IH2]; simpl.
  - reflexivity.
  - rewrite IH. reflexivity.
  - lra.
  - now rewrite IH1.
Qed.

Lemma shift_down_cons (p v : Q) (l : list Q) :
  shift_down p (v :: l) = p :: shift_down v l.
Proof.
  unfold shift_down. destruct l; reflexivity.
Qed.

Lemma shift_down_length (p : Q) (l : list Q) :
  length (shift_down p l) = length l.
Proof.
  revert p. induction l as [|v l IH]; intros p.
  - reflexivity.
  - rewrite shift_down_cons. simpl. now rewrite IH.
Qed.

Lemma shift_up_length (p : Q) (l : list Q) :
  length (shift_up p l) = length l.
Proof.
  destruct l as [|v l]; simpl.
  - reflexivity.
  - rewrite length_app. simpl. lia.
Qed.

Lemma cumsum_from_length (acc : Q) (l : list Q) :
  length (cumsum_from acc l) = length l.
Proof.
  revert acc. induction l as [|v l IH]; intros acc; simpl.
  - reflexivity.
  - now rewrite IH.
Qed.

Lemma broadcast_sum_length (l : list Q) : length (broadcast_sum l) = length l.
Proof. unfold broadcast_sum. apply repeat_length. Qed.

Lemma skipn_nth_cons (n : nat) (F : list Q) :
  (n < length F)%nat -> skipn n F = nth n F 0 :: skipn (S n) F.
Proof.
  revert n. induction F as [|x F IHF]; intros n Hn; simpl in *; [lia|].
  destruct n as [|n]; [reflexivity|].
  apply IHF. lia.
Qed.

Section GroupFacts.
Variables A K : Type.
Variable eqb : K -> K -> bool.
Variable key : A -> K.
Hypothesis eqb_eq : forall x y, eqb x y = true <-> x = y.

Lemma group_of_app (k : K) (l l' : list A) :
  group_of eqb key k (l ++ l') = group_of eqb key k l ++ group_of eqb key k l'.
Proof. unfold group_of. apply filter_app. Qed.

Lemma group_of_cons (k : K) (a : A) (l : list A) :
  group_of eqb key k (a :: l)
  = if eqb (key a) k then a :: group_of eqb key k l
    else group_of eqb key k l.
Proof. reflexivity. Qed.

Lemma group_of_snoc_length (k : K) (a : A) (l : list A) :
  length (group_of eqb key k (l ++ [a]))
  = (length (group_of eqb key k l) + if eqb (key a) k then 1 else 0)%nat.
Proof.
  rewrite group_of_app, length_app, group_of_cons.
  destruct (eqb (key a) k); reflexivity.
Qed.

Lemma group_of_In (k : K) (a : A) (l : list A) :
  In a (group_of eqb key k l) <-> In a l /\ key a = k.
Proof.
  unfold group_of. rewrite filter_In. now rewrite eqb_eq.
Qed.

Lemma group_of_map (k : K) (h : A -> A) (l : list A) :
  (forall a, key (h a) = key a) ->
  group_of eqb key k (map h l) = map h (group_of eqb key k l).
Proof.
  intros Hh. unfold group_of.
  induction l as [|a l IH]; simpl.
  - reflexivity.
  - rewrite Hh. destruct (eqb (key a) k); simpl; now rewrite IH.
Qed.

Variable set : Q -> A -> A.
Hypothesis key_set : forall v a, key (set v a) = key a.

(** A column that [set] leaves alone reads the same after [assign]. *)
Lemma assign_other (B : Type) (get : A -> B) (k : K)
      (df : list A) (col : list Q) :
  (forall v a, get (set v a) = get a) ->
  length col = length df ->
  map get (group_of eqb key k (assign set df col))
  = map get (group_of eqb key k df).
Proof.
  intros Hget. revert col.
  induction df as [|a df IH]; intros [|c col] Hlen; simpl in *;
    try reflexivity; try discriminate.
  injection Hlen as Hlen.
  unfold assign, group_of in *. simpl. rewrite key_set.
  destruct (eqb (key a) k); simpl.
  - rewrite Hget. f_equal. now apply IH.
  - now apply IH.
Qed.

Lemma transform_rows_length (col : A -> Q) (f : list Q -> list Q)
      (df before rest : list A) :
  length (transform_rows eqb key col f df before rest) = length rest.
Proof.
  revert before. induction rest as [|a rest IH]; intros before; simpl.
  - reflexivity.
  - now rewrite IH.
Qed.

Lemma groupby_transform_length (col : A -> Q) (f : list Q -> list Q)
      (df : list A) :
  length (groupby_transform eqb key col f df) = length df.
Proof. apply transform_rows_length. Qed.

Variable get : A -> Q.
Hypothesis get_set : forall v a, get (set v a) = v.

(** The new column of a group is [f] of the old column of that group,
    possibly combined row by row with the row itself through [g]. *)
Lemma transform_rows_group (col : A -> Q) (f : list Q -> list Q)
      (g : A -> Q -> Q) (k : K) (df : list A) :
  (forall l, length (f l) = length l) ->
  forall rest before,
    df = before ++ rest ->
    map get
        (group_of eqb key k
           (map (fun p => set (g (fst p) (snd p)) (fst p))
                (combine rest (transform_rows eqb key col f df before rest))))
    = map (fun p => g (fst p) (snd p))
          (combine (group_of eqb key k rest)
                   (skipn (length (group_of eqb key k before))
                          (f (map col (group_of eqb key k df))))).
Proof.
  intros Hf. induction rest as [|a rest IH]; intros before Hdf.
  - reflexivity.
  - assert (Hdf' : df = (before ++ [a]) ++ rest)
      by (rewrite <- app_assoc; exact Hdf).
    specialize (IH (before ++ [a]) Hdf').
    rewrite group_of_snoc_length in IH.
    cbn [transform_rows combine map fst snd].
    rewrite !group_of_cons, key_set.
    destruct (eqb (key a) k) eqn:E.
    + apply eqb_eq in E. subst k.
      set (F := f (map col (group_of eqb key (key a) df))) in *.
      set (n := length (group_of eqb key (key a) before)) in *.
      assert (Hn : (n < length F)%nat).
      { unfold F. rewrite Hf, length_map, Hdf, group_of_app, length_app.
        rewrite group_of_cons.
        assert (Er : eqb (key a) (key a) = true) by now apply eqb_eq.
        rewrite Er. cbn [length]. fold n. lia. }
      rewrite (@skipn_nth_cons n F Hn).
      cbn [combine map fst snd]. rewrite get_set. f_equal.
      replace (n + 1)%nat with (S n) in IH by lia. exact IH.
    + rewrite Nat.add_0_r in IH. exact IH.
Qed.

Lemma groupby_transform_group (col : A -> Q) (f : list Q -> list Q)
      (g : A -> Q -> Q) (k : K) (df : list A) :
  (forall l, length (f l) = length l) ->
  map get
      (group_of eqb key k
         (map (fun p => set (g (fst p) (snd p)) (fst p))
              (combine df (groupby_transform eqb key col f df))))
  = map (fun p => g (fst p) (snd p))
        (combine (group_of eqb key k df)
                 (f (map col (group_of eqb key k df)))).
Proof.
  intros Hf. unfold groupby_transform.
  rewrite (@transform_rows_group col f g k df Hf df [] eq_refl).
  reflexivity.
Qed.
End GroupFacts.

Lemma map_combine_snd (A B C : Type) (h : B -> C) (l : list A) (l' : list B) :
  length l' = length l ->
  map (fun p => h (snd p)) (combine l l') = map h l'.
Proof.
  revert l'. induction l as [|a l IH]; intros [|b l'] H; simpl in *;
    try reflexivity; try discriminate.
  f_equal. apply IH. now injection H.
Qed.

Lemma assign_map (A : Type) (set : Q -> A -> A) (h : Q -> Q)
      (df : list A) (col : list Q) :
  assign set df (map h col)
  = map (fun p => set (h (snd p)) (fst p)) (combine df col).
Proof.
  unfold assign. revert col.
  induction df as [|a df IH]; intros [|c col]; simpl; try reflexivity.
  f_equal. apply IH.
Qed.

Lemma assign_id (A : Type) (set : Q -> A -> A) (df : list A) (col : list Q) :
  assign set df col
  = map (fun p => set ((fun (_ : A) (t : Q) => t) (fst p) (snd p)) (fst p))
        (combine df col).
Proof. reflexivity. Qed.

Lemma Forall_assign (A : Type) (P : A -> Prop) (set : Q -> A -> A)
      (df : list A) (col : list Q) :
  (forall v a, P a -> P (set v a)) ->
  Forall P df -> Forall P (assign set df col).
Proof.
  intros Hset H. revert col. unfold assign.
  induction H as [|a df Ha H IH]; intros [|c col]; simpl;
    try constructor; auto.
Qed.

Lemma map_assign_other (A B : Type) (e : A -> B) (set : Q -> A -> A)
      (df : list A) (col : list Q) :
  (forall v a, e (set v a) = e a) ->
  length col = length df ->
  map e (assign set df col) = map e df.
Proof.
  intros He. unfold assign. revert col.
  induction df as [|a df IH]; intros [|c col] H; simpl in *;
    try reflexivity; try discriminate.
  rewrite He. f_equal. apply IH. now injection H.
Qed.

Lemma Forall_erase_perm (A B : Type) (P : A -> Prop) (P' : B -> Prop)
      (e : A -> B) (l l' : list A) :
  (forall a, P a <-> P' (e a)) ->
  Permutation (map e l) (map e l') ->
  Forall P l' -> Forall P l.
Proof.
  intros HP Hperm H.
  assert (H' : Forall P' (map e l')).
  { apply Forall_map. eapply Forall_impl; [|exact H].
    intros a. apply HP. }
  apply (Permutation_Forall (Permutation_sym Hperm)) in H'.
  apply (proj1 (Forall_map e P' l)) in H'.
  eapply Forall_impl; [|exact H'].
  intros a. apply HP.
Qed.

Lemma Forall2_map_cols (A : Type) (R : Q -> Q -> Prop) (f g : A -> Q)
      (l : list A) :
  Forall2 R (map f l) (map g l) -> Forall (fun a => R (f a) (g a)) l.
Proof.
  induction l as [|a l IH]; simpl; intros H.
  - constructor.
  - inversion H; subst. constructor; auto.
Qed.

Lemma StronglySorted_map_rel (A B : Type) (R : A -> A -> Prop)
      (R' : B -> B -> Prop) (f : A -> B) (l : list A) :
  (forall a b, In a l -> In b l -> R a b -> R' (f a) (f b)) ->
  StronglySorted R l -> StronglySorted R' (map f l).
Proof.
  intros HR H. induction H as [|a l Hs IH Ha]; simpl.
  - constructor.
  - constructor.
    + apply IH. intros x y Hx Hy. apply HR; now right.
    + apply Forall_map. rewrite Forall_forall in *. intros b Hb.
      apply HR; [now left|now right|now apply Ha].
Qed.

Lemma Forall_groups (A K : Type) (eqb : K -> K -> bool) (key : A -> K)
      (P : A -> Prop) (df : list A) :
  (forall x y, eqb x y = true <-> x = y) ->
  (forall k, Forall P (group_of eqb key k df)) -> Forall P df.
Proof.
  intros Heq H. apply Forall_forall. intros a Ha.
  specialize (H (key a)). rewrite Forall_forall in H. apply H.
  apply group_of_In; auto.
Qed.

Lemma assign_plus (A : Type) (set : Q -> A -> A) (c : A -> Q)
      (df : list A) (col : list Q) :
  assign set df (map (fun p => fst p + snd p) (combine (map c df) col))
  = map (fun p => set ((fun a t => c a + t) (fst p) (snd p)) (fst p))
        (combine df col).
Proof.
  unfold assign. revert col.
  induction df as [|a df IH]; intros [|t col]; simpl; try reflexivity.
  f_equal. apply IH.
Qed.

Lemma map_combine_const (A : Type) (c : A -> Q) (c0 : Q)
      (l : list A) (l' : list Q) :
  Forall (fun a => c a = c0) l ->
  length l' = length l ->
  map (fun p => c (fst p) + snd p) (combine l l') = map (Qplus c0) l'.
Proof.
  intros H. revert l'.
  induction H as [|a l Ha H IH]; intros [|t l'] Hlen; simpl in *;
    try reflexivity; try discriminate.
  rewrite Ha. f_equal. apply IH. now injection Hlen.
Qed.

Lemma Forall_map_row (A : Type) (P : A -> Prop) (h : A -> A) (l : list A) :
  (forall a, P a -> P (h a)) -> Forall P l -> Forall P (map h l).
Proof.
  intros Hh H. apply Forall_map. eapply Forall_impl; [|exact H]. exact Hh.
Qed.

Lemma unique_In (K : Type) (eqb : K -> K -> bool) (x : K) (l : list K) :
  (forall a b, eqb a b = true <-> a = b) ->
  In x (unique eqb l) <-> In x l.
Proof.
  intros Heq. induction l as [|k l IH]; simpl.
  - reflexivity.
  - rewrite filter_In, IH. split.
    + intros [H|[H _]]; auto.
    + intros [H|H]; auto.
      destruct (eqb x k) eqn:E.
      * apply Heq in E. left. congruence.
      * right. split; [exact H|reflexivity].
Qed.

Lemma sort_values_In (A : Type) (le : A -> A -> bool) (x : A) (l : list A) :
  In x (sort_values le l) <-> In x l.
Proof.
  split; apply Permutation_in.
  - apply sort_values_perm.
  - apply Permutation_sym, sort_values_perm.
Qed.

Lemma unique_incl (K : Type) (eqb : K -> K -> bool) (x : K) (l : list K) :
  In x (unique eqb l) -> In x l.
Proof.
  induction l as [|k l IH]; simpl.
  - tauto.
  - intros [H|H]; [now left|].
    apply filter_In in H. right. apply IH. tauto.
Qed.

End PandasFacts.

(** * Facts on the shortfall curve of [update_prm] *)

Module UpdatePrmFacts.
Import Pandas PandasFacts UpdatePrm.

Lemma compare_lt_trans (x y z : string) :
  String.compare x y = Lt -> String.compare y z = Lt ->
  String.compare x z = Lt.
Proof.
  intros H1 H2.
  apply String_as_OT.cmp_lt in H1. apply String_as_OT.cmp_lt in H2.
  apply String_as_OT.cmp_lt. eapply String_as_OT.lt_trans; eassumption.
Qed.

Lemma compare_gt_lt (x y : string) :
  String.compare x y = Gt -> String.compare y x = Lt.
Proof.
  intros H. rewrite String.compare_antisym, H. reflexivity.
Qed.

Lemma row_leb_total (a b : plf_row) :
  row_leb a b = false -> row_leb b a = true.
Proof.
  unfold row_leb. rewrite (String.compare_antisym (r a) (r b)).
  destruct (String.compare (r b) (r a)); simpl; try easy.
  intros H.
  apply Qle_bool_iff. apply Qlt_le_weak. apply Qnot_le_lt.
  intros Hle. apply Qle_bool_iff in Hle. congruence.
Qed.

Lemma row_leb_trans (a b c : plf_row) :
  row_leb a b = true -> row_leb b c = true -> row_leb a c = true.
Proof.
  unfold row_leb.
  destruct (String.compare (r a) (r b)) eqn:Eab; try easy;
    destruct (String.compare (r b) (r c)) eqn:Ebc; try easy; intros H1 H2.
  - apply String.compare_eq_iff in Eab. apply String.compare_eq_iff in Ebc.
    rewrite Eab, Ebc.
    assert (E : String.compare (r c) (r c) = Eq)
      by now apply String_as_OT.cmp_eq.
    rewrite E. apply Qle_bool_iff.
    apply Qle_bool_iff in H1. apply Qle_bool_iff in H2.
    eapply Qle_trans; eassumption.
  - apply String.compare_eq_iff in Eab. rewrite Eab, Ebc. reflexivity.
  - apply String.compare_eq_iff in Ebc. rewrite <- Ebc, Eab. reflexivity.
  - rewrite (compare_lt_trans _ _ _ Eab Ebc). reflexivity.
Qed.

Lemma row_geb_total (a b : plf_row) :
  row_geb a b = false -> row_geb b a = true.
Proof. unfold row_geb. apply row_leb_total. Qed.

Lemma row_geb_trans (a b c : plf_row) :
  row_geb a b = true -> row_geb b c = true -> row_geb a c = true.
Proof. unfold row_geb. intros H1 H2. eapply row_leb_trans; eassumption. Qed.

Lemma row_leb_same_r (a b : plf_row) :
  r a = r b -> row_leb a b = true -> net_short_mwh a <= net_short_mwh b.
Proof.
  unfold row_leb. intros E.
  assert (C : String.compare (r a) (r b) = Eq)
    by now apply String_as_OT.cmp_eq.
  rewrite C. apply Qle_bool_iff.
Qed.

(** ** Arithmetic on sample counts *)

Lemma Qn_S (m : nat) : Qn (S m) == Qn m + 1.
Proof.
  unfold Qn. rewrite Nat2Z.inj_succ. unfold Z.succ.
  rewrite inject_Z_plus. reflexivity.
Qed.

Lemma Qn_le (k m : nat) : (k <= m)%nat -> Qn k <= Qn m.
Proof.
  intros H. unfold Qn. rewrite <- Zle_Qle. lia.
Qed.

Lemma Qn_nonneg (m : nat) : 0 <= Qn m.
Proof. apply (Qn_le (k := 0)). lia. Qed.

Lemma Qn_pos (m : nat) : (0 < m)%nat -> 0 < Qn m.
Proof.
  intros H. unfold Qn. change 0 with (inject_Z 0). rewrite <- Zlt_Qlt. lia.
Qed.

Lemma slope_ok_nonpos (n : nat) (vs : list Q) (s x : Q) :
  slope_ok n vs s x -> s <= 0.
Proof.
  intros (k & Hs & _). rewrite Hs. unfold Qdiv.
  assert (H1 : 0 <= Qn k) by apply Qn_nonneg.
  assert (H2 : 0 <= / Qn n) by (apply Qinv_le_0_compat, Qn_nonneg).
  assert (H3 : 0 <= Qn k * / Qn n) by now apply Qmult_le_0_compat.
  lra.
Qed.

Lemma slope_ok_scaled (n : nat) (vs : list Q) (s x : Q) :
  (0 < n)%nat -> slope_ok n vs s x ->
  exists k : nat, - Qn n * s == Qn k /\ (k <= count_ge x vs)%nat.
Proof.
  intros Hn (k & Hs & Hk). exists k. split; [|exact Hk].
  rewrite Hs. field.
  apply Qn_pos in Hn. lra.
Qed.

(** ** The columns of one group *)

Lemma count_ge_app (x : Q) (l l' : list Q) :
  count_ge x (l ++ l') = (count_ge x l + count_ge x l')%nat.
Proof. unfold count_ge. now rewrite filter_app, length_app. Qed.

Lemma count_ge_le_length (x : Q) (l : list Q) :
  (count_ge x l <= length l)%nat.
Proof. unfold count_ge. apply filter_length_le. Qed.

Lemma count_ge_all (x : Q) (l : list Q) :
  Forall (fun y => x <= y) l -> count_ge x l = length l.
Proof.
  unfold count_ge. induction 1 as [|y l Hy Hl IH]; simpl.
  - reflexivity.
  - apply Qle_bool_iff in Hy. rewrite Hy. simpl. now rewrite IH.
Qed.

Lemma count_ge_none (x : Q) (l : list Q) :
  Forall (fun y => y < x) l -> count_ge x l = 0%nat.
Proof.
  unfold count_ge. induction 1 as [|y l Hy Hl IH]; simpl.
  - reflexivity.
  - destruct (Qle_bool x y) eqn:E; [|exact IH].
    apply Qle_bool_iff in E. lra.
Qed.

Lemma count_ge_perm (x : Q) (l l' : list Q) :
  Permutation l l' -> count_ge x l = count_ge x l'.
Proof.
  intros H. unfold count_ge.
  apply Permutation_length. now apply Permutation_filter.
Qed.

(** In descending order the running count of a row counts only rows whose
    shortfall is at least its own. *)
Lemma desc_slopes_ok (n : nat) (vs : list Q) :
  forall (pre : list Q) (acc : Q),
    acc == - Qn (length pre) ->
    StronglySorted (fun x y => y <= x) (pre ++ vs) ->
    Forall2 (slope_ok n (pre ++ vs))
            (map (fun v => v / Qn n)
                 (cumsum_from acc (map (fun _ => -1) vs)))
            vs.
Proof.
  induction vs as [|v vs IH]; intros pre acc Hacc Hs; simpl.
  - constructor.
  - constructor.
    + exists (S (length pre)). split.
      * rewrite Hacc, Qn_S. unfold Qdiv. ring.
      * rewrite count_ge_app.
        assert (Hpre : count_ge v pre = length pre).
        { apply count_ge_all. clear -Hs.
          induction pre as [|p pre IHp]; simpl in *.
          - constructor.
          - inversion Hs as [|? ? Hs' Hp]; subst. constructor.
            + rewrite Forall_forall in Hp. apply Hp.
              apply in_or_app. right. now left.
            + now apply IHp. }
        rewrite Hpre. unfold count_ge. simpl.
        assert (Hv : Qle_bool v v = true) by (apply Qle_bool_iff; lra).
        rewrite Hv. simpl. lia.
    + replace (pre ++ v :: vs) with ((pre ++ [v]) ++ vs)
        by (rewrite <- app_assoc; reflexivity).
      apply IH.
      * rewrite length_app. simpl. rewrite Nat.add_1_r, Qn_S, Hacc. ring.
      * rewrite <- app_assoc. exact Hs.
Qed.

Lemma segment_drops_nonpos (n : nat) (all : list Q) :
  forall (sl vs : list Q) (prev : Q),
    Forall2 (slope_ok n all) sl vs ->
    StronglySorted Qle vs ->
    Forall (fun v => prev <= v) vs ->
    Forall (fun d => d <= 0) (segment_drops prev sl vs).
Proof.
  intros sl vs prev H. revert prev.
  induction H as [|s v sl vs Hs H IH]; intros prev Hsort Hprev; simpl.
  - constructor.
  - inversion Hsort as [|? ? Hsort' Hv]; subst.
    inversion Hprev as [|? ? Hpv _]; subst.
    constructor.
    + apply slope_ok_nonpos in Hs. nra.
    + now apply IH.
Qed.

(** What the segments take away is at most the total shortfall: when the
    shortfall rises at a row, the rows counted by its slope are rows not yet
    passed. *)
Lemma segment_drops_bound (n : nat) :
  (0 < n)%nat ->
  forall (sl vs pre : list Q) (prev : Q),
    Forall2 (slope_ok n (pre ++ vs)) sl vs ->
    Forall (fun v => v <= prev) pre ->
    StronglySorted Qle vs ->
    Forall (fun v => prev <= v) vs ->
    - Qn n * Qsum (segment_drops prev sl vs)
    <= Qsum vs - Qn (length vs) * prev.
Proof.
  intros Hn sl vs. revert sl.
  induction vs as [|v vs IH]; intros sl pre prev H Hpre Hsort Hprev.
  - inversion H; subst. simpl. change (Qn 0) with 0. lra.
  - inversion H as [|s ? sl' ? Hs H']; subst.
    inversion Hsort as [|? ? Hsort' Hv]; subst.
    inversion Hprev as [|? ? Hpv _]; subst.
    cbn [segment_drops Qsum fold_right length].
    fold (Qsum (segment_drops v sl' vs)). fold (Qsum vs).
    assert (IH' : - Qn n * Qsum (segment_drops v sl' vs)
                  <= Qsum vs - Qn (length vs) * v).
    { apply (IH sl' (pre ++ [v]) v).
      - rewrite <- app_assoc. exact H'.
      - apply Forall_app. split.
        + eapply Forall_impl; [|exact Hpre]. intros y Hy. simpl in Hy. lra.
        + constructor; [lra|constructor].
      - exact Hsort'.
      - exact Hv. }
    destruct (slope_ok_scaled Hn Hs) as (k & Hk & Hcount).
    assert (Hstep : Qn k * (v - prev) <= Qn (S (length vs)) * (v - prev)).
    { destruct (Qlt_le_dec prev v) as [Hlt|Hge].
      - apply Qmult_le_compat_r; [|lra].
        apply Qn_le.
        rewrite count_ge_app in Hcount.
        rewrite count_ge_none in Hcount.
        + pose proof (count_ge_le_length v (v :: vs)) as Hl.
          simpl in Hl. simpl in Hcount. lia.
        + eapply Forall_impl; [|exact Hpre]. intros y Hy. simpl in Hy. lra.
      - assert (E : v - prev == 0) by lra.
        rewrite E. lra. }
    rewrite Qn_S in *.
    assert (Hk' : - Qn n * (s * (v - prev)) == Qn k * (v - prev))
      by (rewrite <- Hk; ring).
    nra.
Qed.

(** The breakpoints [y1] followed by the closing 0 never go up. *)
Lemma breakpoints_descend (I : Q) (D : list Q) :
  forall acc : Q,
    Forall (fun d => d <= 0) D ->
    0 <= I + acc + Qsum D ->
    Sorted (fun y y' => y' <= y)
           (map (Qplus I) (shift_down acc (cumsum_from acc D)) ++ [0]).
Proof.
  induction D as [|d D IH]; intros acc HD Hsum.
  - simpl. constructor; constructor.
  - inversion HD as [|? ? Hd HD']; subst.
    cbn [cumsum_from]. rewrite shift_down_cons. cbn [map app].
    simpl in Hsum. fold (Qsum D) in Hsum.
    assert (HDs : Qsum D <= 0).
    { clear -HD'. induction HD' as [|x l Hx Hl IHl]; simpl; [lra|].
      fold (Qsum l). lra. }
    constructor.
    + apply IH; [exact HD'|lra].
    + destruct D as [|d' D]; simpl.
      * constructor. simpl in Hsum. lra.
      * constructor. lra.
Qed.

Lemma shift_up_descends (Y : list Q) :
  Sorted (fun y y' => y' <= y) (Y ++ [0]) ->
  Forall2 Qle (shift_up 0 Y) Y.
Proof.
  destruct Y as [|y Y]; simpl.
  - constructor.
  - revert y. induction Y as [|y' Y IH]; intros y H; simpl in *.
    + inversion H as [|? ? _ Hd]; subst. inversion Hd; subst.
      constructor; [assumption|constructor].
    + inversion H as [|? ? Hs Hd]; subst. inversion Hd; subst.
      constructor; [assumption|]. now apply IH.
Qed.

(** ** The table, stage by stage *)

Abbreviation rows_of := (group_of String.eqb r).

Lemma plfs_positive_pos (crit : list plf_row) :
  Forall (fun a => 0 < net_short_mwh a) (plfs_positive crit).
Proof.
  apply Forall_forall. intros a Ha.
  apply filter_In in Ha. destruct Ha as [_ Ha].
  apply negb_true_iff in Ha.
  apply Qnot_le_lt. intros Hle. apply Qle_bool_iff in Hle. congruence.
Qed.

Lemma intercept_column_length (n : nat) (df : list plf_row) :
  length (map (fun v => v / Qn n)
              (groupby_transform String.eqb r net_short_mwh broadcast_sum df))
  = length df.
Proof. now rewrite length_map, groupby_transform_length. Qed.

Lemma plfs_intercept_shortfall (n : nat) (k : string) (df : list plf_row) :
  map net_short_mwh (rows_of k (plfs_intercept n df))
  = map net_short_mwh (rows_of k df).
Proof.
  unfold plfs_intercept.
  apply assign_other; auto using intercept_column_length.
Qed.

Lemma plfs_intercept_pos (n : nat) (df : list plf_row) :
  Forall (fun a => 0 < net_short_mwh a) df ->
  Forall (fun a => 0 < net_short_mwh a) (plfs_intercept n df).
Proof. unfold plfs_intercept. apply Forall_assign. auto. Qed.

(** Every row carries the mean shortfall of its region over all samples. *)
Lemma plfs_intercept_value (n : nat) (df : list plf_row) :
  Forall (fun a =>
            intercept a = Qsum (map net_short_mwh (rows_of (r a) df)) / Qn n)
         (plfs_intercept n df).
Proof.
  apply (Forall_groups String.eqb r); [apply String.eqb_eq|].
  intros k.
  assert (Hk : Forall (fun a => r a = k) (rows_of k (plfs_intercept n df))).
  { apply Forall_forall. intros a Ha.
    apply (group_of_In String.eqb r String.eqb_eq) in Ha. tauto. }
  assert (Hc : Forall (fun x => x = Qsum (map net_short_mwh (rows_of k df))
                                    / Qn n)
                      (map intercept (rows_of k (plfs_intercept n df)))).
  { unfold plfs_intercept. rewrite assign_map.
    rewrite (groupby_transform_group String.eqb r String.eqb_eq
               set_intercept (fun _ _ => eq_refl)
               intercept (fun _ _ => eq_refl)
               net_short_mwh broadcast_sum (fun _ t => t / Qn n) k df
               broadcast_sum_length).
    apply Forall_forall. intros x Hx.
    apply in_map_iff in Hx. destruct Hx as ([a t] & Hx & Hin).
    apply in_combine_r in Hin. unfold broadcast_sum in Hin.
    apply repeat_spec in Hin. simpl in Hx. now subst. }
  apply (proj1 (Forall_map _ _ _)) in Hc.
  apply Forall_forall. intros a Ha.
  rewrite Forall_forall in Hk, Hc.
  rewrite (Hk a Ha). now apply Hc.
Qed.

Lemma slope_column_length (n : nat) (df : list plf_row) :
  length (map (fun v => v / Qn n)
              (groupby_transform String.eqb r slope cumsum df))
  = length df.
Proof. now rewrite length_map, groupby_transform_length. Qed.

Lemma plfs_slope_perm (n : nat) (df : list plf_row) :
  Permutation (map erase_slope (plfs_slope n df)) (map erase_slope df).
Proof.
  unfold plfs_slope. cbv zeta.
  eapply perm_trans.
  { apply Permutation_map. apply sort_values_perm. }
  rewrite map_assign_other; auto using slope_column_length.
  rewrite map_map. simpl.
  change (fun x => erase_slope (set_slope (-1) x)) with erase_slope.
  apply Permutation_map. apply sort_values_perm.
Qed.

Lemma plfs_slope_sorted (n : nat) (df : list plf_row) :
  StronglySorted (fun a b => row_leb a b = true) (plfs_slope n df).
Proof.
  unfold plfs_slope. cbv zeta.
  apply sort_values_sorted; [apply row_leb_total | apply row_leb_trans].
Qed.

Lemma rows_of_erase (k : string) (df : list plf_row) :
  map net_short_mwh (rows_of k (map erase_slope df))
  = map net_short_mwh (rows_of k df).
Proof.
  rewrite (group_of_map String.eqb r k erase_slope df) by reflexivity.
  rewrite map_map. reflexivity.
Qed.

Lemma rows_of_shortfall_perm (k : string) (df df' : list plf_row) :
  Permutation (map erase_slope df) (map erase_slope df') ->
  Permutation (map net_short_mwh (rows_of k df))
              (map net_short_mwh (rows_of k df')).
Proof.
  intros H. rewrite <- (rows_of_erase k df), <- (rows_of_erase k df').
  apply Permutation_map. unfold group_of. now apply Permutation_filter.
Qed.

Lemma rows_of_key (k : string) (df : list plf_row) :
  Forall (fun a => r a = k) (rows_of k df).
Proof.
  apply Forall_forall. intros a Ha.
  apply (group_of_In String.eqb r String.eqb_eq) in Ha. tauto.
Qed.

Lemma rows_of_sorted_desc (k : string) (df : list plf_row) :
  StronglySorted (fun a b => row_geb a b = true) df ->
  StronglySorted (fun x y => y <= x) (map net_short_mwh (rows_of k df)).
Proof.
  intros H.
  apply StronglySorted_map_rel
    with (R := fun a b => row_geb a b = true).
  - intros a b Ha Hb Hab.
    pose proof (rows_of_key k df) as Hk. rewrite Forall_forall in Hk.
    apply row_leb_same_r; [|exact Hab].
    now rewrite (Hk a Ha), (Hk b Hb).
  - unfold group_of. now apply StronglySorted_filter.
Qed.

Lemma rows_of_sorted_asc (k : string) (df : list plf_row) :
  StronglySorted (fun a b => row_leb a b = true) df ->
  StronglySorted Qle (map net_short_mwh (rows_of k df)).
Proof.
  intros H.
  apply StronglySorted_map_rel
    with (R := fun a b => row_leb a b = true).
  - intros a b Ha Hb Hab.
    pose proof (rows_of_key k df) as Hk. rewrite Forall_forall in Hk.
    apply row_leb_same_r; [|exact Hab].
    now rewrite (Hk a Ha), (Hk b Hb).
  - unfold group_of. now apply StronglySorted_filter.
Qed.

Lemma slope_ok_perm (n : nat) (vs vs' : list Q) (s x : Q) :
  Permutation vs vs' -> slope_ok n vs s x -> slope_ok n vs' s x.
Proof.
  intros Hp (k & Hs & Hk). exists k. split; [exact Hs|].
  now rewrite <- (count_ge_perm x Hp).
Qed.

(** The slope of a row counts only samples of its region whose shortfall is
    at least its own. *)
Lemma plfs_slope_ok (n : nat) (df : list plf_row) :
  Forall (fun a =>
            slope_ok n (map net_short_mwh (rows_of (r a) (plfs_slope n df)))
                     (slope a) (net_short_mwh a))
         (plfs_slope n df).
Proof.
  pose proof (plfs_slope_perm n df) as Hperm.
  unfold plfs_slope in *. cbv zeta in *.
  set (D := sort_values row_geb df) in *.
  set (D2 := map (set_slope (-1)) D) in *.
  set (col := map (fun v => v / Qn n)
                  (groupby_transform String.eqb r slope cumsum D2)) in *.
  set (D3 := assign set_slope D2 col) in *.
  assert (HD3 : Forall (fun a =>
                          slope_ok n (map net_short_mwh (rows_of (r a) D3))
                                   (slope a) (net_short_mwh a)) D3).
  { apply (Forall_groups String.eqb r); [apply String.eqb_eq|].
    intros k.
    assert (Hv : map net_short_mwh (rows_of k D3)
                 = map net_short_mwh (rows_of k D)).
    { unfold D3. rewrite assign_other;
        [|reflexivity|reflexivity|apply slope_column_length].
      unfold D2. rewrite group_of_map by reflexivity.
      rewrite map_map. reflexivity. }
    assert (Hs : map slope (rows_of k D3)
                 = map (fun v => v / Qn n)
                       (cumsum_from 0 (map (fun _ => -1)
                                           (map net_short_mwh (rows_of k D))))).
    { unfold D3, col. rewrite assign_map.
      rewrite (groupby_transform_group String.eqb r String.eqb_eq
                 set_slope (fun _ _ => eq_refl) slope (fun _ _ => eq_refl)
                 slope cumsum (fun _ t => t / Qn n) k D2
                 (cumsum_from_length 0)).
      rewrite (map_combine_snd (fun t => t / Qn n)).
      - unfold D2. rewrite group_of_map by reflexivity.
        rewrite !map_map. reflexivity.
      - unfold cumsum. now rewrite cumsum_from_length, length_map. }
    assert (Hok : Forall2 (slope_ok n (map net_short_mwh (rows_of k D3)))
                          (map slope (rows_of k D3))
                          (map net_short_mwh (rows_of k D3))).
    { rewrite Hs, Hv.
      apply (desc_slopes_ok n (map net_short_mwh (rows_of k D)) []).
      - reflexivity.
      - apply rows_of_sorted_desc. unfold D.
        apply sort_values_sorted;
          [apply row_geb_total | apply row_geb_trans]. }
    apply Forall2_map_cols in Hok.
    pose proof (rows_of_key k D3) as Hk.
    rewrite Forall_forall in *. intros a Ha.
    rewrite (Hk a Ha). now apply Hok. }
  assert (Hp : Permutation (sort_values row_leb D3) D3)
    by apply sort_values_perm.
  apply (Permutation_Forall (Permutation_sym Hp)).
  eapply Forall_impl; [|exact HD3].
  intros a Ha. simpl in Ha.
  eapply slope_ok_perm; [|exact Ha].
  apply rows_of_shortfall_perm.
  apply Permutation_map. now apply Permutation_sym.
Qed.

(** ** The columns of a group after every stage *)

Lemma plfs_x_columns (k : string) (df : list plf_row) :
  map x1 (rows_of k (plfs_x df))
  = shift_down 0 (map net_short_mwh (rows_of k df))
  /\ map x2 (rows_of k (plfs_x df)) = map net_short_mwh (rows_of k df)
  /\ map slope (rows_of k (plfs_x df)) = map slope (rows_of k df).
Proof.
  unfold plfs_x. cbv zeta.
  rewrite group_of_map by reflexivity. rewrite !map_map. simpl.
  repeat split.
  - change (fun x => x1 x) with x1.
    rewrite assign_id.
    rewrite (groupby_transform_group String.eqb r String.eqb_eq
               set_x1 (fun _ _ => eq_refl) x1 (fun _ _ => eq_refl)
               net_short_mwh (shift_down 0) (fun _ t => t) k df
               (shift_down_length 0)).
    rewrite (map_combine_snd (fun t => t)).
    + apply map_id.
    + now rewrite shift_down_length, length_map.
  - apply assign_other; try reflexivity.
    apply groupby_transform_length.
  - apply assign_other; try reflexivity.
    apply groupby_transform_length.
Qed.

Lemma drops_of_columns (L : list plf_row) :
  forall (sl vs : list Q) (prev : Q),
    map slope L = sl -> map x2 L = vs -> map x1 L = shift_down prev vs ->
    map (fun a => slope a * (x2 a - x1 a)) L = segment_drops prev sl vs.
Proof.
  induction L as [|a L IH]; intros sl vs prev Hs Hv Hx; simpl in *.
  - subst. reflexivity.
  - subst sl vs. rewrite shift_down_cons in Hx.
    injection Hx as Hx1 Hx. simpl. rewrite Hx1. f_equal.
    now apply IH.
Qed.

Lemma plfs_Dy_column (k : string) (df : list plf_row) :
  map Dy (rows_of k (plfs_Dy (plfs_x df)))
  = segment_drops 0 (map slope (rows_of k df))
                  (map net_short_mwh (rows_of k df)).
Proof.
  destruct (plfs_x_columns k df) as (Hx1 & Hx2 & Hs).
  unfold plfs_Dy. rewrite group_of_map by reflexivity.
  rewrite map_map. simpl.
  now apply drops_of_columns.
Qed.

Lemma y1_column_length (df : list plf_row) :
  length (map (fun p => fst p + snd p)
              (combine (map intercept df)
                       (groupby_transform String.eqb r Dy
                          (fun x => shift_down 0 (cumsum x)) df)))
  = length df.
Proof.
  rewrite length_map, length_combine, length_map, groupby_transform_length.
  apply Nat.min_id.
Qed.

Lemma plfs_y_columns (k : string) (c0 : Q) (df : list plf_row) :
  Forall (fun a => intercept a = c0) (rows_of k df) ->
  let Y := map (Qplus c0)
               (shift_down 0 (cumsum_from 0 (map Dy (rows_of k df)))) in
  map y1 (rows_of k (plfs_y df)) = Y
  /\ map y2 (rows_of k (plfs_y df)) = shift_up 0 Y.
Proof.
  intros Hc Y. unfold plfs_y. cbv zeta.
  set (df1 := assign set_y1 df _).
  assert (H1 : map y1 (rows_of k df1) = Y).
  { unfold df1. rewrite assign_plus.
    rewrite (groupby_transform_group String.eqb r String.eqb_eq
               set_y1 (fun _ _ => eq_refl) y1 (fun _ _ => eq_refl)
               Dy (fun x => shift_down 0 (cumsum x))
               (fun a t => intercept a + t) k df).
    - apply map_combine_const; [exact Hc|].
      unfold cumsum.
      now rewrite shift_down_length, cumsum_from_length, length_map.
    - intros l. unfold cumsum.
      now rewrite shift_down_length, cumsum_from_length. }
  split.
  - rewrite assign_other; [exact H1|reflexivity|reflexivity|].
    apply groupby_transform_length.
  - rewrite assign_id.
    rewrite (groupby_transform_group String.eqb r String.eqb_eq
               set_y2 (fun _ _ => eq_refl) y2 (fun _ _ => eq_refl)
               y1 (shift_up 0) (fun _ t => t) k df1 (shift_up_length 0)).
    rewrite (map_combine_snd (fun t => t)).
    + rewrite map_id. now rewrite H1.
    + now rewrite shift_up_length, length_map.
Qed.

Lemma plfs_x_preserves (P : plf_row -> Prop) (df : list plf_row) :
  (forall v a, P a -> P (set_x1 v a)) ->
  (forall v a, P a -> P (set_x2 v a)) ->
  Forall P df -> Forall P (plfs_x df).
Proof.
  intros H1 H2 H. unfold plfs_x. cbv zeta.
  apply Forall_map_row; [intros a; apply H2|].
  now apply Forall_assign.
Qed.

Lemma plfs_Dy_preserves (P : plf_row -> Prop) (df : list plf_row) :
  (forall v a, P a -> P (set_Dy v a)) ->
  Forall P df -> Forall P (plfs_Dy df).
Proof.
  intros H1 H. unfold plfs_Dy. apply Forall_map_row; [intros a; apply H1|].
  exact H.
Qed.

Lemma plfs_y_preserves (P : plf_row -> Prop) (df : list plf_row) :
  (forall v a, P a -> P (set_y1 v a)) ->
  (forall v a, P a -> P (set_y2 v a)) ->
  Forall P df -> Forall P (plfs_y df).
Proof.
  intros H1 H2 H. unfold plfs_y. cbv zeta.
  apply Forall_assign; [exact H2|]. now apply Forall_assign.
Qed.

Lemma plfs_Dy_defined (df : list plf_row) :
  Forall (fun a => Dy a = slope a * (x2 a - x1 a)) (plfs_Dy df).
Proof.
  unfold plfs_Dy. apply Forall_map. apply Forall_forall.
  intros a _. reflexivity.
Qed.

(** ** The curve on a table sorted by region and shortfall *)

Section SortedTable.
Variable n : nat.
Variable tbl : list plf_row.
Variable Ik : string -> Q.

Hypothesis n_pos : (0 < n)%nat.
Hypothesis tbl_sorted : StronglySorted (fun a b => row_leb a b = true) tbl.
Hypothesis tbl_pos : Forall (fun a => 0 < net_short_mwh a) tbl.
Hypothesis tbl_intercept : Forall (fun a => intercept a = Ik (r a)) tbl.
Hypothesis Ik_mean :
  forall k, Ik k * Qn n == Qsum (map net_short_mwh (rows_of k tbl)).
Hypothesis tbl_slope :
  Forall (fun a =>
            slope_ok n (map net_short_mwh (rows_of (r a) tbl))
                     (slope a) (net_short_mwh a)) tbl.

Local Abbreviation V k := (map net_short_mwh (rows_of k tbl)).
Local Abbreviation SL k := (map slope (rows_of k tbl)).

Lemma group_slopes_ok (k : string) :
  Forall2 (slope_ok n (V k)) (SL k) (V k).
Proof.
  assert (H : Forall (fun a => slope_ok n (map net_short_mwh (rows_of k tbl))
                                        (slope a) (net_short_mwh a))
                     (rows_of k tbl)).
  { apply Forall_forall. intros a Ha.
    pose proof (rows_of_key k tbl) as Hk. rewrite Forall_forall in Hk.
    rewrite <- (Hk a Ha).
    rewrite Forall_forall in tbl_slope. apply tbl_slope.
    apply (group_of_In String.eqb r String.eqb_eq) in Ha. tauto. }
  revert H. generalize (slope_ok n (map net_short_mwh (rows_of k tbl))).
  intros R H. induction H as [|a l Ha H IH]; simpl; constructor; auto.
Qed.

Lemma group_sorted (k : string) : StronglySorted Qle (V k).
Proof. apply rows_of_sorted_asc. exact tbl_sorted. Qed.

Lemma group_pos (k : string) : Forall (fun v => 0 <= v) (V k).
Proof.
  apply Forall_map. apply Forall_forall. intros a Ha.
  apply (group_of_In String.eqb r String.eqb_eq) in Ha.
  rewrite Forall_forall in tbl_pos. apply Qlt_le_weak. apply tbl_pos. tauto.
Qed.

Lemma group_drops_nonpos (k : string) :
  Forall (fun d => d <= 0) (segment_drops 0 (SL k) (V k)).
Proof.
  apply segment_drops_nonpos with (n := n) (all := V k).
  - apply group_slopes_ok.
  - apply group_sorted.
  - apply group_pos.
Qed.

Lemma group_ends_above_zero (k : string) :
  0 <= Ik k + 0 + Qsum (segment_drops 0 (SL k) (V k)).
Proof.
  pose proof (@segment_drops_bound n n_pos (SL k) (V k) [] 0
                (group_slopes_ok k) (Forall_nil _)
                (group_sorted k) (group_pos k)) as Hb.
  pose proof (Ik_mean k) as Hm.
  pose proof (Qn_pos n_pos) as Hn.
  set (T := Qsum (segment_drops 0 (SL k) (V k))) in *.
  assert (H : 0 <= Qn n * (Ik k + T)) by nra.
  assert (H' : 0 <= Ik k + T).
  { destruct (Qlt_le_dec (Ik k + T) 0) as [Hneg|Hok]; [|exact Hok].
    exfalso. nra. }
  lra.
Qed.

Lemma table_Dy_nonpos :
  Forall (fun a => Dy a <= 0) (plfs_Dy (plfs_x tbl)).
Proof.
  apply (Forall_groups String.eqb r); [apply String.eqb_eq|].
  intros k.
  apply (proj1 (Forall_map Dy (fun d => d <= 0) _)).
  rewrite plfs_Dy_column. apply group_drops_nonpos.
Qed.

Lemma table_slope_nonpos :
  Forall (fun a => slope a <= 0) (plfs_Dy (plfs_x tbl)).
Proof.
  apply plfs_Dy_preserves; [auto|].
  apply plfs_x_preserves; [auto|auto|].
  eapply Forall_impl; [|exact tbl_slope].
  intros a. apply slope_ok_nonpos.
Qed.

Lemma table_intercept :
  Forall (fun a => intercept a = Ik (r a)) (plfs_Dy (plfs_x tbl)).
Proof.
  apply plfs_Dy_preserves; [auto|].
  apply plfs_x_preserves; auto.
Qed.

Lemma table_y_descends :
  Forall (fun a => y2 a <= y1 a) (plfs_y (plfs_Dy (plfs_x tbl))).
Proof.
  apply (Forall_groups String.eqb r); [apply String.eqb_eq|].
  intros k.
  apply Forall2_map_cols with (R := Qle) (f := y2) (g := y1).
  assert (Hc : Forall (fun a => intercept a = Ik k)
                      (rows_of k (plfs_Dy (plfs_x tbl)))).
  { apply Forall_forall. intros a Ha.
    pose proof (rows_of_key k (plfs_Dy (plfs_x tbl))) as Hk.
    rewrite Forall_forall in Hk. rewrite <- (Hk a Ha).
    pose proof table_intercept as Hi. rewrite Forall_forall in Hi.
    apply Hi. apply (group_of_In String.eqb r String.eqb_eq) in Ha. tauto. }
  destruct (@plfs_y_columns k (Ik k) _ Hc) as [H1 H2].
  rewrite H1, H2. rewrite plfs_Dy_column.
  apply shift_up_descends. apply breakpoints_descend.
  - apply group_drops_nonpos.
  - apply group_ends_above_zero.
Qed.

Lemma sorted_table_curve :
  Forall (fun a => slope a <= 0
                   /\ Dy a = slope a * (x2 a - x1 a)
                   /\ Dy a <= 0
                   /\ y2 a <= y1 a)
         (plfs_y (plfs_Dy (plfs_x tbl))).
Proof.
  assert (H1 : Forall (fun a => slope a <= 0) (plfs_y (plfs_Dy (plfs_x tbl))))
    by (apply plfs_y_preserves; auto using table_slope_nonpos).
  assert (H2 : Forall (fun a => Dy a = slope a * (x2 a - x1 a))
                      (plfs_y (plfs_Dy (plfs_x tbl))))
    by (apply plfs_y_preserves; auto using plfs_Dy_defined).
  assert (H3 : Forall (fun a => Dy a <= 0) (plfs_y (plfs_Dy (plfs_x tbl))))
    by (apply plfs_y_preserves; auto using table_Dy_nonpos).
  pose proof table_y_descends as H4.
  rewrite Forall_forall in *. intros a Ha. auto.
Qed.
End SortedTable.

(** ** The table built by [update_prm] *)

Lemma plfs_slope_pos (n : nat) (df : list plf_row) :
  Forall (fun a => 0 < net_short_mwh a) df ->
  Forall (fun a => 0 < net_short_mwh a) (plfs_slope n df).
Proof.
  apply Forall_erase_perm
    with (P' := fun a => 0 < net_short_mwh a) (e := erase_slope).
  - intros a. reflexivity.
  - apply plfs_slope_perm.
Qed.

Lemma plfs_slope_intercept (n : nat) (I : string -> Q) (df : list plf_row) :
  Forall (fun a => intercept a = I (r a)) df ->
  Forall (fun a => intercept a = I (r a)) (plfs_slope n df).
Proof.
  apply Forall_erase_perm
    with (P' := fun a => intercept a = I (r a)) (e := erase_slope).
  - intros a. reflexivity.
  - apply plfs_slope_perm.
Qed.

Lemma region_mean_scaled (n : nat) (k : string) (df : list plf_row) :
  (0 < n)%nat ->
  region_mean n df k * Qn n
  == Qsum (map net_short_mwh
               (rows_of k (plfs_slope n (plfs_intercept n df)))).
Proof.
  intros Hn. unfold region_mean.
  pose proof (plfs_slope_perm n (plfs_intercept n df)) as Hp.
  apply (rows_of_shortfall_perm k) in Hp. apply Qsum_perm in Hp.
  rewrite Hp.
  rewrite plfs_intercept_shortfall.
  field. apply Qn_pos in Hn. lra.
Qed.

Section BuiltTable.
Variable n : nat.
Variable crit : list plf_row.
Hypothesis n_pos : (0 < n)%nat.

Local Abbreviation positive := (plfs_positive crit).
Local Abbreviation sorted_table := (plfs_slope n (plfs_intercept n positive)).

Lemma built_pos : Forall (fun a => 0 < net_short_mwh a) sorted_table.
Proof.
  apply plfs_slope_pos, plfs_intercept_pos, plfs_positive_pos.
Qed.

Lemma built_intercept :
  Forall (fun a => intercept a = region_mean n positive (r a)) sorted_table.
Proof. apply plfs_slope_intercept. apply plfs_intercept_value. Qed.


Lemma plfs_table_curve :
  Forall (fun a => slope a <= 0
                   /\ Dy a = slope a * (x2 a - x1 a)
                   /\ Dy a <= 0
                   /\ y2 a <= y1 a)
         (plfs_y (plfs_table n crit)).
Proof.
  unfold plfs_table.
  apply sorted_table_curve with (n := n) (Ik := region_mean n positive).
  - exact n_pos.
  - apply plfs_slope_sorted.
  - apply built_pos.
  - apply built_intercept.
  - intros k. now apply region_mean_scaled.
  - apply plfs_slope_ok.
Qed.
End BuiltTable.

Lemma no_samples_no_rows (s : ShortfallSamples) :
  samples s = [] -> plfs_upto_Dy s = [].
Proof.
  intros H. unfold plfs_upto_Dy.
  assert (E : net_short_long s = []).
  { unfold net_short_long. rewrite H. simpl.
    induction (enumerate (regions s)) as [|jr l IH]; simpl; auto. }
  rewrite E. reflexivity.
Qed.



End UpdatePrmFacts.

(** * Facts on the stress metric by period *)

Module StressPeriodsFacts.
Import Pandas PandasFacts StressPeriods.

Lemma date_eqb_eq (a b : Date) : date_eqb a b = true <-> a = b.
Proof.
  destruct a as [[y m] d], b as [[y' m'] d']. unfold date_eqb. simpl.
  rewrite !andb_true_iff, !Nat.eqb_eq. split.
  - intros [[-> ->] ->]. reflexivity.
  - intros H. injection H as -> -> ->. auto.
Qed.

Lemma day_keys_In (D : Date) (idx : list Timestamp) :
  In D (day_keys idx) <-> In D (map date_of idx).
Proof.
  unfold day_keys. rewrite sort_values_In.
  apply unique_In. apply date_eqb_eq.
Qed.

Lemma labels_In (C : Type) (nm : string) (cs : list (string * list C)) :
  In nm (labels cs) <-> In nm (map fst cs).
Proof.
  unfold labels. rewrite sort_values_In.
  apply unique_In. apply String.eqb_eq.
Qed.

(** ** Looking a column up *)

Lemma col_lookup_tabulate (C : Type) (F : string -> list C) (nm : string)
      (names : list string) :
  In nm names ->
  col_lookup nm (map (fun n => (n, F n)) names) = Some (F nm).
Proof.
  unfold col_lookup. induction names as [|n names IH]; simpl.
  - tauto.
  - destruct (String.eqb n nm) eqn:E.
    + apply String.eqb_eq in E. subst. reflexivity.
    + intros [H|H].
      * subst. rewrite String.eqb_refl in E. discriminate.
      * now apply IH.
Qed.

Lemma col_lookup_map (C C' : Type) (h : list C -> list C') (nm : string)
      (cs : list (string * list C)) :
  col_lookup nm (map (fun c => (fst c, h (snd c))) cs)
  = option_map h (col_lookup nm cs).
Proof.
  unfold col_lookup. induction cs as [|c cs IH]; simpl.
  - reflexivity.
  - destruct (String.eqb (fst c) nm); [reflexivity|exact IH].
Qed.

Lemma col_lookup_In (C : Type) (nm : string) (cs : list (string * list C))
      (col : list C) :
  col_lookup nm cs = Some col -> In (nm, col) cs.
Proof.
  unfold col_lookup. intros H.
  destruct (find (fun c => String.eqb (fst c) nm) cs) as [c|] eqn:E;
    [|discriminate].
  injection H as <-. apply find_some in E. destruct E as [Hin Hc].
  apply String.eqb_eq in Hc. subst. now destruct c.
Qed.

Lemma col_lookup_label (C : Type) (nm : string) (cs : list (string * list C))
      (col : list C) :
  col_lookup nm cs = Some col -> In nm (map fst cs).
Proof.
  intros H. apply col_lookup_In in H.
  apply in_map_iff. now exists (nm, col).
Qed.

Lemma index_pos_In (I : Type) (eqb : I -> I -> bool) (i : I) (idx : list I) :
  (forall a b, eqb a b = true <-> a = b) ->
  In i idx ->
  exists p, index_pos eqb i idx = Some p /\ nth_error idx p = Some i.
Proof.
  intros Heq. induction idx as [|j idx IH]; simpl.
  - tauto.
  - intros H. destruct (eqb j i) eqn:E.
    + apply Heq in E. subst. exists 0%nat. auto.
    + destruct H as [H|H].
      * subst. assert (E' : eqb i i = true) by now apply Heq. congruence.
      * destruct (IH H) as (p & Hp & Hn). exists (S p).
        rewrite Hp. auto.
Qed.

(** ** The hours of a day *)

Lemma day_hours_from_ge (idx : list Timestamp) (D : Date) :
  forall i0 i, In i (day_hours_from i0 idx D) -> (i0 <= i)%nat.
Proof.
  induction idx as [|t idx IH]; intros i0 i; simpl.
  - tauto.
  - destruct (date_eqb (date_of t) D); simpl.
    + intros [H|H]; [lia|]. apply IH in H. lia.
    + intros H. apply IH in H. lia.
Qed.

Lemma day_values_hours (C : Type) (d : C) (D : Date) (idx : list Timestamp) :
  forall (col : list C) (i0 : nat),
    length col = length idx ->
    day_values idx col D
    = map (fun i => nth (i - i0) col d) (day_hours_from i0 idx D).
Proof.
  unfold day_values.
  induction idx as [|t idx IH]; intros [|c col] i0 Hlen; simpl in *;
    try reflexivity; try discriminate.
  injection Hlen as Hlen.
  assert (Hrest : map (fun i => nth (i - S i0) col d)
                      (day_hours_from (S i0) idx D)
                  = map (fun i => nth (i - i0) (c :: col) d)
                        (day_hours_from (S i0) idx D)).
  { apply map_ext_in. intros i Hi. apply day_hours_from_ge in Hi.
    replace (i - i0)%nat with (S (i - S i0)) by lia. reflexivity. }
  destruct (date_eqb (date_of t) D); simpl.
  - rewrite Nat.sub_diag. f_equal.
    rewrite (IH col (S i0) Hlen). exact Hrest.
  - rewrite (IH col (S i0) Hlen). exact Hrest.
Qed.

Lemma day_values_column (D : Date) (idx : list Timestamp) (col : list Q) :
  length col = length idx ->
  day_values idx col D = map (fun i => nth i col 0) (day_hours idx D).
Proof.
  intros H. rewrite (day_values_hours 0 D idx col 0 H).
  apply map_ext. intros i. now rewrite Nat.sub_0_r.
Qed.

Lemma day_values_ratio (D : Date) (idx : list Timestamp) (ce cl : list Q) :
  length ce = length idx -> length cl = length idx ->
  day_values idx (map (fun p => fdiv (fst p) (snd p)) (combine ce cl)) D
  = map (fun i => fdiv (nth i ce 0) (nth i cl 0)) (day_hours idx D).
Proof.
  intros He Hl.
  rewrite (day_values_hours (fdiv 0 0) D idx
             (map (fun p => fdiv (fst p) (snd p)) (combine ce cl)) 0).
  - apply map_ext. intros i. rewrite Nat.sub_0_r.
    change (fdiv 0 0) with ((fun p => fdiv (fst p) (snd p)) (0, 0)).
    rewrite map_nth. rewrite combine_nth by congruence. reflexivity.
  - rewrite length_map, length_combine. lia.
Qed.

(** ** Columns as long as the index *)

Lemma add_columns_length (a b : list Q) :
  length b = length a -> length (add_columns a b) = length a.
Proof.
  intros H. unfold add_columns. rewrite length_map, length_combine. lia.
Qed.

Lemma sum_columns_length (n : nat) (cs : list (list Q)) :
  Forall (fun c => length c = n) cs -> length (sum_columns n cs) = n.
Proof.
  unfold sum_columns.
  assert (H : forall acc, length acc = n ->
                          Forall (fun c => length c = n) cs ->
                          length (fold_left add_columns cs acc) = n).
  { induction cs as [|c cs IH]; intros acc Hacc Hcs; simpl.
    - exact Hacc.
    - inversion Hcs; subst. apply IH; [|assumption].
      rewrite add_columns_length; congruence. }
  apply H. apply repeat_length.
Qed.

Lemma rename_columns_wf (I C : Type) (rmap : list (string * string))
      (f : Frame I C) :
  well_formed f -> well_formed (rename_columns rmap f).
Proof.
  unfold well_formed. simpl. intros H.
  apply Forall_map. eapply Forall_impl; [|exact H]. auto.
Qed.

Lemma groupby_columns_sum_wf (I : Type) (f : Frame I Q) :
  well_formed f -> well_formed (groupby_columns_sum f).
Proof.
  unfold well_formed. simpl. intros H.
  apply Forall_map. apply Forall_forall. intros nm _. simpl.
  apply sum_columns_length.
  apply Forall_map. apply Forall_forall. intros c Hc.
  apply filter_In in Hc. rewrite Forall_forall in H. apply H. tauto.
Qed.

Lemma set_index_ok (I J C : Type) (idx : list J) (f : Frame I C)
      (g : Frame J C) :
  set_index idx f = Ok g ->
  index g = idx /\ cols g = cols f /\ length idx = length (index f).
Proof.
  unfold set_index.
  destruct (Nat.eqb (length idx) (length (index f))) eqn:E; [|discriminate].
  intros H. injection H as <-. apply Nat.eqb_eq in E. auto.
Qed.

Lemma set_index_wf (I J C : Type) (idx : list J) (f : Frame I C)
      (g : Frame J C) :
  set_index idx f = Ok g -> well_formed f -> well_formed g.
Proof.
  intros H Hf. apply set_index_ok in H. destruct H as (Hi & Hc & Hl).
  unfold well_formed in *. rewrite Hi, Hc, Hl. exact Hf.
Qed.

Lemma aggregated_eue_wf (inp : Inputs) (level : string)
      (fe : Frame Timestamp Q) :
  well_formed (dfpras inp) ->
  aggregated_eue inp level = Ok fe -> well_formed fe.
Proof.
  intros Hwf. unfold aggregated_eue, get_pras_eue.
  destruct (get_rmap (hierarchy inp) level) as [rmap|]; [|discriminate].
  simpl.
  destruct (set_index (timeindex inp) (dfpras inp)) as [df|] eqn:E;
    [|discriminate].
  simpl. intros H. injection H as <-.
  apply groupby_columns_sum_wf, rename_columns_wf.
  pose proof (@set_index_wf _ _ _ _ _ _ E Hwf) as Hdf.
  unfold well_formed in *. simpl.
  apply Forall_map. apply Forall_forall. intros c Hc. simpl.
  apply filter_In in Hc. rewrite Forall_forall in Hdf. apply Hdf. tauto.
Qed.

Lemma aggregated_load_wf (inp : Inputs) (level : string)
      (fe fl : Frame Timestamp Q) :
  well_formed (pras_load inp) ->
  aggregated_eue inp level = Ok fe ->
  aggregated_load inp level = Ok fl ->
  well_formed fl /\ index fl = index fe.
Proof.
  intros Hwf He. unfold aggregated_load. rewrite He.
  destruct (get_rmap (hierarchy inp) level) as [rmap|]; [|discriminate].
  simpl. intros H. split.
  - apply (@set_index_wf _ _ _ _ _ _ H).
    now apply groupby_columns_sum_wf, rename_columns_wf.
  - apply set_index_ok in H. tauto.
Qed.

Lemma col_lookup_some (C : Type) (nm : string) (cs : list (string * list C)) :
  In nm (map fst cs) -> exists col, col_lookup nm cs = Some col.
Proof.
  unfold col_lookup. induction cs as [|c cs IH]; simpl.
  - tauto.
  - destruct (String.eqb (fst c) nm) eqn:E.
    + intros _. now exists (snd c).
    + intros [H|H].
      * subst. rewrite String.eqb_refl in E. discriminate.
      * now apply IH.
Qed.

Lemma col_lookup_length (I C : Type) (f : Frame I C) (nm : string)
      (col : list C) :
  well_formed f -> col_lookup nm (cols f) = Some col ->
  length col = length (index f).
Proof.
  intros Hwf H. apply col_lookup_In in H.
  unfold well_formed in Hwf. rewrite Forall_forall in Hwf.
  now apply (Hwf (nm, col)).
Qed.

Lemma nth_error_tabulate2 (K A B C : Type) (f : K -> A) (g : K -> B)
      (h : A * B -> C) (keys : list K) (p : nat) (D : K) :
  nth_error keys p = Some D ->
  nth_error (map h (combine (map f keys) (map g keys))) p
  = Some (h (f D, g D)).
Proof.
  revert p. induction keys as [|k keys IH]; intros [|p] H; simpl in *;
    try discriminate.
  - now injection H as ->.
  - now apply IH.
Qed.

(** ** The cell of a day and a region *)

Section DayCell.
Variables fe fl : Frame Timestamp Q.
Variable D : Date.
Variable A : string.

Hypothesis fe_wf : well_formed fe.
Hypothesis fl_wf : well_formed fl.
Hypothesis same_index : index fl = index fe.
Hypothesis D_in : In D (map date_of (index fe)).
Hypothesis A_eue : In A (map fst (cols fe)).
Hypothesis A_load : In A (map fst (cols fl)).

Lemma union_label :
  In A (sort_values String.leb
          (unique String.eqb
             (map fst (cols fe) ++ map fst (cols fl)))).
Proof.
  apply sort_values_In. apply unique_In; [apply String.eqb_eq|].
  apply in_or_app. now left.
Qed.

Lemma neue_sum_cell :
  cell date_eqb
       (frame_map times_1e6
          (frame_div (groupby_day Qsum fe) (groupby_day Qsum fl)))
       D A
  = Some (times_1e6
            (fdiv (Qsum (map (hourly fe A) (day_hours (index fe) D)))
                  (Qsum (map (hourly fl A) (day_hours (index fe) D))))).
Proof.
  destruct (col_lookup_some _ _ A_eue) as [ce Hce].
  destruct (col_lookup_some _ _ A_load) as [cl Hcl].
  pose proof (col_lookup_length _ fe_wf Hce) as Lce.
  pose proof (col_lookup_length _ fl_wf Hcl) as Lcl.
  destruct (@index_pos_In _ date_eqb D (day_keys (index fe)) date_eqb_eq)
    as (p & Hp & Hn); [now apply day_keys_In|].
  unfold cell, frame_map, frame_div, groupby_day. cbn [index cols].
  rewrite Hp.
  rewrite (col_lookup_map (map times_1e6)).
  rewrite (col_lookup_tabulate
             (fun nm =>
                match
                  col_lookup nm
                    (map (fun c =>
                            (fst c,
                             map (fun D0 =>
                                    Qsum (day_values (index fe) (snd c) D0))
                                 (day_keys (index fe))))
                         (cols fe)),
                  col_lookup nm
                    (map (fun c =>
                            (fst c,
                             map (fun D0 =>
                                    Qsum (day_values (index fl) (snd c) D0))
                                 (day_keys (index fl))))
                         (cols fl))
                with
                | Some ce0, Some cl0 =>
                    map (fun p0 => fdiv (fst p0) (snd p0)) (combine ce0 cl0)
                | _, _ =>
                    repeat NaN (length (day_keys (index fe)))
                end)).
  2:{ pose proof union_label as Hu.
      rewrite !map_map in *. simpl in *. exact Hu. }
  rewrite (col_lookup_map
             (fun col => map (fun D0 => Qsum (day_values (index fe) col D0))
                             (day_keys (index fe)))).
  rewrite (col_lookup_map
             (fun col => map (fun D0 => Qsum (day_values (index fl) col D0))
                             (day_keys (index fl)))).
  rewrite Hce, Hcl. cbn [option_map].
  rewrite same_index. rewrite map_map.
  rewrite (@nth_error_tabulate2 _ _ _ _
             (fun D0 => Qsum (day_values (index fe) ce D0))
             (fun D0 => Qsum (day_values (index fe) cl D0))
             (fun x => times_1e6 (fdiv (fst x) (snd x))) _ _ _ Hn).
  cbn [fst snd]. unfold hourly. rewrite Hce, Hcl.
  rewrite !day_values_column by congruence.
  reflexivity.
Qed.

Lemma neue_max_cell :
  cell date_eqb
       (frame_map times_1e6 (groupby_day series_fmax (frame_div fe fl)))
       D A
  = Some (times_1e6
            (series_fmax
               (map (fun i => fdiv (hourly fe A i) (hourly fl A i))
                    (day_hours (index fe) D)))).
Proof.
  destruct (col_lookup_some _ _ A_eue) as [ce Hce].
  destruct (col_lookup_some _ _ A_load) as [cl Hcl].
  pose proof (col_lookup_length _ fe_wf Hce) as Lce.
  pose proof (col_lookup_length _ fl_wf Hcl) as Lcl.
  destruct (@index_pos_In _ date_eqb D (day_keys (index fe)) date_eqb_eq)
    as (p & Hp & Hn); [now apply day_keys_In|].
  unfold cell, frame_map, groupby_day. cbn [index cols].
  change (index (frame_div fe fl)) with (index fe).
  rewrite Hp.
  rewrite (col_lookup_map (map times_1e6)).
  rewrite (col_lookup_map
             (fun col =>
                map (fun D0 => series_fmax (day_values (index fe) col D0))
                    (day_keys (index fe)))).
  unfold frame_div. cbn [cols].
  rewrite (col_lookup_tabulate
             (fun nm =>
                match col_lookup nm (cols fe), col_lookup nm (cols fl) with
                | Some ce0, Some cl0 =>
                    map (fun p0 => fdiv (fst p0) (snd p0)) (combine ce0 cl0)
                | _, _ => repeat NaN (length (index fe))
                end)) by exact union_label.
  rewrite Hce, Hcl. cbn [option_map].
  rewrite map_map. rewrite nth_error_map, Hn. cbn [option_map].
  unfold hourly. rewrite Hce, Hcl.
  rewrite day_values_ratio by congruence.
  reflexivity.
Qed.
End DayCell.

Lemma dfmetric_period_neue_sum (inp : Inputs) (level : string)
      (fe fl : Frame Timestamp Q) :
  aggregated_eue inp level = Ok fe ->
  aggregated_load inp level = Ok fl ->
  dfmetric_period inp level "NEUE" "sum"
  = Ok (frame_map times_1e6
          (frame_div (groupby_day Qsum fe) (groupby_day Qsum fl))).
Proof.
  intros He Hl. unfold dfmetric_period. rewrite He. simpl.
  rewrite Hl. reflexivity.
Qed.

Lemma dfmetric_period_neue_max (inp : Inputs) (level : string)
      (fe fl : Frame Timestamp Q) :
  aggregated_eue inp level = Ok fe ->
  aggregated_load inp level = Ok fl ->
  dfmetric_period inp level "NEUE" "max"
  = Ok (frame_map times_1e6 (groupby_day series_fmax (frame_div fe fl))).
Proof.
  intros He Hl. unfold dfmetric_period. rewrite He. simpl.
  rewrite Hl. reflexivity.
Qed.

End StressPeriodsFacts.

(** * Facts on the criterion loop *)

Module OrchestratorFacts.
Import Pandas PandasFacts StressPeriods Orchestrator.

(** ** Tables that only lose rows *)

Lemma groupby_head_incl (n : nat) (x : period_row) (rest : list period_row) :
  forall before, In x (groupby_head n before rest) -> In x rest.
Proof.
  induction rest as [|a rest IH]; intros before; simpl.
  - tauto.
  - destruct (Nat.ltb _ n); simpl.
    + intros [H|H]; [now left|]. right. now apply (IH (before ++ [a])).
    + intros H. right. now apply (IH (before ++ [a])).
Qed.

Lemma select_periods_incl (sw : Switches) (data : CaseData)
      (sorted : list period_row) (failed_c : list (string * fval))
      (x : period_row) :
  In x (select_periods sw data sorted failed_c) ->
  In x sorted
  /\ isin (r x) (map fst failed_c) = true
  /\ isin (actual_period x) (stressperiods_this_iteration data) = false.
Proof.
  unfold select_periods. intros H.
  apply groupby_head_incl in H. apply unique_incl in H.
  apply filter_In in H. destruct H as [H1 H2].
  apply andb_true_iff in H2. destruct H2 as [H2 H3].
  apply negb_true_iff in H3. auto.
Qed.

(** ** Dictionaries *)

Lemma dict_set_In (K V : Type) (eqb : K -> K -> bool) (k : K) (v : V)
      (d : dict K V) (kv : K * V) :
  In kv (dict_set eqb k v d) ->
  (snd kv = v /\ (fst kv = k \/ eqb (fst kv) k = true)) \/ In kv d.
Proof.
  induction d as [|[k' v'] d IH]; simpl.
  - intros [H|H]; [|tauto]. subst. simpl. auto.
  - destruct (eqb k' k) eqn:E; simpl.
    + intros [H|H]; [|auto]. subst. simpl. auto.
    + intros [H|H]; [auto|]. destruct (IH H); auto.
Qed.

Lemma dict_set_keys (K V : Type) (eqb : K -> K -> bool) (k : K) (v : V)
      (d : dict K V) (k' : K) :
  In k' (dict_keys (dict_set eqb k v d)) -> k' = k \/ In k' (dict_keys d).
Proof.
  unfold dict_keys. induction d as [|[k0 v0] d IH]; simpl.
  - intros [H|H]; [auto|tauto].
  - destruct (eqb k0 k) eqn:E; simpl.
    + intros [H|H]; auto.
    + intros [H|H]; [auto|]. destruct (IH H); auto.
Qed.

Lemma dict_merge_In (K V : Type) (eqb : K -> K -> bool) (d2 : dict K V) :
  (forall a b, eqb a b = true -> a = b) ->
  forall (d1 : dict K V) (kv : K * V),
    In kv (dict_merge eqb d1 d2) -> In kv d1 \/ In kv d2.
Proof.
  intros Heq. unfold dict_merge.
  induction d2 as [|[k v] d2 IH]; intros d1 kv; simpl.
  - auto.
  - intros H. apply IH in H. destruct H as [H|H]; [|auto].
    apply dict_set_In in H. destruct H as [[Hv Hk]|H]; [|auto].
    right. left. destruct kv as [k' v']. simpl in *. subst v'.
    destruct Hk as [Hk|Hk]; [now subst|].
    apply Heq in Hk. now subst.
Qed.

Lemma key2_eqb_eq (a b : string * string) : key2_eqb a b = true -> a = b.
Proof.
  destruct a as [a1 a2], b as [b1 b2]. unfold key2_eqb. simpl.
  intros H. apply andb_true_iff in H. destruct H as [H1 H2].
  apply String.eqb_eq in H1. apply String.eqb_eq in H2. now subst.
Qed.

Lemma concat_periods_In (dd : dict (string * string) (list period_row))
      (n : new_period) :
  In n (concat_periods dd) ->
  exists kv, In kv dd /\ In (period n) (snd kv)
             /\ criterion_of n = fst (fst kv)
             /\ periodtype n = snd (fst kv).
Proof.
  unfold concat_periods. intros H.
  apply in_flat_map in H. destruct H as (kv & Hkv & H).
  apply in_map_iff in H. destruct H as (a & Ha & Hin).
  exists kv. subst n. simpl. auto.
Qed.

(** ** Shoulder periods carry the criterion they were made under *)

Ltac bind_ok H :=
  match type of H with
  | bind ?x _ = Ok _ =>
      let E := fresh "E" in
      destruct x eqn:E; cbn [bind] in H; [|discriminate H]
  end.

Lemma put_shoulder_entry (co : Collaborators) (criterion : string)
      (row : period_row) (test : bool) (label : string) (t : Timestamp)
      (sh : dict (string * string) (list period_row))
      (P : (string * string) * list period_row -> Prop) :
  (label = String.append "after_" (actual_period row)
   \/ label = String.append "before_" (actual_period row)) ->
  (forall kv, In kv sh -> P kv \/ shoulder_entry co criterion [row] kv) ->
  forall kv,
    In kv (put_shoulder test (criterion, label) (shoulder_of co row t) sh) ->
    P kv \/ shoulder_entry co criterion [row] kv.
Proof.
  intros Hl Hsh kv H. unfold put_shoulder in H.
  destruct test; [|now apply Hsh].
  apply dict_set_In in H.
  destruct H as [[Hv Hk]|H]; [|now apply Hsh].
  right.
  assert (Hk' : fst kv = (criterion, label)).
  { destruct Hk as [Hk|Hk]; [exact Hk|now apply key2_eqb_eq]. }
  unfold shoulder_entry. rewrite Hk'. simpl. split; [reflexivity|].
  exists row, t. simpl. auto.
Qed.

Lemma shoulder_row_inv (co : Collaborators) (timeindex : list Timestamp)
      (dfenergy_agg : Frame Timestamp Q)
      (criterion stress_metric cutofftype cutoff : string) (periodhours : nat)
      (sh sh' : dict (string * string) (list period_row)) (row : period_row) :
  shoulder_row co timeindex dfenergy_agg criterion stress_metric cutofftype
               cutoff periodhours sh row = Ok sh' ->
  forall kv, In kv sh' -> In kv sh \/ shoulder_entry co criterion [row] kv.
Proof.
  unfold shoulder_row.
  destruct (col_lookup (r row) (cols dfenergy_agg)) as [col|].
  2:{ intros H. injection H as <-. auto. }
  destruct (day_values _ (headspace_MWh col) _) as [|mwh0 mwh];
    [discriminate|].
  destruct (day_values _ (headspace_frac col) _) as [|frac0 frac];
    [discriminate|].
  destruct (day_values _ (index dfenergy_agg) _) as [|t0 ts];
    [discriminate|].
  intros H.
  bind_ok H. bind_ok H. bind_ok H. bind_ok H. bind_ok H. bind_ok H.
  injection H as <-.
  apply put_shoulder_entry; [right; reflexivity|].
  apply put_shoulder_entry; [left; reflexivity|].
  auto.
Qed.

Lemma shoulder_entry_incl (co : Collaborators) (criterion : string)
      (rows rows' : list period_row)
      (kv : (string * string) * list period_row) :
  incl rows rows' ->
  shoulder_entry co criterion rows kv -> shoulder_entry co criterion rows' kv.
Proof.
  intros Hi (Hc & q & t & Hq & H). split; [exact Hc|].
  exists q, t. split; [now apply Hi|exact H].
Qed.

Lemma shoulder_rows_inv (co : Collaborators) (timeindex : list Timestamp)
      (dfenergy_agg : Frame Timestamp Q)
      (criterion stress_metric cutofftype cutoff : string) (periodhours : nat)
      (rows : list period_row) :
  forall sh sh',
    shoulder_rows co timeindex dfenergy_agg criterion stress_metric cutofftype
                  cutoff periodhours sh rows = Ok sh' ->
    forall kv, In kv sh' -> In kv sh \/ shoulder_entry co criterion rows kv.
Proof.
  induction rows as [|row rows IH]; intros sh sh' H kv Hkv; simpl in H.
  - injection H as <-. auto.
  - bind_ok H.
    destruct (IH _ _ H kv Hkv) as [Hin|He].
    + destruct (shoulder_row_inv _ _ _ _ _ _ _ _ _ _ E kv Hin) as [H1|H1];
        [auto|].
      right. eapply shoulder_entry_incl; [|exact H1].
      intros x [Hx|[]]. now left.
    + right. eapply shoulder_entry_incl; [|exact He].
      intros x Hx. now right.
Qed.

Lemma add_shoulders_inv (co : Collaborators) (sw : Switches)
      (data : CaseData) (dfenergy_r : Frame Timestamp Q)
      (criterion hierarchy_level stress_metric : string)
      (rows : list period_row) (st st' : LoopState) :
  add_shoulders co sw data dfenergy_r criterion hierarchy_level stress_metric
                rows st = Ok st' ->
  _eue_sorted_periods st' = _eue_sorted_periods st
  /\ failed st' = failed st
  /\ high_eue_periods st' = high_eue_periods st
  /\ stdout st' = stdout st
  /\ forall kv, In kv (shoulder_periods st') ->
                In kv (shoulder_periods st)
                \/ shoulder_entry co criterion rows kv.
Proof.
  unfold add_shoulders.
  destruct (isin _ _); [intros H; injection H as <-; auto 6|].
  destruct (frame_empty dfenergy_r); [intros H; injection H as <-; auto 6|].
  destruct (split "_" _) as [|cutofftype [|cutoff [|x l]]]; try discriminate.
  intros H. bind_ok H. bind_ok H. bind_ok H.
  injection H as <-. simpl. repeat split; try reflexivity.
  eapply shoulder_rows_inv. exact E1.
Qed.

(** ** One turn *)

Section Turn.
Variable co : Collaborators.
Variable sw : Switches.
Variable data : CaseData.
Variable dfenergy_r : Frame Timestamp Q.
Variable neue : neue_table.

Local Abbreviation step := (criterion_step co sw data dfenergy_r neue).
Local Abbreviation loop := (criterion_loop co sw data dfenergy_r neue).
Local Abbreviation by_metric :=
  (fun a b : period_row => fle_bool (metric b) (metric a)).

(** A criterion that passes leaves its sorted table and one line. *)
Lemma step_pass (st : LoopState) (c : string) :
  criterion_passes co sw data neue c ->
  exists sorted,
    step st c
    = Ok ({| _eue_sorted_periods :=
               dict_set String.eqb c sorted (_eue_sorted_periods st);
             failed := failed st;
             high_eue_periods := high_eue_periods st;
             shoulder_periods := shoulder_periods st;
             stdout := stdout st ++ [Passed c] |},
          false).
Proof.
  intros [[tbl Ht] Hth].
  unfold criterion_step, candidate_periods, threshold_test in *.
  destruct (split "_" c) as [|lvl [|ppm [|sm [|pam [|x l]]]]];
    try discriminate.
  rewrite Ht. cbn [bind].
  bind_ok Hth. bind_ok Hth. injection Hth as Hth.
  cbn [bind]. rewrite Hth. eexists. reflexivity.
Qed.

(** A criterion above its threshold ends the loop, by [break] or by an
    exception; what it leaves behind carries its name. *)
Lemma step_fail (st : LoopState) (c : string) (res : LoopState * bool) :
  threshold_test co neue c = Ok true ->
  step st c = Ok res ->
  snd res = true
  /\ exists tbl sm failed_c,
      candidate_periods co sw data c = Ok tbl
      /\ _eue_sorted_periods (fst res)
         = dict_set String.eqb c (sort_values by_metric tbl)
                    (_eue_sorted_periods st)
      /\ failed (fst res) = dict_set String.eqb c failed_c (failed st)
      /\ high_eue_periods (fst res)
         = dict_set key2_eqb (c, String.append "high_" sm)
                    (select_periods sw data (sort_values by_metric tbl)
                                    failed_c)
                    (high_eue_periods st)
      /\ stdout (fst res) = stdout st ++ [Failed c]
      /\ forall kv, In kv (shoulder_periods (fst res)) ->
                    In kv (shoulder_periods st)
                    \/ shoulder_entry
                         co c
                         (select_periods sw data (sort_values by_metric tbl)
                                         failed_c)
                         kv.
Proof.
  intros Hth H.
  unfold criterion_step, candidate_periods, threshold_test in *.
  destruct (split "_" c) as [|lvl [|ppm [|sm [|pam [|x l]]]]];
    try discriminate.
  bind_ok H. bind_ok Hth. bind_ok Hth. injection Hth as Hth.
  cbn [bind] in H. rewrite Hth in H.
  bind_ok H. injection H as <-. cbn [fst snd].
  apply add_shoulders_inv in E2.
  destruct E2 as (H1 & H2 & H3 & H4 & H5). cbn in H1, H2, H3, H4, H5.
  split; [reflexivity|].
  eexists; exists sm; eexists.
  split; [reflexivity|].
  split; [exact H1|]. split; [exact H2|]. split; [exact H3|].
  split; [exact H4|]. exact H5.
Qed.

(** The criteria that pass are walked through; they leave the
    dictionaries of failures and of new periods as they were. *)
Lemma loop_passes (pre : list string) :
  Forall (criterion_passes co sw data neue) pre ->
  forall st,
  exists st',
    failed st' = failed st
    /\ high_eue_periods st' = high_eue_periods st
    /\ shoulder_periods st' = shoulder_periods st
    /\ stdout st' = stdout st ++ map Passed pre
    /\ (forall k, In k (dict_keys (_eue_sorted_periods st')) ->
                  In k (dict_keys (_eue_sorted_periods st)) \/ In k pre)
    /\ forall rest, loop st (pre ++ rest) = loop st' rest.
Proof.
  induction 1 as [|c pre Hc Hpre IH]; intros st.
  - exists st. rewrite app_nil_r. repeat split; auto.
  - destruct (step_pass st Hc) as [sorted Hs].
    set (st1 := {| _eue_sorted_periods :=
                     dict_set String.eqb c sorted (_eue_sorted_periods st);
                   failed := failed st;
                   high_eue_periods := high_eue_periods st;
                   shoulder_periods := shoulder_periods st;
                   stdout := stdout st ++ [Passed c] |}) in *.
    destruct (IH st1) as (st' & F & Hi & Sh & Out & Keys & Loop).
    exists st'. repeat split; auto.
    + rewrite Out. simpl. rewrite <- app_assoc. reflexivity.
    + intros k Hk. destruct (Keys k Hk) as [H|H].
      * simpl in H. apply dict_set_keys in H.
        destruct H as [H|H]; [right; left; now subst|now left].
      * right. now right.
    + intros rest. simpl.
      rewrite Hs. cbn [bind snd fst]. apply Loop.
Qed.
End Turn.

(** The loop ends with the first criterion above its threshold. *)
Lemma criterion_loop_first_failure
      (co : Collaborators) (sw : Switches) (data : CaseData)
      (dfenergy_r : Frame Timestamp Q) (neue : neue_table)
      (pre : list string) (c : string) (post : list string) :
  Forall (criterion_passes co sw data neue) pre ->
  threshold_test co neue c = Ok true ->
  criterion_loop co sw data dfenergy_r neue empty_state (pre ++ c :: post)
  = criterion_loop co sw data dfenergy_r neue empty_state (pre ++ [c])
  /\ forall st,
      criterion_loop co sw data dfenergy_r neue empty_state (pre ++ c :: post)
      = Ok st ->
      stdout st = map Passed pre ++ [Failed c]
      /\ dict_keys (failed st) = [c]
      /\ (forall k, In k (dict_keys (_eue_sorted_periods st)) ->
                    In k (pre ++ [c]))
      /\ exists tbl news,
          candidate_periods co sw data c = Ok tbl
          /\ new_stress_periods st = Some news
          /\ forall n,
              In n news ->
              criterion_of n = c
              /\ (In (period n) tbl
                  \/ exists q,
                      In q tbl
                      /\ r (period n) = r q
                      /\ (periodtype n
                          = String.append "after_" (actual_period q)
                          \/ periodtype n
                             = String.append "before_" (actual_period q))).
Proof.
  intros Hpre Hc.
  destruct (loop_passes dfenergy_r Hpre empty_state)
    as (st' & F & Hi & Sh & Out & Keys & Loop).
  rewrite (Loop (c :: post)), (Loop [c]). cbn [criterion_loop].
  destruct (criterion_step co sw data dfenergy_r neue st' c) as [res|e] eqn:Es;
    cbn [bind].
  2:{ split; [reflexivity|]. intros st H. discriminate H. }
  destruct (@step_fail co sw data dfenergy_r neue st' c res Hc Es)
    as (Hb & tbl & sm & failed_c & Ht & Hs & Hf & Hh & Ho & Hsh).
  rewrite Hb. split; [reflexivity|].
  intros st H. injection H as <-.
  rewrite F in Hf. rewrite Hi in Hh. rewrite Out in Ho.
  cbn in Hf, Hh, Ho.
  split; [exact Ho|]. split; [now rewrite Hf|]. split.
  { intros k Hk. rewrite Hs in Hk. apply dict_set_keys in Hk.
    apply in_or_app. destruct Hk as [Hk|Hk].
    - right. left. now subst.
    - destruct (Keys k Hk) as [[]|Hk']. now left. }
  exists tbl. eexists. split; [exact Ht|].
  split; [unfold new_stress_periods; rewrite Hf; reflexivity|].
  intros n Hn. apply unique_incl in Hn. apply concat_periods_In in Hn.
  destruct Hn as (kv & Hkv & Hp & Hcr & Hty).
  apply (dict_merge_In key2_eqb _ key2_eqb_eq) in Hkv. rewrite Hh in Hkv.
  assert (Hrows : forall q,
             In q (select_periods
                     sw data
                     (sort_values
                        (fun a b => fle_bool (metric b) (metric a)) tbl)
                     failed_c) ->
             In q tbl).
  { intros q Hq. apply select_periods_incl in Hq.
    destruct Hq as [Hq _]. now apply sort_values_In in Hq. }
  destruct Hkv as [[Hkv|[]]|Hkv].
  - subst kv. cbn in Hp, Hcr. split; [exact Hcr|]. left. now apply Hrows.
  - destruct (Hsh kv Hkv) as [Hin|(Hk & q & t & Hq & Hv & Hl)].
    { rewrite Sh in Hin. destruct Hin. }
    split; [now rewrite Hcr|]. right. exists q.
    split; [now apply Hrows|].
    rewrite Hv in Hp. destruct Hp as [Hp|[]].
    split; [now rewrite <- Hp|]. now rewrite Hty.
Qed.

End OrchestratorFacts.


(** * Further facts on tables *)

Unset Implicit Arguments.

Module TableFacts.
Import Pandas PandasFacts.

Section SortOn.
Variable A : Type.
Variable le : A -> A -> bool.
Variable P : A -> Prop.

Hypothesis le_total_on :
  forall a b, P a -> P b -> le a b = false -> le b a = true.
Hypothesis le_trans_on :
  forall a b c, P a -> P b -> P c ->
                le a b = true -> le b c = true -> le a c = true.

Lemma insert_row_sorted_on (a : A) (l : list A) :
  P a -> Forall P l ->
  StronglySorted (fun x y => le x y = true) l ->
  StronglySorted (fun x y => le x y = true) (insert_row le a l).
Proof.
  intros Pa Pl Hs. induction Hs as [|b l Hs IH Hb]; simpl.
  - constructor; constructor.
  - inversion Pl as [|? ? Pb Pl']; subst.
    destruct (le a b) eqn:E.
    + constructor.
      * now constructor.
      * constructor; [exact E|].
        rewrite Forall_forall in *. intros c Hc.
        apply (le_trans_on a b c Pa Pb (Pl' c Hc) E). now apply Hb.
    + constructor; [now apply IH|].
      apply (Permutation_Forall (Permutation_sym (insert_row_perm le a l))).
      constructor; [now apply le_total_on | exact Hb].
Qed.

Lemma sort_values_sorted_on (l : list A) :
  Forall P l ->
  StronglySorted (fun x y => le x y = true) (sort_values le l).
Proof.
  induction 1 as [|a l Pa Pl IH]; simpl.
  - constructor.
  - apply insert_row_sorted_on; auto.
    apply (Permutation_Forall (Permutation_sym (sort_values_perm le l))).
    exact Pl.
Qed.
End SortOn.

Section Unique.
Variables A K : Type.
Variable keqb : K -> K -> bool.
Variable key : A -> K.
Hypothesis keqb_eq : forall a b, keqb a b = true <-> a = b.

Local Abbreviation same := (fun a b : A => keqb (key a) (key b)).

Lemma unique_keys_NoDup (l : list A) : NoDup (map key (unique same l)).
Proof.
  induction l as [|a l IH]; simpl.
  - constructor.
  - constructor.
    + intros H. apply in_map_iff in H. destruct H as (b & Hb & Hin).
      apply filter_In in Hin. destruct Hin as [_ Hn].
      apply negb_true_iff in Hn.
      assert (E : keqb (key b) (key a) = true) by now apply keqb_eq.
      congruence.
    + clear -IH. induction (unique same l) as [|b u IHu]; simpl.
      * constructor.
      * inversion IH; subst.
        destruct (negb (keqb (key b) (key a))); simpl; auto.
        constructor; auto.
        intros H. apply in_map_iff in H. destruct H as (c & Hc & Hin).
        apply filter_In in Hin. apply H1.
        apply in_map_iff. exists c. tauto.
Qed.

(** A row that [unique] keeps stands before every other row of its key. *)
Lemma unique_first (x : A) (l : list A) :
  In x (unique same l) ->
  exists l1 l2, l = l1 ++ x :: l2
                /\ Forall (fun z => key z <> key x) l1.
Proof.
  induction l as [|a l IH]; simpl.
  - tauto.
  - intros [H|H].
    + subst. exists [], l. split; [reflexivity|constructor].
    + apply filter_In in H. destruct H as [H Hn].
      apply negb_true_iff in Hn.
      destruct (IH H) as (l1 & l2 & -> & Hl1).
      exists (a :: l1), l2. split; [reflexivity|].
      constructor; [|exact Hl1].
      intros E. symmetry in E. apply keqb_eq in E. congruence.
Qed.

(** Every key of the table is the key of a row that [unique] keeps. *)
Lemma unique_covers (x : A) (l : list A) :
  In x l -> exists z, In z (unique same l) /\ key z = key x.
Proof.
  induction l as [|a l IH]; simpl.
  - tauto.
  - intros [H|H].
    + subst. exists x. auto.
    + destruct (IH H) as (z & Hz & E).
      destruct (keqb (key z) (key a)) eqn:Ek.
      * apply keqb_eq in Ek. exists a. split; [now left|congruence].
      * exists z. split; [|exact E]. right.
        apply filter_In. split; [exact Hz|]. now rewrite Ek.
Qed.

Lemma unique_sorted (R : A -> A -> Prop) (l : list A) :
  StronglySorted R l -> StronglySorted R (unique same l).
Proof.
  induction 1 as [|a l Hs IH Ha]; simpl.
  - constructor.
  - constructor.
    + now apply StronglySorted_filter.
    + rewrite Forall_forall in *. intros b Hb.
      apply filter_In in Hb. destruct Hb as [Hb _].
      apply Ha. now apply unique_incl in Hb.
Qed.
End Unique.

Lemma StronglySorted_app_right (A : Type) (R : A -> A -> Prop)
      (l1 l2 : list A) (x y : A) :
  StronglySorted R (l1 ++ x :: l2) -> In y l2 -> R x y.
Proof.
  induction l1 as [|a l1 IH]; simpl; intros H Hy.
  - inversion H as [|? ? _ Hx]; subst.
    rewrite Forall_forall in Hx. now apply Hx.
  - inversion H; subst. now apply IH.
Qed.

End TableFacts.

(** * Further facts on the table of [get_stress_periods] *)

Module StressTableFacts.
Import Pandas PandasFacts TableFacts StressPeriods StressPeriodsFacts.
Import Orchestrator.

Lemma fle_bool_refl (a : fval) : is_nan a = false -> fle_bool a a = true.
Proof.
  destruct a; simpl; try reflexivity; try discriminate.
  intros _. apply Qle_bool_iff. apply Qle_refl.
Qed.

Lemma fle_bool_total (a b : fval) :
  is_nan a = false -> is_nan b = false ->
  fle_bool a b = false -> fle_bool b a = true.
Proof.
  destruct a, b; simpl; try reflexivity; try discriminate.
  intros _ _ H. apply Qle_bool_iff. apply Qlt_le_weak. apply Qnot_le_lt.
  intros Hle. apply Qle_bool_iff in Hle. congruence.
Qed.

Lemma fle_bool_trans (a b c : fval) :
  is_nan a = false -> is_nan b = false -> is_nan c = false ->
  fle_bool a b = true -> fle_bool b c = true -> fle_bool a c = true.
Proof.
  destruct a, b, c; simpl; try reflexivity; try discriminate.
  intros _ _ _ H1 H2. apply Qle_bool_iff.
  apply Qle_bool_iff in H1. apply Qle_bool_iff in H2.
  eapply Qle_trans; eassumption.
Qed.

Lemma stack_not_nan (f : Frame Date fval) :
  Forall (fun e => is_nan (snd e) = false) (stack f).
Proof.
  unfold stack. apply Forall_forall. intros e He.
  apply in_flat_map in He. destruct He as (iD & _ & He).
  apply in_flat_map in He. destruct He as (c & _ & He).
  destruct (nth_error (snd c) (fst iD)) as [v|]; [|destruct He].
  destruct (is_nan v) eqn:E; [destruct He|].
  destruct He as [<-|[]]. exact E.
Qed.

Abbreviation by_value :=
  (fun a b : Date * string * fval => fle_bool (snd b) (snd a)).
Abbreviation same_day :=
  (fun a b : Date * string * fval => date_eqb (fst (fst a)) (fst (fst b))).
Abbreviation nonzero :=
  (fun a : Date * string * fval => negb (is_zero (snd a))).

(** The entries behind the rows of [dfmetric_top]. *)
Abbreviation top_entries f :=
  (unique same_day (filter nonzero (sort_values by_value (stack f)))).

Lemma sorted_entries (f : Frame Date fval) :
  StronglySorted (fun a b => by_value a b = true)
                 (sort_values by_value (stack f)).
Proof.
  apply sort_values_sorted_on
    with (P := fun e : Date * string * fval => is_nan (snd e) = false).
  - intros a b Pa Pb. now apply fle_bool_total.
  - intros a b c Pa Pb Pc H1 H2.
    now apply (fle_bool_trans (snd c) (snd b) (snd a)).
  - apply stack_not_nan.
Qed.

Lemma top_entries_sorted (f : Frame Date fval) :
  StronglySorted (fun a b => by_value a b = true) (top_entries f).
Proof.
  apply unique_sorted with (keqb := date_eqb) (key := fun a => fst (fst a)).
  apply StronglySorted_filter. apply sorted_entries.
Qed.

Lemma top_entries_In (f : Frame Date fval) (e : Date * string * fval) :
  In e (top_entries f) ->
  In e (stack f) /\ is_zero (snd e) = false /\ is_nan (snd e) = false.
Proof.
  intros H. apply unique_incl in H. apply filter_In in H.
  destruct H as [H Hz]. apply sort_values_In in H.
  apply negb_true_iff in Hz. split; [exact H|]. split; [exact Hz|].
  pose proof (stack_not_nan f) as Hn. rewrite Forall_forall in Hn.
  now apply Hn.
Qed.

Lemma dfmetric_top_rows (co : Collaborators) (hourly_type : string)
      (f : Frame Date fval) (row : period_row) :
  In row (dfmetric_top co hourly_type f) ->
  exists e, In e (top_entries f)
            /\ fst (fst e) = (y row, m row, d row)
            /\ snd (fst e) = r row /\ snd e = metric row.
Proof.
  unfold dfmetric_top. intros H. apply in_map_iff in H.
  destruct H as (e & <- & He). exists e. split; [exact He|].
  destruct e as [[[[yy mm] dd] reg] v]. simpl. auto.
Qed.

(** X1.  The table of [get_stress_periods] has at most one row per day, no
    row with a metric of zero or NaN, and its rows are in descending order
    of the metric. *)
Theorem dfmetric_top_one_row_per_day (co : Collaborators)
        (hourly_type : string) (f : Frame Date fval) :
  NoDup (map (fun a => (y a, m a, d a)) (dfmetric_top co hourly_type f))
  /\ Forall (fun a => is_zero (metric a) = false
                      /\ is_nan (metric a) = false)
            (dfmetric_top co hourly_type f)
  /\ StronglySorted (fun a b => fle_bool (metric b) (metric a) = true)
                    (dfmetric_top co hourly_type f).
Proof.
  split; [|split].
  - unfold dfmetric_top. rewrite map_map. simpl.
    pose proof (unique_keys_NoDup
                  _ _ date_eqb
                  (fun a : Date * string * fval => fst (fst a))
                  date_eqb_eq
                  (filter nonzero (sort_values by_value (stack f)))) as H.
    erewrite map_ext; [exact H|].
    intros [[[[yy mm] dd] reg] v]. reflexivity.
  - apply Forall_forall. intros row Hrow.
    destruct (dfmetric_top_rows _ _ _ _ Hrow) as (e & He & _ & _ & Hv).
    rewrite <- Hv. apply top_entries_In in He. tauto.
  - unfold dfmetric_top.
    apply StronglySorted_map_rel
      with (R := fun a b : Date * string * fval => by_value a b = true).
    + intros a b _ _ H. exact H.
    + apply top_entries_sorted.
Qed.

(** X2.  A row of the table is an entry of the stacked metric, and it is
    the largest non-zero entry of its day; every day with a non-zero entry
    has its row. *)
Theorem dfmetric_top_keeps_largest (co : Collaborators)
        (hourly_type : string) (f : Frame Date fval) :
  (forall row,
      In row (dfmetric_top co hourly_type f) ->
      In ((y row, m row, d row), r row, metric row) (stack f)
      /\ forall reg v,
          In ((y row, m row, d row), reg, v) (stack f) ->
          is_zero v = false ->
          fle_bool v (metric row) = true)
  /\ (forall D reg v,
         In (D, reg, v) (stack f) -> is_zero v = false ->
         exists row, In row (dfmetric_top co hourly_type f)
                     /\ (y row, m row, d row) = D).
Proof.
  split.
  - intros row Hrow.
    destruct (dfmetric_top_rows _ _ _ _ Hrow) as (e & He & HD & Hr & Hv).
    split.
    + apply top_entries_In in He. destruct He as [He _].
      destruct e as [[D reg] v]. simpl in *. now subst.
    + intros reg v Hin Hz.
      set (L := filter nonzero (sort_values by_value (stack f))).
      assert (HL : In ((y row, m row, d row), reg, v) L).
      { apply filter_In. split; [now apply sort_values_In|].
        simpl. now rewrite Hz. }
      destruct (unique_first _ _ date_eqb (fun a => fst (fst a))
                             date_eqb_eq e L He) as (l1 & l2 & EL & Hl1).
      assert (Hs : StronglySorted (fun a b => by_value a b = true) L)
        by (apply StronglySorted_filter, sorted_entries).
      rewrite EL in HL, Hs. apply in_app_or in HL.
      destruct HL as [HL|[HL|HL]].
      * rewrite Forall_forall in Hl1. apply Hl1 in HL. simpl in HL.
        congruence.
      * rewrite <- Hv, HL. simpl. apply fle_bool_refl.
        pose proof (stack_not_nan f) as Hn. rewrite Forall_forall in Hn.
        now apply (Hn _ Hin).
      * rewrite <- Hv.
        now apply (StronglySorted_app_right _ _ _ _ _ _ Hs HL).
  - intros D reg v Hin Hz.
    assert (HL : In (D, reg, v)
                    (filter nonzero (sort_values by_value (stack f)))).
    { apply filter_In. split; [now apply sort_values_In|].
      simpl. now rewrite Hz. }
    destruct (unique_covers _ _ date_eqb (fun a => fst (fst a))
                            date_eqb_eq _ _ HL) as (z & Hz' & Ez).
    exists {| actual_period :=
                hd EmptyString
                   (split "h" (timestamp2h co (fst (fst z)) hourly_type));
              y := fst (fst (fst (fst z)));
              m := snd (fst (fst (fst z)));
              d := snd (fst (fst z));
              r := snd (fst z);
              metric := snd z |}.
    split.
    + unfold dfmetric_top. apply in_map_iff. exists z. auto.
    + simpl in *. rewrite <- Ez.
      destruct z as [[[[yy mm] dd] rg] vv]. reflexivity.
Qed.

End StressTableFacts.

(** * Further facts on the metric by period and on the aggregation *)

Module StressMetricExtras.
Import Pandas PandasFacts TableFacts StressPeriods StressPeriodsFacts.

Lemma groupby_day_cell (C C' : Type) (agg : list C -> C')
      (f : Frame Timestamp C) (D : Date) (A : string) (col : list C) :
  col_lookup A (cols f) = Some col ->
  In D (map date_of (index f)) ->
  cell date_eqb (groupby_day agg f) D A
  = Some (agg (day_values (index f) col D)).
Proof.
  intros Hc HD.
  destruct (@index_pos_In _ date_eqb D (day_keys (index f)) date_eqb_eq)
    as (p & Hp & Hn); [now apply day_keys_In|].
  unfold cell, groupby_day. cbn [index cols]. rewrite Hp.
  rewrite (col_lookup_map
             (fun c => map (fun D0 => agg (day_values (index f) c D0))
                           (day_keys (index f)))).
  rewrite Hc. cbn [option_map].
  rewrite nth_error_map, Hn. reflexivity.
Qed.

Lemma Qmax_cases (a b : Q) : Qmax a b = a \/ Qmax a b = b.
Proof.
  unfold Qmax, GenericMinMax.gmax. destruct (a ?= b); auto.
Qed.

Lemma fold_Qmax_spec (l : list Q) :
  forall v,
    (v <= fold_left Qmax l v)
    /\ Forall (fun x => x <= fold_left Qmax l v) l
    /\ In (fold_left Qmax l v) (v :: l).
Proof.
  induction l as [|a l IH]; intros v; simpl.
  - split; [apply Qle_refl|]. split; [constructor|now left].
  - destruct (IH (Qmax v a)) as (H1 & H2 & H3).
    assert (Hv : v <= Qmax v a) by apply Q.le_max_l.
    assert (Ha : a <= Qmax v a) by apply Q.le_max_r.
    split; [eapply Qle_trans; eassumption|].
    split; [constructor; [eapply Qle_trans; eassumption|exact H2]|].
    destruct H3 as [H3|H3]; [|auto].
    rewrite <- H3.
    destruct (Qmax_cases v a) as [E|E]; rewrite E; auto.
Qed.

Lemma series_max_spec (l : list Q) (mx : Q) :
  series_max l = Some mx ->
  Forall (fun x => x <= mx) l /\ In mx l.
Proof.
  destruct l as [|v l]; simpl; [discriminate|].
  intros H. injection H as <-.
  destruct (fold_Qmax_spec l v) as (H1 & H2 & H3).
  split; [now constructor|]. simpl in H3. tauto.
Qed.

Lemma day_hours_from_nonempty (D : Date) (idx : list Timestamp) :
  forall i0, In D (map date_of idx) -> day_hours_from i0 idx D <> [].
Proof.
  induction idx as [|t idx IH]; intros i0; simpl.
  - tauto.
  - destruct (date_eqb (date_of t) D) eqn:E; [discriminate|].
    intros [H|H]; [|now apply IH].
    subst. assert (date_eqb (date_of t) (date_of t) = true)
      by now apply date_eqb_eq.
    congruence.
Qed.

(** X3.  With the metric EUE, the value of a day and an aggregate region is
    the sum of the hourly unserved energy of the region over the day under
    [sum], and under [max] a value that one hour of the day takes and no hour
    of the day exceeds. *)
Theorem eue_daily_sum_and_max
        (inp : Inputs) (level : string) (fe : Frame Timestamp Q)
        (D : Date) (A : string) :
  well_formed (dfpras inp) ->
  aggregated_eue inp level = Ok fe ->
  In D (map date_of (index fe)) ->
  In A (map fst (cols fe)) ->
  (exists f,
      dfmetric_period inp level "EUE" "sum" = Ok f
      /\ cell date_eqb f D A
         = Some (Fin (Qsum (map (hourly fe A) (day_hours (index fe) D)))))
  /\ (exists f mx,
         dfmetric_period inp level "EUE" "max" = Ok f
         /\ cell date_eqb f D A = Some (Fin mx)
         /\ Forall (fun i => hourly fe A i <= mx) (day_hours (index fe) D)
         /\ Exists (fun i => hourly fe A i = mx) (day_hours (index fe) D)).
Proof.
  intros Wp He HD HA.
  pose proof (@aggregated_eue_wf inp level fe Wp He) as Wfe.
  destruct (col_lookup_some _ _ HA) as [col Hc].
  pose proof (col_lookup_length _ Wfe Hc) as Lc.
  assert (Hh : map (hourly fe A) (day_hours (index fe) D)
               = day_values (index fe) col D).
  { rewrite (day_values_column D (index fe) col Lc).
    unfold hourly. rewrite Hc. reflexivity. }
  split.
  - eexists. split.
    + unfold dfmetric_period. rewrite He. reflexivity.
    + rewrite (groupby_day_cell _ _ _ fe D A col Hc HD).
      now rewrite Hh.
  - destruct (series_max (day_values (index fe) col D)) as [mx|] eqn:Em.
    + eexists. exists mx. split.
      * unfold dfmetric_period. rewrite He. reflexivity.
      * rewrite (groupby_day_cell _ _ _ fe D A col Hc HD).
        rewrite Em. split; [reflexivity|].
        apply series_max_spec in Em. rewrite <- Hh in Em.
        destruct Em as [H1 H2]. split.
        -- exact (proj1 (Forall_map _ _ _) H1).
        -- apply Exists_exists. apply in_map_iff in H2.
           destruct H2 as (i & Hi & Hin). now exists i.
    + exfalso. rewrite <- Hh in Em.
      pose proof (day_hours_from_nonempty D (index fe) 0%nat HD) as Hne.
      unfold day_hours in Em.
      destruct (day_hours_from 0 (index fe) D); [congruence|discriminate].
Qed.

Lemma eue_daily_sum_and_max_witness :
  exists fe : Frame Timestamp Q,
    aggregated_eue StressPeriodsExamples.two_days "st" = Ok fe
    /\ (exists f,
           dfmetric_period StressPeriodsExamples.two_days "st" "EUE" "sum"
           = Ok f
           /\ cell date_eqb f (2012, 7, 1)%nat "CA"
              = Some (Fin (Qsum (map (hourly fe "CA")
                                     (day_hours (index fe)
                                                (2012, 7, 1)%nat)))))
    /\ (exists f mx,
           dfmetric_period StressPeriodsExamples.two_days "st" "EUE" "max"
           = Ok f
           /\ cell date_eqb f (2012, 7, 1)%nat "CA" = Some (Fin mx)
           /\ Forall (fun i => hourly fe "CA" i <= mx)
                     (day_hours (index fe) (2012, 7, 1)%nat)
           /\ Exists (fun i => hourly fe "CA" i = mx)
                     (day_hours (index fe) (2012, 7, 1)%nat)).
Proof.
  eexists.
  split; [vm_compute; reflexivity|].
  apply (eue_daily_sum_and_max StressPeriodsExamples.two_days "st"%string).
  - repeat constructor.
  - vm_compute. reflexivity.
  - simpl. tauto.
  - simpl. tauto.
Defined.

(** ** The zonal columns of [get_pras_eue] *)

Lemma length_append (a b : string) :
  String.length (String.append a b) = (String.length a + String.length b)%nat.
Proof.
  induction a as [|c a IH]; simpl; [reflexivity|]. now rewrite IH.
Qed.

Lemma substring_all (s : string) : String.substring 0 (String.length s) s = s.
Proof.
  induction s as [|c s IH]; simpl; [reflexivity|]. now rewrite IH.
Qed.

Lemma substring_append_l (a b : string) :
  String.substring 0 (String.length a) (String.append a b) = a.
Proof.
  induction a as [|c a IH]; simpl.
  - destruct b; reflexivity.
  - now rewrite IH.
Qed.

Lemma substring_append_r (a b : string) :
  String.substring (String.length a) (String.length b) (String.append a b) = b.
Proof.
  induction a as [|c a IH]; simpl.
  - apply substring_all.
  - exact IH.
Qed.

Lemma substring_split (s : string) :
  forall n, (n <= String.length s)%nat ->
            s = String.append (String.substring 0 n s)
                              (String.substring n (String.length s - n) s).
Proof.
  induction s as [|c s IH]; intros n Hn; simpl in *.
  - destruct n; reflexivity.
  - destruct n as [|n]; simpl.
    + now rewrite substring_all.
    + f_equal. apply IH. lia.
Qed.

Lemma endswith_append (z t : string) : endswith (String.append z t) t = true.
Proof.
  unfold endswith. rewrite length_append.
  replace (String.length z + String.length t - String.length t)%nat
    with (String.length z) by lia.
  rewrite substring_append_r, String.eqb_refl.
  apply andb_true_iff. split; [|reflexivity].
  apply Nat.leb_le. lia.
Qed.

Lemma endswith_split (s t : string) :
  endswith s t = true ->
  s = String.append
        (String.substring 0 (String.length s - String.length t) s) t.
Proof.
  unfold endswith. intros H. apply andb_true_iff in H.
  destruct H as [Hl He]. apply Nat.leb_le in Hl.
  apply String.eqb_eq in He.
  rewrite (substring_split s (String.length s - String.length t)) at 1
    by lia.
  f_equal.
  replace (String.length s - (String.length s - String.length t))%nat
    with (String.length t) by lia.
  exact He.
Qed.

(** X4.  [get_pras_eue] raises ValueError exactly when the time index and
    the PRAS table differ in length.  Otherwise the result carries the time
    index, and its columns are the columns [z_EUE] of the PRAS table that do
    not start with USA, each under the label [z]. *)
Theorem get_pras_eue_zonal_columns (inp : Inputs) :
  (get_pras_eue inp = Raise ValueError
   <-> length (timeindex inp) <> length (index (dfpras inp)))
  /\ forall f,
      get_pras_eue inp = Ok f ->
      index f = timeindex inp
      /\ (forall z col,
             In (String.append z eue_tail, col) (cols (dfpras inp)) ->
             startswith (String.append z eue_tail) "USA" = false ->
             In (z, col) (cols f))
      /\ (forall z col,
             In (z, col) (cols f) ->
             In (String.append z eue_tail, col) (cols (dfpras inp))
             /\ startswith (String.append z eue_tail) "USA" = false).
Proof.
  unfold get_pras_eue, set_index.
  destruct (Nat.eqb (length (timeindex inp)) (length (index (dfpras inp))))
    eqn:E; cbn [bind index cols].
  - apply Nat.eqb_eq in E. split.
    + split; [discriminate|congruence].
    + intros f H. injection H as <-. cbn [index cols].
      split; [reflexivity|]. split.
      * intros z col Hin Hs.
        apply in_map_iff. exists (String.append z eue_tail, col).
        cbn [fst snd]. split.
        -- rewrite length_append.
           replace (String.length z + String.length eue_tail - 4)%nat
             with (String.length z) by (cbn; lia).
           now rewrite substring_append_l.
        -- apply filter_In. split; [exact Hin|].
           cbn [fst]. now rewrite endswith_append, Hs.
      * intros z col Hin. apply in_map_iff in Hin.
        destruct Hin as ([nm c] & Heq & Hin). cbn [fst snd] in Heq.
        injection Heq as <- <-.
        apply filter_In in Hin. destruct Hin as [Hin Hf].
        cbn [fst] in Hf. apply andb_true_iff in Hf.
        destruct Hf as [He Hu]. apply negb_true_iff in Hu.
        pose proof (endswith_split _ _ He) as Hsp.
        change (String.length eue_tail) with 4%nat in Hsp.
        rewrite <- Hsp. auto.
  - apply Nat.eqb_neq in E. split.
    + split; [intros _; exact E|reflexivity].
    + intros f H. discriminate H.
Qed.

(** ** The aggregation to a hierarchy level keeps the totals *)

Lemma nth_add_columns (a b : list Q) (i : nat) :
  length b = length a ->
  nth i (add_columns a b) 0 == nth i a 0 + nth i b 0.
Proof.
  unfold add_columns. revert b i.
  induction a as [|x a IH]; intros [|y b] i H; simpl in *; try discriminate.
  - destruct i; simpl; lra.
  - destruct i; simpl; [reflexivity|]. apply IH. now injection H.
Qed.

Lemma nth_fold_add_columns (cs : list (list Q)) (n i : nat) :
  forall acc,
    length acc = n ->
    Forall (fun c => length c = n) cs ->
    nth i (fold_left add_columns cs acc) 0
    == nth i acc 0 + Qsum (map (fun c => nth i c 0) cs).
Proof.
  induction cs as [|c cs IH]; intros acc Hacc Hcs; simpl.
  - lra.
  - inversion Hcs; subst.
    rewrite IH; [|rewrite add_columns_length; congruence|assumption].
    rewrite nth_add_columns by congruence.
    fold (Qsum (map (fun c0 => nth i c0 0) cs)). lra.
Qed.

Lemma nth_repeat_zero (n i : nat) : nth i (repeat 0 n) 0 = 0.
Proof.
  revert i. induction n as [|n IH]; intros [|i]; simpl; auto.
Qed.

Lemma nth_sum_columns (cs : list (list Q)) (n i : nat) :
  Forall (fun c => length c = n) cs ->
  nth i (sum_columns n cs) 0 == Qsum (map (fun c => nth i c 0) cs).
Proof.
  intros H. unfold sum_columns.
  rewrite (nth_fold_add_columns cs n i (repeat 0 n) (repeat_length _ _) H).
  rewrite nth_repeat_zero. lra.
Qed.

Lemma unique_NoDup (l : list string) : NoDup (unique String.eqb l).
Proof.
  pose proof (unique_keys_NoDup _ _ String.eqb (fun s : string => s)
                                String.eqb_eq l) as H.
  now rewrite map_id in H.
Qed.

Lemma Qsum_cons (x : Q) (l : list Q) : Qsum (x :: l) = x + Qsum l.
Proof. reflexivity. Qed.

Lemma Qsum_map_ext (A : Type) (f g : A -> Q) (l : list A) :
  (forall a, In a l -> f a == g a) ->
  Qsum (map f l) == Qsum (map g l).
Proof.
  induction l as [|a l IH]; intros H; cbn [map].
  - reflexivity.
  - rewrite !Qsum_cons. rewrite (H a) by now left.
    rewrite IH by (intros a' Ha'; apply H; now right). reflexivity.
Qed.

Lemma Qsum_map_bump (keys : list string) (k : string) (v : Q)
      (h : string -> Q) :
  NoDup keys -> In k keys ->
  Qsum (map (fun nm => (if String.eqb k nm then v else 0) + h nm) keys)
  == v + Qsum (map h keys).
Proof.
  induction keys as [|a keys IH]; intros Hnd Hin; [destruct Hin|].
  inversion Hnd as [|? ? Ha Hnd']; subst.
  cbn [map]. rewrite !Qsum_cons.
  destruct (String.eqb k a) eqn:E.
  - apply String.eqb_eq in E. subst a.
    rewrite (Qsum_map_ext _
               (fun nm => (if String.eqb k nm then v else 0) + h nm) h).
    + lra.
    + intros nm Hnm. destruct (String.eqb k nm) eqn:E'; [|lra].
      apply String.eqb_eq in E'. subst. contradiction.
  - destruct Hin as [Hin|Hin].
    { subst. rewrite String.eqb_refl in E. discriminate. }
    rewrite (IH Hnd' Hin). lra.
Qed.

(** Every column counts under exactly one of the labels. *)
Lemma sum_by_label (C : Type) (g : string * C -> Q)
      (cs : list (string * C)) (keys : list string) :
  NoDup keys ->
  (forall c, In c cs -> In (fst c) keys) ->
  Qsum (map (fun nm =>
               Qsum (map g (filter (fun c => String.eqb (fst c) nm) cs)))
            keys)
  == Qsum (map g cs).
Proof.
  intros Hnd. induction cs as [|c cs IH]; intros Hin.
  - cbn [filter map]. clear.
    induction keys as [|k keys IHk]; [reflexivity|].
    cbn [map]. rewrite Qsum_cons, IHk. change (Qsum nil) with 0. lra.
  - cbn [map]. rewrite Qsum_cons.
    rewrite <- IH by (intros c' Hc'; apply Hin; now right).
    rewrite <- (Qsum_map_bump
                  keys (fst c) (g c)
                  (fun nm =>
                     Qsum (map g (filter (fun c0 => String.eqb (fst c0) nm)
                                         cs)))
                  Hnd (Hin c (or_introl eq_refl))).
    apply Qsum_map_ext. intros nm _. cbn [filter].
    destruct (String.eqb (fst c) nm); cbn [map]; [rewrite Qsum_cons|];
      lra.
Qed.

(** X5.  The aggregation of a table to a hierarchy level keeps the total of
    every hour: the aggregate columns of an hour add up to what the columns
    of the table add up to in that hour. *)
Theorem aggregation_keeps_hourly_total
        (I : Type) (rmap : list (string * string)) (f : Frame I Q)
        (i : nat) :
  well_formed f ->
  Qsum (map (fun c => nth i (snd c) 0)
            (cols (groupby_columns_sum (rename_columns rmap f))))
  == Qsum (map (fun c => nth i (snd c) 0) (cols f)).
Proof.
  intros Wf.
  pose proof (@rename_columns_wf _ _ rmap f Wf) as Wr.
  set (fr := rename_columns rmap f) in *.
  unfold groupby_columns_sum. cbn [cols]. rewrite map_map. cbn [snd].
  assert (Hcols :
            forall nm,
              nth i (sum_columns
                       (length (index fr))
                       (map snd (filter (fun c => String.eqb (fst c) nm)
                                        (cols fr)))) 0
              == Qsum (map (fun c : string * list Q => nth i (snd c) 0)
                           (filter (fun c => String.eqb (fst c) nm)
                                   (cols fr)))).
  { intros nm. rewrite nth_sum_columns.
    - now rewrite map_map.
    - apply Forall_map. apply Forall_forall. intros c Hc.
      apply filter_In in Hc. unfold well_formed in Wr.
      rewrite Forall_forall in Wr. apply Wr. tauto. }
  rewrite (Qsum_map_ext
             _ _
             (fun nm =>
                Qsum (map (fun c : string * list Q => nth i (snd c) 0)
                          (filter (fun c => String.eqb (fst c) nm)
                                  (cols fr))))
             (labels (cols fr)) (fun nm _ => Hcols nm)).
  rewrite (sum_by_label _ (fun c : string * list Q => nth i (snd c) 0)
                        (cols fr) (labels (cols fr))).
  - unfold fr, rename_columns. cbn [cols]. rewrite map_map. reflexivity.
  - unfold labels.
    apply (Permutation_NoDup
             (Permutation_sym (sort_values_perm String.leb _))).
    apply unique_NoDup.
  - intros c Hc. apply labels_In. apply in_map_iff. now exists c.
Qed.

Lemma aggregation_keeps_hourly_total_witness :
  Qsum (map (fun c => nth 0 (snd c) 0)
            (cols (groupby_columns_sum
                     (rename_columns
                        [("p1", "CA"); ("p2", "CA")]%string
                        (pras_load StressPeriodsExamples.two_days)))))
  == Qsum (map (fun c => nth 0 (snd c) 0)
               (cols (pras_load StressPeriodsExamples.two_days))).
Proof.
  apply (aggregation_keeps_hourly_total
           nat [("p1", "CA"); ("p2", "CA")]%string
           (pras_load StressPeriodsExamples.two_days) 0).
  repeat constructor.
Defined.

End StressMetricExtras.

(** * The normalised metric of a day *)

Module NeueFacts.
Import Pandas PandasFacts TableFacts StressPeriods StressPeriodsFacts.
Import StressMetricExtras.

(** ** Division, maximum and scaling of floats *)

Lemma fdiv_is_ratio (a b : Q) : is_ratio a b (fdiv a b).
Proof.
  unfold fdiv.
  destruct (Qeq_bool b 0) eqn:Eb.
  - apply Qeq_bool_iff in Eb.
    destruct (Qeq_bool a 0) eqn:Ea.
    + apply Qeq_bool_iff in Ea. now apply ratio_not_a_number.
    + apply Qeq_bool_neq in Ea.
      destruct (Qle_bool 0 a) eqn:El.
      * apply Qle_bool_iff in El. apply ratio_plus_infinity; [exact Eb|].
        apply Qle_lteq in El. destruct El as [El|El]; [exact El|].
        exfalso. apply Ea. now symmetry.
      * apply ratio_minus_infinity; [exact Eb|].
        apply Qnot_le_lt. intros H. apply Qle_bool_iff in H. congruence.
  - apply Qeq_bool_neq in Eb. now apply ratio_number.
Qed.

Lemma times_1e6_is (x : fval) : is_times_1e6 x (times_1e6 x).
Proof. destruct x; constructor. Qed.

Lemma fle_refl (x : fval) : x <> NaN -> fle x x.
Proof. destruct x; simpl; try tauto. intros _. apply Qle_refl. Qed.

Lemma fle_trans (x z w : fval) : fle x z -> fle z w -> fle x w.
Proof.
  destruct x, z, w; simpl; try tauto. apply Qle_trans.
Qed.

Lemma fmax2_nan (a b : fval) : fmax2 a b = NaN -> a = NaN /\ b = NaN.
Proof. destruct a, b; simpl; try discriminate; auto. Qed.

Lemma fmax2_cases (a b : fval) : fmax2 a b = a \/ fmax2 a b = b.
Proof.
  destruct a as [p| | |], b as [q| | |]; simpl; auto.
  destruct (Qmax_cases p q) as [E|E]; rewrite E; auto.
Qed.

Lemma fmax2_upper (a b : fval) :
  (a = NaN \/ fle a (fmax2 a b)) /\ (b = NaN \/ fle b (fmax2 a b)).
Proof.
  destruct a as [p| | |], b as [q| | |]; simpl;
    (split;
     [first [left; reflexivity
            |right; first [exact I|apply Qle_refl|apply Q.le_max_l]]
     |first [left; reflexivity
            |right; first [exact I|apply Qle_refl|apply Q.le_max_r]]]).
Qed.

Lemma fold_fmax2_largest (l : list fval) :
  forall acc,
    (fold_left fmax2 l acc = NaN
     /\ acc = NaN /\ Forall (fun z => z = NaN) l)
    \/ (fold_left fmax2 l acc <> NaN
        /\ (fold_left fmax2 l acc = acc \/ In (fold_left fmax2 l acc) l)
        /\ (acc = NaN \/ fle acc (fold_left fmax2 l acc))
        /\ Forall (fun z => z = NaN \/ fle z (fold_left fmax2 l acc)) l).
Proof.
  induction l as [|x l IH]; intros acc; cbn [fold_left].
  - destruct acc as [q| | |].
    + right. split; [discriminate|]. split; [now left|].
      split; [right; apply Qle_refl|constructor].
    + right. split; [discriminate|]. split; [now left|].
      split; [right; exact I|constructor].
    + right. split; [discriminate|]. split; [now left|].
      split; [right; exact I|constructor].
    + left. auto.
  - destruct (IH (fmax2 acc x)) as [(Hr & Ha & Hl)|(Hr & Hin & Hacc & Hl)].
    + left. apply fmax2_nan in Ha. destruct Ha as [-> ->].
      split; [exact Hr|]. split; [reflexivity|]. now constructor.
    + right. split; [exact Hr|].
      destruct (fmax2_upper acc x) as [U1 U2].
      destruct Hacc as [Hacc|Hm].
      * destruct (fmax2_nan _ _ Hacc) as [-> ->].
        split; [|split; [now left|constructor; [now left|exact Hl]]].
        destruct Hin as [Hin|Hin]; [|right; now right].
        rewrite Hin in Hr. contradiction.
      * split; [|split].
        -- destruct Hin as [Hin|Hin]; [|right; now right].
           rewrite Hin. destruct (fmax2_cases acc x) as [E|E]; rewrite E.
           ++ now left.
           ++ right. now left.
        -- destruct U1 as [U1|U1]; [now left|right].
           exact (fle_trans _ _ _ U1 Hm).
        -- constructor; [|exact Hl].
           destruct U2 as [U2|U2]; [now left|right].
           exact (fle_trans _ _ _ U2 Hm).
Qed.

Lemma series_fmax_largest (l : list fval) : is_largest l (series_fmax l).
Proof.
  unfold series_fmax, is_largest.
  destruct (fold_fmax2_largest l NaN)
    as [(Hr & _ & Hl)|(Hr & Hin & _ & Hl)].
  - left. auto.
  - right. split; [exact Hr|]. split; [|exact Hl].
    destruct Hin as [Hin|Hin]; [contradiction|exact Hin].
Qed.

(** ** The aggregated tables *)

Lemma filter_renamed (C : Type) (rmap : list (string * string)) (A : string)
      (cs : list (string * list C)) :
  filter (fun c => String.eqb (fst c) A)
         (map (fun c => (rename_label rmap (fst c), snd c)) cs)
  = map (fun c => (rename_label rmap (fst c), snd c))
        (filter (fun c => String.eqb (rename_label rmap (fst c)) A) cs).
Proof.
  induction cs as [|c cs IH]; cbn [map filter fst]; [reflexivity|].
  destruct (String.eqb (rename_label rmap (fst c)) A); cbn [map];
    now rewrite IH.
Qed.

(** The hourly value of an aggregate region is the sum of the hourly values
    of the columns that the aggregation maps to it. *)
Lemma aggregate_hourly (I : Type) (rmap : list (string * string))
      (f : Frame I Q) (A : string) (i : nat) :
  well_formed f ->
  In A (map fst (cols (groupby_columns_sum (rename_columns rmap f)))) ->
  match col_lookup A (cols (groupby_columns_sum (rename_columns rmap f))) with
  | Some col => nth i col 0
  | None => 0
  end
  == Qsum (map (fun c => nth i (snd c) 0)
               (filter (fun c => String.eqb (rename_label rmap (fst c)) A)
                       (cols f))).
Proof.
  intros Wf HA.
  pose proof (@rename_columns_wf _ _ rmap f Wf) as Wr.
  unfold groupby_columns_sum in *. cbn [cols index] in *.
  rewrite map_map in HA. cbn [fst] in HA. rewrite map_id in HA.
  rewrite (col_lookup_tabulate
             (fun nm =>
                sum_columns
                  (length (index (rename_columns rmap f)))
                  (map snd (filter (fun c => String.eqb (fst c) nm)
                                   (cols (rename_columns rmap f))))) A _ HA).
  rewrite nth_sum_columns.
  - unfold rename_columns. cbn [cols]. rewrite filter_renamed.
    rewrite !map_map. cbn [snd]. reflexivity.
  - apply Forall_map. apply Forall_forall. intros c Hc.
    apply filter_In in Hc. unfold well_formed in Wr.
    rewrite Forall_forall in Wr. apply Wr. tauto.
Qed.

Lemma get_pras_eue_wf (inp : Inputs) (dfeue : Frame Timestamp Q) :
  well_formed (dfpras inp) -> get_pras_eue inp = Ok dfeue ->
  well_formed dfeue.
Proof.
  intros Wp. unfold get_pras_eue.
  destruct (set_index (timeindex inp) (dfpras inp)) as [df|] eqn:E;
    cbn [bind]; [|discriminate].
  intros [= <-].
  pose proof (@set_index_wf _ _ _ _ _ _ E Wp) as Hdf.
  unfold well_formed in *. cbn [cols index].
  apply Forall_map. apply Forall_forall. intros c Hc. cbn [snd].
  apply filter_In in Hc. rewrite Forall_forall in Hdf. apply Hdf. tauto.
Qed.

(** ** The two aggregations over the day *)

(** C2.  With the metric NEUE, the value of a day [D] and an aggregate region
    [A] is, under [sum], the ratio of the unserved energy of the region
    summed over the hours of the day to its load summed over these hours,
    times 1e6; under [max] it is the largest of the hourly ratios of the
    two over the hours of the day, times 1e6.  The hourly unserved energy
    and load of the aggregate region are the sums over the regions that the
    hierarchy maps to it.  Where the load of every hour of the day is
    positive the two values are numbers: the first is the quotient of the
    two sums times 1000000, the second is [e / l * 1000000] for one hour of
    the day and is not below it for any.  And there is an input on which
    the two differ for the same day and region: 25000 under [sum] and
    100000 under [max]. *)
Theorem neue_daily_ratio_and_peak :
  (forall (inp : Inputs) (level : string) (rmap : list (string * string))
          (dfeue fe fl : Frame Timestamp Q) (D : Date) (A : string),
      well_formed (dfpras inp) ->
      well_formed (pras_load inp) ->
      get_rmap (hierarchy inp) level = Ok rmap ->
      get_pras_eue inp = Ok dfeue ->
      aggregated_eue inp level = Ok fe ->
      aggregated_load inp level = Ok fl ->
      In D (map date_of (index fe)) ->
      In A (map fst (cols fe)) ->
      In A (map fst (cols fl)) ->
      let e := hourly fe A in
      let l := hourly fl A in
      let hours := day_hours (index fe) D in
      exists (fs fm : Frame Date fval) (vs vm : fval),
        dfmetric_period inp level "NEUE" "sum" = Ok fs
        /\ cell date_eqb fs D A = Some vs
        /\ dfmetric_period inp level "NEUE" "max" = Ok fm
        /\ cell date_eqb fm D A = Some vm
        /\ (exists x,
               is_ratio (Qsum (map e hours)) (Qsum (map l hours)) x
               /\ is_times_1e6 x vs)
        /\ (exists xs x,
               Forall2 (fun i xi => is_ratio (e i) (l i) xi) hours xs
               /\ is_largest xs x
               /\ is_times_1e6 x vm)
        /\ (forall i,
               e i == Qsum (map (fun c => nth i (snd c) 0)
                                (filter (fun c =>
                                           String.eqb
                                             (rename_label rmap (fst c)) A)
                                        (cols dfeue)))
               /\ l i == Qsum (map (fun c => nth i (snd c) 0)
                                  (filter (fun c =>
                                             String.eqb
                                               (rename_label rmap (fst c)) A)
                                          (cols (pras_load inp)))))
        /\ (Forall (fun i => 0 < l i) hours ->
            exists qs qm,
              vs = Fin qs /\ vm = Fin qm
              /\ qs == Qsum (map e hours) / Qsum (map l hours) * 1000000
              /\ Forall (fun i => e i / l i * 1000000 <= qm) hours
              /\ Exists (fun i => qm == e i / l i * 1000000) hours))
  /\ (exists (inp : Inputs) (level : string) (D : Date) (A : string)
             (fs fm : Frame Date fval) (qs qm : Q),
         dfmetric_period inp level "NEUE" "sum" = Ok fs
         /\ cell date_eqb fs D A = Some (Fin qs)
         /\ dfmetric_period inp level "NEUE" "max" = Ok fm
         /\ cell date_eqb fm D A = Some (Fin qm)
         /\ qs == 25000 /\ qm == 100000).
Proof.
  split.
  - intros inp level rmap dfeue fe fl D A Wp Wl Hr Hd He Hl HD HAe HAl
           e l hours.
    pose proof (@aggregated_eue_wf inp level fe Wp He) as Wfe.
    destruct (@aggregated_load_wf inp level fe fl Wl He Hl) as [Wfl Hidx].
    exists (frame_map times_1e6
              (frame_div (groupby_day Qsum fe) (groupby_day Qsum fl))),
           (frame_map times_1e6 (groupby_day series_fmax (frame_div fe fl))),
           (times_1e6 (fdiv (Qsum (map e hours)) (Qsum (map l hours)))),
           (times_1e6 (series_fmax (map (fun i => fdiv (e i) (l i)) hours))).
    split; [exact (@dfmetric_period_neue_sum inp level fe fl He Hl)|].
    split; [exact (@neue_sum_cell fe fl D A Wfe Wfl Hidx HD HAe HAl)|].
    split; [exact (@dfmetric_period_neue_max inp level fe fl He Hl)|].
    split; [exact (@neue_max_cell fe fl D A Wfe Wfl Hidx HD HAe HAl)|].
    split.
    { eexists. split; [apply fdiv_is_ratio|apply times_1e6_is]. }
    split.
    { exists (map (fun i => fdiv (e i) (l i)) hours). eexists.
      split; [|split; [apply series_fmax_largest|apply times_1e6_is]].
      clear. induction hours as [|i hs IH]; cbn [map]; constructor;
        [apply fdiv_is_ratio|exact IH]. }
    split.
    { intros i. unfold e, l, hourly.
      unfold aggregated_eue in He. rewrite Hr, Hd in He. cbn [bind] in He.
      injection He as He.
      unfold aggregated_load in Hl. rewrite Hr in Hl. cbn [bind] in Hl.
      unfold aggregated_eue in Hl. rewrite Hr, Hd in Hl. cbn [bind] in Hl.
      apply set_index_ok in Hl. destruct Hl as (_ & Hc & _).
      rewrite Hc in *. rewrite <- He in *.
      split.
      - apply aggregate_hourly; [|exact HAe].
        exact (get_pras_eue_wf inp dfeue Wp Hd).
      - apply aggregate_hourly; [exact Wl|exact HAl]. }
    intros Hpos.
    assert (Hne : hours <> []).
    { apply day_hours_from_nonempty. exact HD. }
    assert (Hsum : 0 < Qsum (map l hours)).
    { clear -Hpos Hne. induction hours as [|i hs IH]; [congruence|].
      inversion Hpos as [|? ? Hi Hs]; subst. cbn [map]. rewrite Qsum_cons.
      destruct hs as [|j hs']; [cbn; lra|].
      assert (0 < Qsum (map l (j :: hs'))) by (apply IH; [exact Hs|discriminate]).
      lra. }
    assert (Hfd : forall i, In i hours -> fdiv (e i) (l i) = Fin (e i / l i)).
    { intros i Hi. rewrite Forall_forall in Hpos. specialize (Hpos i Hi).
      unfold fdiv. destruct (Qeq_bool (l i) 0) eqn:E; [|reflexivity].
      apply Qeq_bool_iff in E. lra. }
    destruct (series_fmax_largest (map (fun i => fdiv (e i) (l i)) hours))
      as [(_ & Hall)|(Hx & Hin & Hall)].
    { exfalso. destruct hours as [|i hs]; [congruence|].
      cbn [map] in Hall. inversion Hall as [|? ? H1 _]; subst.
      rewrite Hfd in H1 by now left. discriminate H1. }
    apply in_map_iff in Hin. destruct Hin as (j & Hj & Hjin).
    rewrite (Hfd j Hjin) in Hj.
    exists (Qsum (map e hours) / Qsum (map l hours) * 1000000),
           (e j / l j * 1000000).
    split.
    { unfold fdiv. destruct (Qeq_bool (Qsum (map l hours)) 0) eqn:E;
        [|reflexivity].
      apply Qeq_bool_iff in E. lra. }
    split; [rewrite <- Hj; reflexivity|].
    split; [reflexivity|]. split.
    + apply Forall_forall. intros i Hi.
      rewrite Forall_forall in Hall.
      destruct (Hall (fdiv (e i) (l i))) as [H|H].
      { apply in_map_iff. now exists i. }
      { rewrite (Hfd i Hi) in H. discriminate H. }
      rewrite <- Hj, (Hfd i Hi) in H. cbn [fle] in H.
      apply Qmult_le_compat_r; [exact H|lra].
    + apply Exists_exists. exists j. split; [exact Hjin|reflexivity].
  - exists StressPeriodsExamples.two_days, "st"%string,
           (2012, 7, 1)%nat, "CA"%string.
    do 4 eexists.
    split; [vm_compute; reflexivity|].
    split; [vm_compute; reflexivity|].
    split; [vm_compute; reflexivity|].
    split; [vm_compute; reflexivity|].
    split; vm_compute; reflexivity.
Qed.

Lemma neue_daily_ratio_and_peak_witness :
  exists (rmap : list (string * string)) (dfeue fe fl : Frame Timestamp Q)
         (fs fm : Frame Date fval) (vs vm : fval),
    get_rmap (hierarchy StressPeriodsExamples.two_days) "st" = Ok rmap
    /\ get_pras_eue StressPeriodsExamples.two_days = Ok dfeue
    /\ aggregated_eue StressPeriodsExamples.two_days "st" = Ok fe
    /\ aggregated_load StressPeriodsExamples.two_days "st" = Ok fl
    /\ dfmetric_period StressPeriodsExamples.two_days "st" "NEUE" "sum"
       = Ok fs
    /\ cell date_eqb fs (2012, 7, 1)%nat "CA" = Some vs
    /\ dfmetric_period StressPeriodsExamples.two_days "st" "NEUE" "max"
       = Ok fm
    /\ cell date_eqb fm (2012, 7, 1)%nat "CA" = Some vm
    /\ (exists x,
           is_ratio
             (Qsum (map (hourly fe "CA")
                        (day_hours (index fe) (2012, 7, 1)%nat)))
             (Qsum (map (hourly fl "CA")
                        (day_hours (index fe) (2012, 7, 1)%nat)))
             x
           /\ is_times_1e6 x vs)
    /\ (exists xs x,
           Forall2 (fun i xi =>
                      is_ratio (hourly fe "CA" i) (hourly fl "CA" i) xi)
                   (day_hours (index fe) (2012, 7, 1)%nat) xs
           /\ is_largest xs x
           /\ is_times_1e6 x vm).
Proof.
  set (none := {| index := @nil Timestamp; cols := @nil (string * list Q) |}).
  set (rmap := match get_rmap (hierarchy StressPeriodsExamples.two_days)
                              "st" with
               | Ok x => x
               | Raise _ => []
               end).
  set (dfeue := match get_pras_eue StressPeriodsExamples.two_days with
                | Ok x => x
                | Raise _ => none
                end).
  set (fe := match aggregated_eue StressPeriodsExamples.two_days "st" with
             | Ok x => x
             | Raise _ => none
             end).
  set (fl := match aggregated_load StressPeriodsExamples.two_days "st" with
             | Ok x => x
             | Raise _ => none
             end).
  exists rmap, dfeue, fe, fl.
  destruct (proj1 neue_daily_ratio_and_peak
                  StressPeriodsExamples.two_days "st"%string
                  rmap dfeue fe fl (2012, 7, 1)%nat "CA"%string)
    as (fs & fm & vs & vm & H1 & H2 & H3 & H4 & H5 & H6 & _).
  - repeat constructor.
  - repeat constructor.
  - vm_compute. reflexivity.
  - vm_compute. reflexivity.
  - vm_compute. reflexivity.
  - vm_compute. reflexivity.
  - simpl. tauto.
  - simpl. tauto.
  - simpl. tauto.
  - exists fs, fm, vs, vm.
    split; [vm_compute; reflexivity|]. split; [vm_compute; reflexivity|].
    split; [vm_compute; reflexivity|]. split; [vm_compute; reflexivity|].
    split; [exact H1|]. split; [exact H2|]. split; [exact H3|].
    split; [exact H4|]. split; [exact H5|exact H6].
Defined.

End NeueFacts.

(** * Further facts on dictionaries and on the annual NEUE *)

Module DictFacts.
Import Orchestrator.

Section Dict.
Variables K V : Type.
Variable eqb : K -> K -> bool.
Hypothesis eqb_eq : forall a b, eqb a b = true <-> a = b.

Lemma eqb_neq (a b : K) : a <> b -> eqb a b = false.
Proof.
  intros H. destruct (eqb a b) eqn:E; [|reflexivity].
  apply eqb_eq in E. contradiction.
Qed.

Lemma dict_get_set_same (k : K) (v : V) (d : dict K V) :
  dict_get eqb k (dict_set eqb k v d) = Some v.
Proof.
  unfold dict_get. induction d as [|[k0 v0] d IH]; simpl.
  - rewrite (proj2 (eqb_eq k k) eq_refl). reflexivity.
  - destruct (eqb k0 k) eqn:E; simpl; rewrite E; [reflexivity|exact IH].
Qed.

Lemma dict_get_set_other (k k' : K) (v : V) (d : dict K V) :
  k <> k' -> dict_get eqb k (dict_set eqb k' v d) = dict_get eqb k d.
Proof.
  intros Hne. unfold dict_get. induction d as [|[k0 v0] d IH]; simpl.
  - rewrite eqb_neq by congruence. reflexivity.
  - destruct (eqb k0 k') eqn:E; simpl.
    + apply eqb_eq in E. subst k0.
      rewrite (eqb_neq k' k) by congruence. reflexivity.
    + destruct (eqb k0 k); [reflexivity|exact IH].
Qed.

Lemma dict_get_keys (k : K) (d : dict K V) :
  dict_get eqb k d = None <-> ~ In k (dict_keys d).
Proof.
  unfold dict_get, dict_keys. induction d as [|[k0 v0] d IH]; simpl.
  - tauto.
  - destruct (eqb k0 k) eqn:E.
    + apply eqb_eq in E. split; [discriminate|]. intros H. exfalso. auto.
    + split.
      * intros H [H0|H0].
        -- apply eqb_eq in H0. congruence.
        -- now apply IH in H.
      * intros H. apply IH. tauto.
Qed.
End Dict.

Lemma key2_eqb_iff (a b : string * string) : key2_eqb a b = true <-> a = b.
Proof.
  split; [apply OrchestratorFacts.key2_eqb_eq|].
  intros <-. unfold key2_eqb. now rewrite !String.eqb_refl.
Qed.

End DictFacts.

Module AnnualNeueFacts.
Import Pandas PandasFacts StressPeriods StressPeriodsFacts.
Import Orchestrator OrchestratorFacts DictFacts NeueFacts.

(** The aggregation of a table to a level, as [get_annual_neue] and
    [get_stress_periods] write it. *)
Abbreviation aggregate rmap f :=
  (groupby_columns_sum (rename_columns rmap f)).

Lemma annual_neue_levels_lookup
      (inp : Inputs) (e l : Frame Timestamp Q) (ls : list string) :
  forall (acc neue : neue_table),
    annual_neue_levels inp e l ls acc = Ok neue ->
    (forall level,
        In level ls ->
        exists rmap,
          get_rmap (hierarchy inp) level = Ok rmap
          /\ dict_get key2_eqb (level, "sum"%string) neue
             = Some (annual_sum (aggregate rmap e) (aggregate rmap l))
          /\ dict_get key2_eqb (level, "max"%string) neue
             = Some (annual_max (aggregate rmap e) (aggregate rmap l)))
    /\ (forall level method,
           ~ In level ls
           \/ (method <> "sum"%string /\ method <> "max"%string) ->
           dict_get key2_eqb (level, method) neue
           = dict_get key2_eqb (level, method) acc).
Proof.
  induction ls as [|lv ls IH]; intros acc neue H;
    cbn [annual_neue_levels] in H.
  - injection H as <-. split; [intros level []|reflexivity].
  - bind_ok H. rename a into rmap.
    destruct (IH _ _ H) as [IH1 IH2]. clear IH.
    split.
    + intros level Hin.
      destruct (in_dec string_dec level ls) as [Hl|Hl]; [now apply IH1|].
      destruct Hin as [<-|Hin]; [|contradiction].
      exists rmap. split; [exact E|].
      rewrite !IH2 by now left.
      split.
      * rewrite (dict_get_set_other _ _ key2_eqb key2_eqb_iff)
          by discriminate.
        apply (dict_get_set_same _ _ key2_eqb key2_eqb_iff).
      * apply (dict_get_set_same _ _ key2_eqb key2_eqb_iff).
    + intros level method Hc.
      rewrite IH2 by (simpl in Hc; tauto).
      rewrite !(dict_get_set_other _ _ key2_eqb key2_eqb_iff);
        [reflexivity| |]; intros Heq; injection Heq as H1 H2;
        simpl in Hc; destruct Hc as [Hc|[Hc1 Hc2]]; auto.
Qed.

(** X6.  The annual NEUE that [get_annual_neue] returns for a level of the
    list and a region [A] of that level with unserved energy and load: under
    [sum] it is the ratio of the unserved energy of the region summed over
    all hours to its load summed over all hours, times 1e6, and under [max]
    the largest hourly ratio of the two, times 1e6; each is the one value
    listed for the region, and the hourly unserved energy of the region is
    the sum over the zones that the hierarchy maps to it. *)
Theorem annual_neue_of_a_region
        (inp : Inputs) (neue : neue_table) (level A : string) :
  well_formed (dfpras inp) ->
  get_annual_neue inp = Ok neue ->
  In level levels ->
  exists rmap dfeue dfload,
    get_rmap (hierarchy inp) level = Ok rmap
    /\ get_pras_eue inp = Ok dfeue
    /\ set_index (index dfeue) (pras_load inp) = Ok dfload
    /\ forall ce cl,
        col_lookup A (cols (aggregate rmap dfeue)) = Some ce ->
        col_lookup A (cols (aggregate rmap dfload)) = Some cl ->
        exists ssum smax vs vm,
          neue_lookup neue level "sum" = Ok ssum
          /\ neue_lookup neue level "max" = Ok smax
          /\ In (A, vs) ssum /\ (forall v, In (A, v) ssum -> v = vs)
          /\ In (A, vm) smax /\ (forall v, In (A, v) smax -> v = vm)
          /\ (exists x, is_ratio (Qsum ce) (Qsum cl) x /\ is_times_1e6 x vs)
          /\ (exists xs x,
                 Forall2 (fun p xi => is_ratio (fst p) (snd p) xi)
                         (combine ce cl) xs
                 /\ is_largest xs x
                 /\ is_times_1e6 x vm)
          /\ forall i,
              nth i ce 0
              == Qsum (map (fun c => nth i (snd c) 0)
                           (filter (fun c =>
                                      String.eqb (rename_label rmap (fst c))
                                                 A)
                                   (cols dfeue))).
Proof.
  intros Wp H Hin. unfold get_annual_neue in H.
  bind_ok H. rename a into dfeue. bind_ok H. rename a into dfload.
  destruct (annual_neue_levels_lookup _ _ _ _ _ _ H) as [H1 _].
  destruct (H1 level Hin) as (rmap & Hr & Hs & Hm).
  exists rmap, dfeue, dfload.
  split; [exact Hr|]. split; [reflexivity|]. split; [exact E0|].
  intros ce cl Hce Hcl.
  set (fe := aggregate rmap dfeue) in *.
  set (fl := aggregate rmap dfload) in *.
  assert (Hu : In A (sort_values String.leb
                       (unique String.eqb
                          (map fst (cols fe) ++ map fst (cols fl))))).
  { apply sort_values_In. apply unique_In; [apply String.eqb_eq|].
    apply in_or_app. left. exact (col_lookup_label _ _ Hce). }
  exists (annual_sum fe fl), (annual_max fe fl),
         (times_1e6 (fdiv (Qsum ce) (Qsum cl))),
         (times_1e6
            (series_fmax (map (fun p => fdiv (fst p) (snd p))
                              (combine ce cl)))).
  unfold neue_lookup. rewrite Hs, Hm.
  split; [reflexivity|]. split; [reflexivity|].
  split.
  { unfold annual_sum. apply in_map_iff. exists A.
    rewrite Hce, Hcl. split; [reflexivity|exact Hu]. }
  split.
  { intros v Hv. unfold annual_sum in Hv. apply in_map_iff in Hv.
    destruct Hv as (nm & Heq & _).
    assert (Hn : nm = A) by exact (f_equal fst Heq). subst nm.
    apply (f_equal snd) in Heq. cbn [snd] in Heq.
    rewrite Hce, Hcl in Heq. now symmetry. }
  split.
  { unfold annual_max, frame_div. cbn [cols]. rewrite map_map. cbn [fst snd].
    apply in_map_iff. exists A.
    rewrite Hce, Hcl. split; [reflexivity|exact Hu]. }
  split.
  { intros v Hv. unfold annual_max, frame_div in Hv. cbn [cols] in Hv.
    rewrite map_map in Hv. cbn [fst snd] in Hv. apply in_map_iff in Hv.
    destruct Hv as (nm & Heq & _).
    assert (Hn : nm = A) by exact (f_equal fst Heq). subst nm.
    apply (f_equal snd) in Heq. cbn [snd] in Heq.
    rewrite Hce, Hcl in Heq. now symmetry. }
  split.
  { eexists. split; [apply fdiv_is_ratio|apply times_1e6_is]. }
  split.
  { exists (map (fun p => fdiv (fst p) (snd p)) (combine ce cl)). eexists.
    split; [|split; [apply series_fmax_largest|apply times_1e6_is]].
    clear. induction (combine ce cl) as [|p ps IH]; cbn [map]; constructor;
      [apply fdiv_is_ratio|exact IH]. }
  intros i.
  pose proof (aggregate_hourly _ rmap dfeue A i
                               (get_pras_eue_wf inp dfeue Wp E)
                               (col_lookup_label _ _ Hce)) as Hh.
  fold fe in Hh. rewrite Hce in Hh. exact Hh.
Qed.

Lemma annual_neue_of_a_region_witness :
  exists ssum smax vs vm,
    neue_lookup OrchestratorExamples.annual_neue_three_days "st" "sum"
    = Ok ssum
    /\ neue_lookup OrchestratorExamples.annual_neue_three_days "st" "max"
       = Ok smax
    /\ In ("CA"%string, vs) ssum
    /\ In ("CA"%string, vm) smax
    /\ (exists x,
           is_ratio (Qsum (OrchestratorExamples.column
                             72 0 [(29%nat, 10); (49%nat, 1)]))
                    (Qsum (OrchestratorExamples.column 72 200 []))
                    x
           /\ is_times_1e6 x vs).
Proof.
  destruct (annual_neue_of_a_region
              (inputs OrchestratorExamples.three_days)
              OrchestratorExamples.annual_neue_three_days "st" "CA")
    as (rmap & dfeue & dfload & Hr & Hd & Hl & Hall).
  - repeat constructor.
  - vm_compute. reflexivity.
  - simpl. tauto.
  - injection Hr as <-.
    assert (Hd' : dfeue = match get_pras_eue
                                  (inputs OrchestratorExamples.three_days)
                          with
                          | Ok f => f
                          | Raise _ => dfeue
                          end) by now rewrite Hd.
    assert (Hl' : dfload
                  = {| index := index dfeue;
                       cols := cols (pras_load
                                       (inputs
                                          OrchestratorExamples.three_days))
                    |}).
    { unfold set_index in Hl. destruct (Nat.eqb _ _); [|discriminate].
      now injection Hl. }
    destruct (Hall (OrchestratorExamples.column
                      72 0 [(29%nat, 10); (49%nat, 1)])
                   (OrchestratorExamples.column 72 200 []))
      as (ssum & smax & vs & vm & H1 & H2 & H3 & _ & H5 & _ & H7 & _).
    + rewrite Hd'. vm_compute. reflexivity.
    + rewrite Hl', Hd'. vm_compute. reflexivity.
    + exists ssum, smax, vs, vm. auto.
Defined.

End AnnualNeueFacts.
(** * Further facts on the selection of new stress periods *)

Module SelectionFacts.
Import Pandas PandasFacts TableFacts StressPeriods StressPeriodsFacts.
Import Orchestrator OrchestratorFacts StressTableFacts Selection.

Lemma filter_all (A : Type) (f : A -> bool) (l : list A) :
  (forall x, In x l -> f x = true) -> filter f l = l.
Proof.
  induction l as [|a l IH]; intros H; simpl; [reflexivity|].
  rewrite (H a) by now left. f_equal. apply IH. intros x Hx. apply H.
  now right.
Qed.

Lemma filter_filter (A : Type) (p q : A -> bool) (l : list A) :
  filter p (filter q l) = filter (fun a => p a && q a) l.
Proof.
  induction l as [|a l IH]; simpl; [reflexivity|].
  destruct (q a); simpl.
  - rewrite andb_true_r. destruct (p a); now rewrite IH.
  - now rewrite andb_false_r.
Qed.

Lemma NoDup_map_filter (A K : Type) (key : A -> K) (f : A -> bool)
      (l : list A) :
  NoDup (map key l) -> NoDup (map key (filter f l)).
Proof.
  induction l as [|a l IH]; simpl; intros H; [constructor|].
  inversion H as [|? ? Hn Hd]; subst.
  destruct (f a); simpl; [|now apply IH].
  constructor; [|now apply IH].
  intros Hin. apply Hn. apply in_map_iff in Hin.
  destruct Hin as (b & Hb & Hin). apply filter_In in Hin.
  apply in_map_iff. exists b. tauto.
Qed.

(** [drop_duplicates] drops nothing from a table whose keys differ. *)
Lemma unique_NoDup_id (A K : Type) (keqb : K -> K -> bool) (key : A -> K)
      (l : list A) :
  (forall a b, keqb a b = true <-> a = b) ->
  NoDup (map key l) ->
  unique (fun a b => keqb (key a) (key b)) l = l.
Proof.
  intros keqb_eq. induction l as [|a l IH]; simpl; intros H; [reflexivity|].
  inversion H as [|? ? Hn Hd]; subst.
  rewrite (IH Hd). f_equal. apply filter_all.
  intros x Hx. apply negb_true_iff.
  destruct (keqb (key x) (key a)) eqn:E; [|reflexivity].
  apply keqb_eq in E. exfalso. apply Hn. rewrite <- E.
  now apply in_map.
Qed.

(** [groupby('r').head(n)] keeps of every region the first [n] rows. *)
Lemma groupby_head_region (n : nat) (k : string) (rest : list period_row) :
  forall before,
    filter (fun a => String.eqb (r a) k) (groupby_head n before rest)
    = firstn (n - length (group_of String.eqb r k before))
             (filter (fun a => String.eqb (r a) k) rest).
Proof.
  induction rest as [|a rest IH]; intros before; cbn [groupby_head filter].
  - now rewrite firstn_nil.
  - pose proof (IH (before ++ [a])) as IH'.
    unfold group_of in *. rewrite filter_app, length_app in IH'.
    cbn [filter] in IH'.
    destruct (String.eqb (r a) k) eqn:E.
    + apply String.eqb_eq in E. subst k. cbn [length] in IH'.
      destruct (Nat.ltb (length (filter (fun b => String.eqb (r b) (r a))
                                        before)) n) eqn:L.
      * apply Nat.ltb_lt in L.
        cbn [filter]. rewrite String.eqb_refl. rewrite IH'.
        replace (n - length (filter (fun b => String.eqb (r b) (r a))
                                    before))%nat
          with (S (n - (length (filter (fun b => String.eqb (r b) (r a))
                                       before) + 1)))
          by lia.
        reflexivity.
      * apply Nat.ltb_ge in L. rewrite IH'.
        replace (n - (length (filter (fun b => String.eqb (r b) (r a))
                                     before) + 1))%nat
          with 0%nat by lia.
        replace (n - length (filter (fun b => String.eqb (r b) (r a))
                                    before))%nat
          with 0%nat by lia.
        reflexivity.
    + cbn [length] in IH'. rewrite Nat.add_0_r in IH'.
      destruct (Nat.ltb _ n); cbn [filter]; rewrite ?E; exact IH'.
Qed.

Abbreviation by_metric :=
  (fun a b : period_row => fle_bool (metric b) (metric a)).
Abbreviation date_of_row := (fun a : period_row => (y a, m a, d a)).

Lemma dfmetric_top_dates (co : Collaborators) (hourly_type : string)
      (f : Frame Date fval) :
  NoDup (map date_of_row (dfmetric_top co hourly_type f)).
Proof.
  unfold dfmetric_top. rewrite map_map. simpl.
  pose proof (unique_keys_NoDup
                _ _ date_eqb
                (fun a : Date * string * fval => fst (fst a))
                date_eqb_eq
                (filter nonzero (sort_values by_value (stack f)))) as H.
  erewrite map_ext; [exact H|].
  intros [[[[yy mm] dd] reg] v]. reflexivity.
Qed.

Lemma dfmetric_top_not_nan (co : Collaborators) (hourly_type : string)
      (f : Frame Date fval) :
  Forall (fun a => is_nan (metric a) = false)
         (dfmetric_top co hourly_type f).
Proof.
  apply Forall_forall. intros row Hrow.
  destruct (dfmetric_top_rows _ _ _ _ Hrow) as (e & He & _ & _ & Hv).
  rewrite <- Hv. apply top_entries_In in He. tauto.
Qed.

(** X7.  The periods a failing criterion adds are, for every region, the
    first [GSw_PRM_StressIncrement] eligible rows of the region in the
    table of [get_stress_periods] sorted by descending metric, hence its
    worst eligible days; no day is added twice, and the removal of repeated
    dates in [main] finds nothing to remove. *)
Theorem selected_periods_worst_per_region
        (co : Collaborators) (sw : Switches) (data : CaseData)
        (hierarchy_level stress_metric period_agg_method : string)
        (tbl : list period_row) (failed_c : list (string * fval)) :
  get_stress_periods co (inputs data) (GSw_HourlyType sw)
                     hierarchy_level stress_metric period_agg_method
  = Ok tbl ->
  let sorted := sort_values by_metric tbl in
  let rows := select_periods sw data sorted failed_c in
  StronglySorted (fun a b => by_metric a b = true) sorted
  /\ unique ymd_eqb (filter (eligible data failed_c) sorted)
     = filter (eligible data failed_c) sorted
  /\ (forall k,
         filter (fun a => String.eqb (r a) k) rows
         = firstn (GSw_PRM_StressIncrement sw)
                  (filter (fun a => String.eqb (r a) k
                                    && eligible data failed_c a)
                          sorted))
  /\ NoDup (map date_of_row rows).
Proof.
  intros H sorted rows.
  unfold get_stress_periods in H. bind_ok H. rename a into f.
  bind_ok H. destruct a; [|discriminate H]. injection H as <-.
  assert (Hnan : Forall (fun a => is_nan (metric a) = false)
                        (dfmetric_top co (GSw_HourlyType sw) f))
    by apply dfmetric_top_not_nan.
  assert (Hd : NoDup (map date_of_row sorted)).
  { apply (Permutation_NoDup
             (Permutation_map
                date_of_row
                (Permutation_sym
                   (sort_values_perm by_metric
                                     (dfmetric_top co (GSw_HourlyType sw)
                                                   f))))).
    apply dfmetric_top_dates. }
  assert (Hu : unique ymd_eqb (filter (eligible data failed_c) sorted)
               = filter (eligible data failed_c) sorted).
  { apply (unique_NoDup_id _ _ date_eqb date_of_row _ date_eqb_eq).
    now apply NoDup_map_filter. }
  split; [|split; [exact Hu|split]].
  - apply sort_values_sorted_on
      with (P := fun a : period_row => is_nan (metric a) = false).
    + intros a b Pa Pb. now apply fle_bool_total.
    + intros a b c Pa Pb Pc H1 H2.
      now apply (fle_bool_trans (metric c) (metric b) (metric a)).
    + exact Hnan.
  - intros k. unfold rows, select_periods.
    change (fun a : period_row =>
              isin (r a) (map fst failed_c)
              && negb (isin (actual_period a)
                            (stressperiods_this_iteration data)))
      with (eligible data failed_c).
    rewrite Hu, groupby_head_region. cbn [group_of filter length].
    rewrite Nat.sub_0_r, filter_filter. reflexivity.
  - unfold rows, select_periods.
    change (fun a : period_row =>
              isin (r a) (map fst failed_c)
              && negb (isin (actual_period a)
                            (stressperiods_this_iteration data)))
      with (eligible data failed_c).
    rewrite Hu.
    assert (Hf : NoDup (map date_of_row
                            (filter (eligible data failed_c) sorted)))
      by now apply NoDup_map_filter.
    revert Hf. generalize (filter (eligible data failed_c) sorted).
    generalize (@nil period_row).
    intros before l. revert before.
    induction l as [|a l IH]; intros before Hl; cbn [groupby_head].
    + constructor.
    + inversion Hl as [|? ? Hn Hl']; subst.
      destruct (Nat.ltb _ _); [|now apply IH].
      cbn [map]. constructor; [|now apply IH].
      intros Hin. apply Hn. apply in_map_iff in Hin.
      destruct Hin as (b & Hb & Hin). apply groupby_head_incl in Hin.
      apply in_map_iff. now exists b.
Qed.

Lemma selected_periods_worst_per_region_witness :
  filter (fun a => String.eqb (r a) "CA")
         (select_periods
            OrchestratorExamples.switches OrchestratorExamples.three_days
            (sort_values
               by_metric
               (dfmetric_top
                  OrchestratorExamples.collaborators "day"
                  (match dfmetric_period
                           (inputs OrchestratorExamples.three_days)
                           "st" "EUE" "sum" with
                   | Ok f => f
                   | Raise _ => {| index := []; cols := [] |}
                   end)))
            [("CA"%string, Fin 1)])
  = firstn 1
      (filter (fun a => String.eqb (r a) "CA"
                        && eligible OrchestratorExamples.three_days
                                    [("CA"%string, Fin 1)] a)
              (sort_values
                 by_metric
                 (dfmetric_top
                    OrchestratorExamples.collaborators "day"
                    (match dfmetric_period
                             (inputs OrchestratorExamples.three_days)
                             "st" "EUE" "sum" with
                     | Ok f => f
                     | Raise _ => {| index := []; cols := [] |}
                     end)))).
Proof.
  refine (proj1 (proj2 (proj2
            (selected_periods_worst_per_region
               OrchestratorExamples.collaborators
               OrchestratorExamples.switches
               OrchestratorExamples.three_days
               "st" "EUE" "sum" _ [("CA"%string, Fin 1)] _))) "CA"%string).
  vm_compute. reflexivity.
Defined.

End SelectionFacts.
(** * Further facts on the criterion loop *)

Module LoopFacts.
Import Pandas PandasFacts StressPeriods StressPeriodsFacts.
Import Orchestrator OrchestratorFacts DictFacts.

Abbreviation by_metric :=
  (fun a b : period_row => fle_bool (metric b) (metric a)).

Lemma string_eqb_iff (a b : string) : String.eqb a b = true <-> a = b.
Proof. apply String.eqb_eq. Qed.

Section Passing.
Variable co : Collaborators.
Variable sw : Switches.
Variable data : CaseData.
Variable dfenergy_r : Frame Timestamp Q.
Variable neue : neue_table.

(** A criterion that passes leaves its candidate periods, sorted. *)
Lemma step_pass_table (st : LoopState) (c : string) :
  criterion_passes co sw data neue c ->
  exists tbl,
    candidate_periods co sw data c = Ok tbl
    /\ criterion_step co sw data dfenergy_r neue st c
       = Ok ({| _eue_sorted_periods :=
                  dict_set String.eqb c (sort_values by_metric tbl)
                           (_eue_sorted_periods st);
                failed := failed st;
                high_eue_periods := high_eue_periods st;
                shoulder_periods := shoulder_periods st;
                stdout := stdout st ++ [Passed c] |},
             false).
Proof.
  intros [[tbl Ht] Hth]. exists tbl. split; [exact Ht|].
  unfold criterion_step, candidate_periods, threshold_test in *.
  destruct (split "_" c) as [|lvl [|ppm [|sm [|pam [|x l]]]]];
    try discriminate.
  rewrite Ht. cbn [bind].
  bind_ok Hth. bind_ok Hth. injection Hth as Hth.
  cbn [bind]. rewrite Hth. reflexivity.
Qed.

Lemma loop_all_pass (cs : list string) :
  Forall (criterion_passes co sw data neue) cs ->
  forall st,
  exists st',
    criterion_loop co sw data dfenergy_r neue st cs = Ok st'
    /\ failed st' = failed st
    /\ high_eue_periods st' = high_eue_periods st
    /\ shoulder_periods st' = shoulder_periods st
    /\ stdout st' = stdout st ++ map Passed cs
    /\ (forall c,
           In c cs ->
           exists tbl,
             candidate_periods co sw data c = Ok tbl
             /\ dict_get String.eqb c (_eue_sorted_periods st')
                = Some (sort_values by_metric tbl))
    /\ (forall c,
           ~ In c cs ->
           dict_get String.eqb c (_eue_sorted_periods st')
           = dict_get String.eqb c (_eue_sorted_periods st)).
Proof.
  induction 1 as [|c cs Hc Hcs IH]; intros st.
  - exists st. cbn [criterion_loop map]. rewrite app_nil_r.
    repeat split; auto. intros c [].
  - destruct (step_pass_table st c Hc) as (tbl & Ht & Hs).
    set (st1 := {| _eue_sorted_periods :=
                     dict_set String.eqb c (sort_values by_metric tbl)
                              (_eue_sorted_periods st);
                   failed := failed st;
                   high_eue_periods := high_eue_periods st;
                   shoulder_periods := shoulder_periods st;
                   stdout := stdout st ++ [Passed c] |}) in *.
    destruct (IH st1) as (st' & L & F & Hi & Sh & Out & In1 & Out1).
    exists st'. cbn [criterion_loop]. rewrite Hs. cbn [bind snd fst].
    split; [exact L|]. split; [exact F|]. split; [exact Hi|].
    split; [exact Sh|]. split.
    { rewrite Out. cbn [stdout st1 map]. now rewrite <- app_assoc. }
    split.
    + intros c0 Hin.
      destruct (in_dec string_dec c0 cs) as [Hl|Hl]; [now apply In1|].
      destruct Hin as [<-|Hin]; [|contradiction].
      exists tbl. split; [exact Ht|].
      rewrite (Out1 c Hl). cbn [_eue_sorted_periods st1].
      apply (dict_get_set_same _ _ String.eqb string_eqb_iff).
    + intros c0 Hn. rewrite Out1 by (simpl in Hn; tauto).
      cbn [_eue_sorted_periods st1].
      apply (dict_get_set_other _ _ String.eqb string_eqb_iff).
      simpl in Hn. intros ->. tauto.
Qed.
End Passing.

(** X8.  When every criterion of [GSw_PRM_StressThreshold] passes, [main]
    walks through the whole list: it prints one passed line per criterion in
    the order of the list, [failed] stays empty, no table of new stress
    periods is made, and the sorted candidate periods of every criterion
    are kept under its name. *)
Theorem all_criteria_pass
        (co : Collaborators) (sw : Switches) (t : nat) (data : CaseData)
        (dfenergy_r : Frame Timestamp Q) (neue : neue_table) :
  get_annual_neue (inputs data) = Ok neue ->
  storage_by_region data = Ok dfenergy_r ->
  GSw_PRM_CapCredit sw = false ->
  Nat.ltb t (GSw_StartMarkets sw) = false ->
  Forall (criterion_passes co sw data neue)
         (split "/" (GSw_PRM_StressThreshold sw)) ->
  exists out,
    main co sw t data = Ok (Some out)
    /\ printed out = map Passed (split "/" (GSw_PRM_StressThreshold sw))
    /\ failed_criteria out = []
    /\ new_periods out = None
    /\ forall c,
        In c (split "/" (GSw_PRM_StressThreshold sw)) ->
        exists tbl,
          candidate_periods co sw data c = Ok tbl
          /\ dict_get String.eqb c (eue_sorted_periods out)
             = Some (sort_values by_metric tbl).
Proof.
  intros Hneue Hstor Hcap Hstart Hall.
  destruct (loop_all_pass co sw data dfenergy_r neue _ Hall empty_state)
    as (st' & L & F & Hi & Sh & Out & In1 & _).
  exists (main_output st').
  split.
  { unfold main. rewrite Hneue, Hcap, Hstart, Hstor. cbn [orb bind].
    rewrite L. reflexivity. }
  cbn [main_output printed failed_criteria new_periods eue_sorted_periods].
  split; [exact Out|]. split; [exact F|]. split.
  - unfold new_stress_periods. rewrite F. reflexivity.
  - exact In1.
Qed.

Lemma all_criteria_pass_witness :
  exists out,
    main OrchestratorExamples.collaborators ExtraExamples.lenient_switches
         2030 OrchestratorExamples.three_days
    = Ok (Some out)
    /\ printed out
       = map Passed
             (split "/" (GSw_PRM_StressThreshold
                           ExtraExamples.lenient_switches))
    /\ failed_criteria out = []
    /\ new_periods out = None
    /\ forall c,
        In c (split "/" (GSw_PRM_StressThreshold
                           ExtraExamples.lenient_switches)) ->
        exists tbl,
          candidate_periods OrchestratorExamples.collaborators
                            ExtraExamples.lenient_switches
                            OrchestratorExamples.three_days c
          = Ok tbl
          /\ dict_get String.eqb c (eue_sorted_periods out)
             = Some (sort_values by_metric tbl).
Proof.
  apply (all_criteria_pass
           OrchestratorExamples.collaborators ExtraExamples.lenient_switches
           2030 OrchestratorExamples.three_days
           OrchestratorExamples.storage_three_days
           OrchestratorExamples.annual_neue_three_days).
  - vm_compute. reflexivity.
  - vm_compute. reflexivity.
  - reflexivity.
  - reflexivity.
  - constructor; [|constructor; [|constructor]].
    + split; [eexists|]; vm_compute; reflexivity.
    + split; [eexists|]; vm_compute; reflexivity.
Defined.

End LoopFacts.
(** * Further facts on the shoulder periods *)

Module ShoulderFacts.
Import Pandas PandasFacts StressPeriods StressPeriodsFacts.
Import Orchestrator OrchestratorFacts DictFacts.

(** ** Positions on the time index *)

Lemma index_pos_lt (I : Type) (eqb : I -> I -> bool) (i : I) (idx : list I) :
  forall p, index_pos eqb i idx = Some p -> (p < length idx)%nat.
Proof.
  induction idx as [|j idx IH]; simpl; intros p H; [discriminate|].
  destruct (eqb j i).
  - injection H as <-. lia.
  - destruct (index_pos eqb i idx) as [q|]; [|discriminate].
    injection H as <-. specialize (IH q eq_refl). lia.
Qed.

Lemma py_getitem_nat (A : Type) (l : list A) (n : nat) (t : A) :
  py_getitem l (Z.of_nat n) = Ok t -> nth_error l n = Some t.
Proof.
  unfold py_getitem. cbv zeta.
  assert (E : Z.ltb (Z.of_nat n) 0 = false) by (apply Z.ltb_ge; lia).
  rewrite E. cbv iota. rewrite E, Nat2Z.id.
  destruct (nth_error l n); [|discriminate]. now intros [= ->].
Qed.

(** A position before the start of the index is counted from its end. *)
Lemma py_getitem_back (A : Type) (l : list A) (i ph : nat) (t : A) :
  (i < length l)%nat ->
  py_getitem l (Z.sub (Z.of_nat i) (Z.of_nat ph)) = Ok t ->
  (ph <= i + length l)%nat
  /\ nth_error l ((i + length l - ph) mod length l) = Some t.
Proof.
  intros Hi. unfold py_getitem. cbv zeta.
  destruct (Z.ltb (Z.of_nat i - Z.of_nat ph) 0) eqn:E; cbv iota.
  - apply Z.ltb_lt in E.
    destruct (Z.ltb (Z.of_nat i - Z.of_nat ph + Z.of_nat (length l)) 0)
      eqn:E'; [discriminate|].
    apply Z.ltb_ge in E'.
    replace (Z.to_nat (Z.of_nat i - Z.of_nat ph + Z.of_nat (length l)))
      with (i + length l - ph)%nat by lia.
    destruct (nth_error l (i + length l - ph)) eqn:En; [|discriminate].
    intros [= ->]. split; [lia|].
    rewrite Nat.mod_small by lia. exact En.
  - rewrite E. apply Z.ltb_ge in E.
    replace (Z.to_nat (Z.of_nat i - Z.of_nat ph)) with (i - ph)%nat by lia.
    destruct (nth_error l (i - ph)) eqn:En; [|discriminate].
    intros [= ->]. split; [lia|].
    replace (i + length l - ph)%nat with ((i - ph) + 1 * length l)%nat
      by lia.
    rewrite Nat.Div0.mod_add. rewrite Nat.mod_small by lia. exact En.
Qed.

(** ** The test on the cutoff *)

Lemma cutoff_abs (co : Collaborators) (cutofftype cutoff : string)
      (headspace : Q) (frac day_eue : fval) :
  String.substring 0 3 cutofftype = "abs"%string ->
  cutoff_reached co cutofftype cutoff headspace frac day_eue = Ok true.
Proof.
  intros H. unfold cutoff_reached.
  destruct (String.eqb cutofftype "eue") eqn:E.
  - apply String.eqb_eq in E. subst. discriminate H.
  - rewrite H. reflexivity.
Qed.

Lemma cutoff_unknown (co : Collaborators) (cutofftype cutoff : string)
      (headspace : Q) (frac day_eue : fval) :
  cutofftype <> "eue"%string ->
  String.substring 0 3 cutofftype <> "cap"%string ->
  String.substring 0 3 cutofftype <> "abs"%string ->
  cutoff_reached co cutofftype cutoff headspace frac day_eue = Ok false.
Proof.
  intros H1 H2 H3. unfold cutoff_reached.
  apply String.eqb_neq in H1, H2, H3. now rewrite H1, H2, H3.
Qed.

(** ** One new period *)

Section OneRow.
Variable co : Collaborators.
Variable timeindex : list Timestamp.
Variable dfenergy_agg : Frame Timestamp Q.
Variables criterion stress_metric cutofftype cutoff : string.
Variable periodhours : nat.

Local Abbreviation one_row :=
  (shoulder_row co timeindex dfenergy_agg criterion stress_metric cutofftype
                cutoff periodhours).
Local Abbreviation after_key row :=
  (criterion, String.append "after_" (actual_period row)).
Local Abbreviation before_key row :=
  (criterion, String.append "before_" (actual_period row)).

(** What a period whose region has storage leaves behind. *)
Lemma shoulder_row_shape
      (sh sh' : dict (string * string) (list period_row)) (row : period_row) :
  col_lookup (r row) (cols dfenergy_agg) <> None ->
  one_row sh row = Ok sh' ->
  exists (i : nat) (t0 t_a t_b : Timestamp) (after before : bool),
    hd_error (day_values (index dfenergy_agg) (index dfenergy_agg)
                         (y row, m row, d row)) = Some t0
    /\ index_pos ts_eqb t0 timeindex = Some i
    /\ (periodhours <= i + length timeindex)%nat
    /\ nth_error timeindex ((i + periodhours) mod length timeindex)
       = Some t_a
    /\ nth_error timeindex
                 ((i + length timeindex - periodhours) mod length timeindex)
       = Some t_b
    /\ stress_metric = "EUE"%string
    /\ sh' = put_shoulder before (before_key row) (shoulder_of co row t_b)
               (put_shoulder after (after_key row) (shoulder_of co row t_a)
                             sh)
    /\ (String.substring 0 3 cutofftype = "abs"%string ->
        after = true /\ before = true)
    /\ (cutofftype <> "eue"%string ->
        String.substring 0 3 cutofftype <> "cap"%string ->
        String.substring 0 3 cutofftype <> "abs"%string ->
        after = false /\ before = false).
Proof.
  unfold shoulder_row.
  destruct (col_lookup (r row) (cols dfenergy_agg)) as [col|];
    [intros _|congruence].
  destruct (day_values _ (headspace_MWh col) _) as [|mwh0 mwh];
    [discriminate|].
  destruct (day_values _ (headspace_frac col) _) as [|frac0 frac];
    [discriminate|].
  destruct (day_values _ (index dfenergy_agg) _) as [|t0 ts];
    [discriminate|].
  intros H.
  destruct (String.eqb stress_metric "EUE") eqn:Em;
    cbn [bind] in H; [|discriminate].
  apply String.eqb_eq in Em.
  destruct (index_pos ts_eqb t0 timeindex) as [i|] eqn:Ei;
    cbn [bind] in H; [|discriminate].
  destruct (py_getitem timeindex (Z.of_nat i - Z.of_nat periodhours))
    as [t_b|] eqn:Eb; cbn [bind] in H; [|discriminate].
  destruct (py_getitem timeindex
                       (Z.of_nat ((i + periodhours) mod length timeindex)))
    as [t_a|] eqn:Ea; cbn [bind] in H; [|discriminate].
  destruct (cutoff_reached co cutofftype cutoff (last mwh mwh0)
                           (last frac frac0) (metric row))
    as [after|] eqn:Eaf; cbn [bind] in H; [|discriminate].
  destruct (cutoff_reached co cutofftype cutoff mwh0 frac0 (metric row))
    as [before|] eqn:Ebf; cbn [bind] in H; [|discriminate].
  injection H as <-.
  pose proof (index_pos_lt _ _ _ _ _ Ei) as Hi.
  destruct (py_getitem_back _ _ _ _ _ Hi Eb) as [Hph Hb].
  apply py_getitem_nat in Ea.
  exists i, t0, t_a, t_b, after, before.
  repeat (split; [first [reflexivity|assumption]|]).
  split.
  - intros Habs.
    rewrite (cutoff_abs _ _ _ _ _ _ Habs) in Eaf.
    rewrite (cutoff_abs _ _ _ _ _ _ Habs) in Ebf.
    injection Eaf as <-. injection Ebf as <-. auto.
  - intros H1 H2 H3.
    rewrite (cutoff_unknown _ _ _ _ _ _ H1 H2 H3) in Eaf.
    rewrite (cutoff_unknown _ _ _ _ _ _ H1 H2 H3) in Ebf.
    injection Eaf as <-. injection Ebf as <-. auto.
Qed.

(** X10.  For a new period whose region has storage, the two shoulder days
    are found cyclically on the time index: from the position [i] of the
    first hour of the period, the day after is at [(i + periodhours) mod n]
    and the day before at [(i - periodhours) mod n], so the day before the
    first day is the last day; and what is recorded is at most one entry
    [after_<period>] and one entry [before_<period>] under the criterion. *)
Theorem shoulder_days_are_cyclic
        (sh sh' : dict (string * string) (list period_row))
        (row : period_row) :
  col_lookup (r row) (cols dfenergy_agg) <> None ->
  one_row sh row = Ok sh' ->
  exists (i : nat) (t0 t_a t_b : Timestamp) (after before : bool),
    hd_error (day_values (index dfenergy_agg) (index dfenergy_agg)
                         (y row, m row, d row)) = Some t0
    /\ index_pos ts_eqb t0 timeindex = Some i
    /\ (periodhours <= i + length timeindex)%nat
    /\ nth_error timeindex ((i + periodhours) mod length timeindex)
       = Some t_a
    /\ nth_error timeindex
                 ((i + length timeindex - periodhours) mod length timeindex)
       = Some t_b
    /\ sh' = put_shoulder before (before_key row) (shoulder_of co row t_b)
               (put_shoulder after (after_key row) (shoulder_of co row t_a)
                             sh).
Proof.
  intros Hc H.
  destruct (shoulder_row_shape sh sh' row Hc H)
    as (i & t0 & t_a & t_b & after & before
        & H0 & Hi & Hp & Ha & Hb & _ & Hs & _).
  exists i, t0, t_a, t_b, after, before. auto 7.
Qed.

(** With a cutoff type that starts with [abs], or that is neither [eue] nor
    starts with [cap] or [abs], the cutoff value is not parsed: the body of
    the loop does the same with any other value and any other [float]. *)
Lemma cutoff_value_unread
      (parse : string -> result Q) (cutoff' : string)
      (sh : dict (string * string) (list period_row)) (row : period_row) :
  String.substring 0 3 cutofftype = "abs"%string
  \/ (cutofftype <> "eue"%string
      /\ String.substring 0 3 cutofftype <> "cap"%string
      /\ String.substring 0 3 cutofftype <> "abs"%string) ->
  shoulder_row {| timestamp2h := timestamp2h co;
                  strftime_period := strftime_period co;
                  py_float := parse |}
               timeindex dfenergy_agg criterion stress_metric cutofftype
               cutoff' periodhours sh row
  = one_row sh row.
Proof.
  intros Ht. unfold shoulder_row.
  destruct (col_lookup (r row) (cols dfenergy_agg)) as [col|];
    [|reflexivity].
  destruct (day_values _ (headspace_MWh col) _) as [|mwh0 mwh];
    [reflexivity|].
  destruct (day_values _ (headspace_frac col) _) as [|frac0 frac];
    [reflexivity|].
  destruct (day_values _ (index dfenergy_agg) _) as [|t0 ts];
    [reflexivity|].
  destruct (String.eqb stress_metric "EUE"); cbn [bind]; [|reflexivity].
  destruct (index_pos ts_eqb t0 timeindex) as [i|]; cbn [bind];
    [|reflexivity].
  destruct (py_getitem timeindex (Z.of_nat i - Z.of_nat periodhours))
    as [t_b|]; cbn [bind]; [|reflexivity].
  destruct (py_getitem timeindex
                       (Z.of_nat ((i + periodhours) mod length timeindex)))
    as [t_a|]; cbn [bind]; [|reflexivity].
  destruct Ht as [Habs|(H1 & H2 & H3)].
  - rewrite !(cutoff_abs _ _ _ _ _ _ Habs). reflexivity.
  - rewrite !(cutoff_unknown _ _ _ _ _ _ H1 H2 H3). reflexivity.
Qed.

(** X11.  The type of the storage cutoff decides by itself in two cases.
    With a type that starts with [abs], whenever the body of the loop
    returns for a new period whose region has storage, both shoulder periods
    are recorded, whatever the storage level.  With a type that is neither
    [eue] nor starts with [cap] or [abs], whenever the body returns, nothing
    is recorded.  In both cases the cutoff value is never parsed: the body
    returns or raises the same with any other value.  (The body can still
    raise: for a metric other than EUE, or for a shoulder day beyond the
    start of the time index.) *)
Theorem cutoff_type_decides
        (sh sh' : dict (string * string) (list period_row))
        (row : period_row) :
  col_lookup (r row) (cols dfenergy_agg) <> None ->
  one_row sh row = Ok sh' ->
  (String.substring 0 3 cutofftype = "abs"%string ->
   exists t_a t_b,
     In t_a timeindex /\ In t_b timeindex
     /\ dict_get key2_eqb (after_key row) sh'
        = Some (shoulder_of co row t_a)
     /\ dict_get key2_eqb (before_key row) sh'
        = Some (shoulder_of co row t_b))
  /\ (cutofftype <> "eue"%string ->
      String.substring 0 3 cutofftype <> "cap"%string ->
      String.substring 0 3 cutofftype <> "abs"%string ->
      sh' = sh)
  /\ (String.substring 0 3 cutofftype = "abs"%string
      \/ (cutofftype <> "eue"%string
          /\ String.substring 0 3 cutofftype <> "cap"%string
          /\ String.substring 0 3 cutofftype <> "abs"%string) ->
      forall (parse : string -> result Q) (cutoff' : string),
        shoulder_row {| timestamp2h := timestamp2h co;
                        strftime_period := strftime_period co;
                        py_float := parse |}
                     timeindex dfenergy_agg criterion stress_metric
                     cutofftype cutoff' periodhours sh row
        = Ok sh').
Proof.
  intros Hc H.
  destruct (shoulder_row_shape sh sh' row Hc H)
    as (i & t0 & t_a & t_b & after & before
        & H0 & Hi & Hp & Ha & Hb & _ & Hs & Habs & Hun).
  split; [|split].
  - intros Ht. destruct (Habs Ht) as [-> ->].
    exists t_a, t_b.
    split; [now apply nth_error_In in Ha|].
    split; [now apply nth_error_In in Hb|].
    subst sh'. cbn [put_shoulder]. split.
    + rewrite (dict_get_set_other _ _ key2_eqb key2_eqb_iff)
        by (cbn; discriminate).
      apply (dict_get_set_same _ _ key2_eqb key2_eqb_iff).
    + apply (dict_get_set_same _ _ key2_eqb key2_eqb_iff).
  - intros H1 H2 H3. destruct (Hun H1 H2 H3) as [-> ->].
    exact Hs.
  - intros Ht parse cutoff'.
    rewrite (cutoff_value_unread parse cutoff' sh row Ht). exact H.
Qed.

Lemma day_values_same_length (C C' : Type) (D : Date) (idx : list Timestamp) :
  forall (c : list C) (c' : list C'),
    length c = length idx -> length c' = length idx ->
    length (day_values idx c D) = length (day_values idx c' D).
Proof.
  unfold day_values.
  induction idx as [|t idx IH]; intros [|v c] [|v' c'] H H';
    simpl in *; try discriminate; [reflexivity|].
  destruct (date_eqb (date_of t) D); simpl; [f_equal|]; apply IH; lia.
Qed.

Lemma headspace_MWh_length (col : list Q) :
  length (headspace_MWh col) = length col.
Proof.
  unfold headspace_MWh. destruct col as [|v col]; [reflexivity|].
  cbn [series_max]. apply length_map.
Qed.

Lemma headspace_frac_length (col : list Q) :
  length (headspace_frac col) = length col.
Proof.
  unfold headspace_frac. destruct col as [|v col]; [reflexivity|].
  cbn [series_max]. apply length_map.
Qed.

(** X9.  The shoulder logic reads the metric under the name [EUE]: with any
    other stress metric no shoulder period is ever recorded.  The loop over
    the new periods returns only when it skips every one of them for want
    of storage in its region, and a new period whose region has storage on
    its day raises AttributeError. *)
Theorem shoulders_need_metric_EUE :
  stress_metric <> "EUE"%string ->
  (forall rows sh sh',
      shoulder_rows co timeindex dfenergy_agg criterion stress_metric
                    cutofftype cutoff periodhours sh rows = Ok sh' ->
      sh' = sh
      /\ Forall (fun row => col_lookup (r row) (cols dfenergy_agg) = None)
                rows)
  /\ (forall row sh,
         well_formed dfenergy_agg ->
         col_lookup (r row) (cols dfenergy_agg) <> None ->
         In (y row, m row, d row) (map date_of (index dfenergy_agg)) ->
         one_row sh row = Raise AttributeError).
Proof.
  intros Hm. split.
  - induction rows as [|row rows IH]; intros sh sh' H;
      cbn [shoulder_rows] in H.
    + injection H as <-. auto.
    + bind_ok H. rename a into sh1.
      destruct (col_lookup (r row) (cols dfenergy_agg)) as [col|] eqn:Ec.
      * exfalso.
        assert (Hc : col_lookup (r row) (cols dfenergy_agg) <> None)
          by congruence.
        destruct (shoulder_row_shape sh sh1 row Hc E)
          as (i & t0 & t_a & t_b & after & before
              & _ & _ & _ & _ & _ & Heq & _).
        contradiction.
      * assert (sh1 = sh).
        { unfold shoulder_row in E. rewrite Ec in E. now injection E. }
        subst sh1. destruct (IH _ _ H) as [-> Hall]. auto.
  - intros row sh Wf Hc Hin. unfold shoulder_row.
    destruct (col_lookup (r row) (cols dfenergy_agg)) as [col|] eqn:Ec;
      [|congruence].
    pose proof (col_lookup_length _ Wf Ec) as Lc.
    assert (Hne : day_values (index dfenergy_agg) (index dfenergy_agg)
                             (y row, m row, d row) <> []).
    { unfold day_values. apply in_map_iff in Hin.
      destruct Hin as (t & Ht & Hin).
      assert (Hp : In (t, t) (combine (index dfenergy_agg)
                                      (index dfenergy_agg))).
      { clear -Hin. induction (index dfenergy_agg) as [|a l IH];
          simpl in *; [tauto|].
        destruct Hin as [->|Hin]; [now left|right; now apply IH]. }
      intros Hnil.
      assert (Hf : In (t, t)
                      (filter (fun p => date_eqb (date_of (fst p))
                                                 (y row, m row, d row))
                              (combine (index dfenergy_agg)
                                       (index dfenergy_agg)))).
      { apply filter_In. split; [exact Hp|]. cbn [fst].
        now apply date_eqb_eq. }
      apply (in_map snd) in Hf. rewrite Hnil in Hf. destruct Hf. }
    pose proof (day_values_same_length
                  _ _ (y row, m row, d row) (index dfenergy_agg)
                  (headspace_MWh col) (index dfenergy_agg)
                  (eq_trans (headspace_MWh_length col) Lc) eq_refl) as L1.
    pose proof (day_values_same_length
                  _ _ (y row, m row, d row) (index dfenergy_agg)
                  (headspace_frac col) (index dfenergy_agg)
                  (eq_trans (headspace_frac_length col) Lc) eq_refl) as L2.
    destruct (day_values (index dfenergy_agg) (index dfenergy_agg)
                         (y row, m row, d row)) as [|t0 ts];
      [congruence|].
    destruct (day_values _ (headspace_MWh col) _) as [|mwh0 mwh];
      [discriminate L1|].
    destruct (day_values _ (headspace_frac col) _) as [|frac0 frac];
      [discriminate L2|].
    apply String.eqb_neq in Hm. rewrite Hm. reflexivity.
Qed.
End OneRow.

Lemma shoulder_days_are_cyclic_witness :
  exists (i : nat) (t0 t_a t_b : Timestamp) (after before : bool),
    hd_error (day_values (index ExtraExamples.storage_by_state)
                         (index ExtraExamples.storage_by_state)
                         (2012, 7, 1)%nat) = Some t0
    /\ index_pos ts_eqb t0 (OrchestratorExamples.hours [1; 2; 3]%nat)
       = Some i
    /\ (24 <= i + length (OrchestratorExamples.hours [1; 2; 3]%nat))%nat
    /\ nth_error (OrchestratorExamples.hours [1; 2; 3]%nat)
                 ((i + 24)
                    mod length (OrchestratorExamples.hours [1; 2; 3]%nat))
       = Some t_a
    /\ nth_error (OrchestratorExamples.hours [1; 2; 3]%nat)
                 ((i + length (OrchestratorExamples.hours [1; 2; 3]%nat)
                   - 24)
                    mod length (OrchestratorExamples.hours [1; 2; 3]%nat))
       = Some t_b
    /\ [(("c", "after_y2012d183"),
         shoulder_of OrchestratorExamples.collaborators
                     ExtraExamples.first_day
                     {| year := 2012; month := 7; day := 2; hour := 0 |});
        (("c", "before_y2012d183"),
         shoulder_of OrchestratorExamples.collaborators
                     ExtraExamples.first_day
                     {| year := 2012; month := 7; day := 3;
                        hour := 0 |})]%string
       = put_shoulder
           before ("c", "before_y2012d183")%string
           (shoulder_of OrchestratorExamples.collaborators
                        ExtraExamples.first_day t_b)
           (put_shoulder
              after ("c", "after_y2012d183")%string
              (shoulder_of OrchestratorExamples.collaborators
                           ExtraExamples.first_day t_a)
              []).
Proof.
  apply (shoulder_days_are_cyclic
           OrchestratorExamples.collaborators
           (OrchestratorExamples.hours [1; 2; 3]%nat)
           ExtraExamples.storage_by_state
           "c" "EUE" "abs" "1" 24 [] _ ExtraExamples.first_day).
  - vm_compute. discriminate.
  - vm_compute. reflexivity.
Defined.

Lemma cutoff_type_decides_witness :
  exists t_a t_b,
    In t_a (OrchestratorExamples.hours [1; 2; 3]%nat)
    /\ In t_b (OrchestratorExamples.hours [1; 2; 3]%nat)
    /\ dict_get key2_eqb ("c", "after_y2012d183")%string
                [(("c", "after_y2012d183"),
                  shoulder_of OrchestratorExamples.collaborators
                              ExtraExamples.first_day
                              {| year := 2012; month := 7; day := 2;
                                 hour := 0 |});
                 (("c", "before_y2012d183"),
                  shoulder_of OrchestratorExamples.collaborators
                              ExtraExamples.first_day
                              {| year := 2012; month := 7; day := 3;
                                 hour := 0 |})]%string
       = Some (shoulder_of OrchestratorExamples.collaborators
                           ExtraExamples.first_day t_a)
    /\ dict_get key2_eqb ("c", "before_y2012d183")%string
                [(("c", "after_y2012d183"),
                  shoulder_of OrchestratorExamples.collaborators
                              ExtraExamples.first_day
                              {| year := 2012; month := 7; day := 2;
                                 hour := 0 |});
                 (("c", "before_y2012d183"),
                  shoulder_of OrchestratorExamples.collaborators
                              ExtraExamples.first_day
                              {| year := 2012; month := 7; day := 3;
                                 hour := 0 |})]%string
       = Some (shoulder_of OrchestratorExamples.collaborators
                           ExtraExamples.first_day t_b).
Proof.
  refine (proj1 (cutoff_type_decides
                   OrchestratorExamples.collaborators
                   (OrchestratorExamples.hours [1; 2; 3]%nat)
                   ExtraExamples.storage_by_state
                   "c" "EUE" "absolute" "no number" 24 [] _
                   ExtraExamples.first_day _ _) _).
  - vm_compute. discriminate.
  - vm_compute. reflexivity.
  - reflexivity.
Defined.

Lemma shoulders_need_metric_EUE_witness :
  shoulder_row OrchestratorExamples.collaborators
               (OrchestratorExamples.hours [1; 2; 3]%nat)
               ExtraExamples.storage_by_state
               "c" "NEUE" "abs" "1" 24 [] ExtraExamples.first_day
  = Raise AttributeError.
Proof.
  refine (proj2 (shoulders_need_metric_EUE
                   OrchestratorExamples.collaborators
                   (OrchestratorExamples.hours [1; 2; 3]%nat)
                   ExtraExamples.storage_by_state
                   "c" "NEUE" "abs" "1" 24 _)
                ExtraExamples.first_day [] _ _ _).
  - discriminate.
  - repeat constructor.
  - vm_compute. discriminate.
  - vm_compute. left. reflexivity.
Defined.

End ShoulderFacts.
(** * Further facts on the shortfall curve *)

Module CurveFacts.
Import Pandas PandasFacts UpdatePrm UpdatePrmFacts.

(** ** Columns *)

Lemma later_stages_keep (B : Type) (get : plf_row -> B) (k : string)
      (X : list plf_row) :
  (forall v a, get (set_Dy v a) = get a) ->
  (forall v a, get (set_y1 v a) = get a) ->
  (forall v a, get (set_y2 v a) = get a) ->
  map get (rows_of k (plfs_y (plfs_Dy X))) = map get (rows_of k X).
Proof.
  intros HD H1 H2. unfold plfs_y. cbv zeta.
  rewrite (assign_other String.eqb r set_y2 (fun _ _ => eq_refl) get k _ _ H2)
    by (rewrite groupby_transform_length; reflexivity).
  rewrite (assign_other String.eqb r set_y1 (fun _ _ => eq_refl) get k _ _ H1)
    by apply y1_column_length.
  unfold plfs_Dy.
  rewrite (group_of_map String.eqb r k _ X) by reflexivity.
  rewrite map_map. apply map_ext. intros a. apply HD.
Qed.

Lemma shift_down_le (V : list Q) :
  forall p,
    Forall (fun v => p <= v) V -> StronglySorted Qle V ->
    Forall2 Qle (shift_down p V) V.
Proof.
  induction V as [|v V IH]; intros p Hp Hs.
  - constructor.
  - rewrite shift_down_cons. inversion Hp; subst. inversion Hs; subst.
    constructor; [assumption|]. now apply IH.
Qed.

Lemma shift_down_lower (V : list Q) :
  forall p, 0 <= p -> Forall (fun v => 0 <= v) V ->
            Forall (fun v => 0 <= v) (shift_down p V).
Proof.
  induction V as [|v V IH]; intros p Hp HV.
  - constructor.
  - rewrite shift_down_cons. inversion HV; subst. constructor; auto.
Qed.

Lemma descending_bounds (Y : list Q) :
  Sorted (fun y y' => y' <= y) (Y ++ [0]) ->
  Forall (fun y => 0 <= y) Y
  /\ forall y0 Y', Y = y0 :: Y' -> Forall (fun y => y <= y0) Y.
Proof.
  intros H. apply Sorted_StronglySorted in H.
  2:{ intros a b c Hab Hbc. lra. }
  split.
  - induction Y as [|y Y IH]; [constructor|].
    simpl in H. inversion H as [|? ? Hs Hy]; subst.
    constructor; [|now apply IH].
    rewrite Forall_forall in Hy. apply Hy. apply in_or_app. right. now left.
  - intros y0 Y' ->. simpl in H. inversion H as [|? ? Hs Hy]; subst.
    constructor; [lra|].
    rewrite Forall_forall in *. intros y Hin. apply Hy.
    apply in_or_app. now left.
Qed.

Lemma cumsum_of_minus_one (n : nat) (vs : list Q) :
  (0 < n)%nat ->
  forall acc, acc <= 0 ->
              Forall (fun s => s < 0)
                     (map (fun v => v / Qn n)
                          (cumsum_from acc (map (fun _ : Q => -1) vs))).
Proof.
  intros Hn. pose proof (Qn_pos Hn) as Hq.
  induction vs as [|v vs IH]; intros acc Hacc; simpl.
  - constructor.
  - constructor.
    + unfold Qdiv. 
      assert (Hi : 0 < / Qn n) by now apply Qinv_lt_0_compat.
      nra.
    + apply IH. lra.
Qed.

(** Every row has a slope below zero: the running count of samples starts
    at one. *)
Lemma plfs_slope_negative (n : nat) (df : list plf_row) :
  (0 < n)%nat -> Forall (fun a => slope a < 0) (plfs_slope n df).
Proof.
  intros Hn. unfold plfs_slope. cbv zeta.
  set (D := sort_values row_geb df).
  set (D2 := map (set_slope (-1)) D).
  set (col := map (fun v => v / Qn n)
                  (groupby_transform String.eqb r slope cumsum D2)).
  apply (Permutation_Forall
           (Permutation_sym (sort_values_perm row_leb _))).
  apply (Forall_groups String.eqb r); [apply String.eqb_eq|].
  intros k.
  apply (proj1 (Forall_map slope (fun s => s < 0) _)).
  unfold col. rewrite assign_map.
  rewrite (groupby_transform_group String.eqb r String.eqb_eq
             set_slope (fun _ _ => eq_refl) slope (fun _ _ => eq_refl)
             slope cumsum (fun _ t => t / Qn n) k D2
             (cumsum_from_length 0)).
  rewrite (map_combine_snd (fun t => t / Qn n)).
  - unfold D2. rewrite group_of_map by reflexivity.
    rewrite !map_map. cbn [slope set_slope].
    unfold cumsum.
    rewrite <- (map_map net_short_mwh (fun _ : Q => -1)).
    apply cumsum_of_minus_one; [exact Hn|lra].
  - unfold cumsum. now rewrite cumsum_from_length, length_map.
Qed.

(** ** The curve of a region on a sorted table *)

Section Curve.
Variable n : nat.
Variable tbl : list plf_row.
Variable Ik : string -> Q.

Hypothesis n_pos : (0 < n)%nat.
Hypothesis tbl_sorted : StronglySorted (fun a b => row_leb a b = true) tbl.
Hypothesis tbl_pos : Forall (fun a => 0 < net_short_mwh a) tbl.
Hypothesis tbl_intercept : Forall (fun a => intercept a = Ik (r a)) tbl.
Hypothesis Ik_mean :
  forall k, Ik k * Qn n == Qsum (map net_short_mwh (rows_of k tbl)).
Hypothesis tbl_slope :
  Forall (fun a =>
            slope_ok n (map net_short_mwh (rows_of (r a) tbl))
                     (slope a) (net_short_mwh a)) tbl.
Hypothesis tbl_slope_neg : Forall (fun a => slope a < 0) tbl.

Local Abbreviation curve := (plfs_y (plfs_Dy (plfs_x tbl))).
Local Abbreviation V k := (map net_short_mwh (rows_of k tbl)).
Local Abbreviation Y k :=
  (map (Qplus (Ik k))
       (shift_down 0
          (cumsum_from 0 (segment_drops
                            0 (map slope (rows_of k%string tbl))
                            (map net_short_mwh (rows_of k%string tbl)))))).

Lemma curve_x (k : string) :
  map x1 (rows_of k curve) = shift_down 0 (V k)
  /\ map x2 (rows_of k curve) = V k.
Proof.
  destruct (plfs_x_columns k tbl) as (H1 & H2 & _).
  rewrite !later_stages_keep by reflexivity. auto.
Qed.

Lemma curve_y (k : string) :
  map y1 (rows_of k curve) = Y k
  /\ map y2 (rows_of k curve) = shift_up 0 (Y k).
Proof.
  assert (Hc : Forall (fun a => intercept a = Ik k)
                      (rows_of k (plfs_Dy (plfs_x tbl)))).
  { apply Forall_forall. intros a Ha.
    pose proof (rows_of_key k (plfs_Dy (plfs_x tbl))) as Hk.
    rewrite Forall_forall in Hk. rewrite <- (Hk a Ha).
    pose proof (@table_intercept tbl Ik tbl_intercept) as Hi.
    rewrite Forall_forall in Hi.
    apply Hi. apply (group_of_In String.eqb r String.eqb_eq) in Ha. tauto. }
  destruct (@plfs_y_columns k (Ik k) _ Hc) as [H1 H2].
  rewrite plfs_Dy_column in H1, H2. auto.
Qed.

Lemma curve_y_descends (k : string) :
  Sorted (fun y y' => y' <= y) (Y k ++ [0]).
Proof.
  apply breakpoints_descend.
  - exact (@group_drops_nonpos n tbl tbl_sorted tbl_pos tbl_slope k).
  - exact (@group_ends_above_zero n tbl Ik n_pos tbl_sorted tbl_pos Ik_mean
                                  tbl_slope k).
Qed.

Lemma curve_intercept :
  Forall (fun a => intercept a = Ik (r a)) curve.
Proof.
  apply plfs_y_preserves; auto.
  exact (@table_intercept tbl Ik tbl_intercept).
Qed.

Lemma curve_slope_neg : Forall (fun a => slope a < 0) curve.
Proof.
  apply plfs_y_preserves; auto.
  apply plfs_Dy_preserves; auto.
  apply plfs_x_preserves; auto.
Qed.

Lemma curve_Dy : Forall (fun a => Dy a = slope a * (x2 a - x1 a)) curve.
Proof. apply plfs_y_preserves; auto using plfs_Dy_defined. Qed.

Lemma curve_rows_bounds (k : string) :
  Forall (fun a => 0 <= x1 a /\ x1 a <= x2 a /\ 0 < x2 a
                   /\ 0 <= y2 a /\ y2 a <= y1 a /\ y1 a <= intercept a
                   /\ slope a < 0)
         (rows_of k curve).
Proof.
  destruct (curve_x k) as [Hx1 Hx2]. destruct (curve_y k) as [Hy1 Hy2].
  pose proof (@group_sorted tbl tbl_sorted k) as Hs.
  pose proof (@group_pos tbl tbl_pos k) as Hp.
  assert (A1 : Forall (fun a => 0 <= x1 a) (rows_of k curve)).
  { apply (proj1 (Forall_map x1 (fun v => 0 <= v) _)). rewrite Hx1.
    apply shift_down_lower; [lra|exact Hp]. }
  assert (A2 : Forall (fun a => x1 a <= x2 a) (rows_of k curve)).
  { apply Forall2_map_cols with (R := Qle) (f := x1) (g := x2).
    rewrite Hx1, Hx2. now apply shift_down_le. }
  assert (A3 : Forall (fun a => 0 < x2 a) (rows_of k curve)).
  { apply (proj1 (Forall_map x2 (fun v => 0 < v) _)). rewrite Hx2.
    apply Forall_map. apply Forall_forall. intros a Ha.
    apply (group_of_In String.eqb r String.eqb_eq) in Ha.
    rewrite Forall_forall in tbl_pos. apply tbl_pos. tauto. }
  destruct (descending_bounds _ (curve_y_descends k)) as [B1 B2].
  assert (A4 : Forall (fun a => 0 <= y2 a) (rows_of k curve)).
  { apply (proj1 (Forall_map y2 (fun v => 0 <= v) _)). rewrite Hy2.
    destruct (Y k) as [|y0 Y']; [constructor|]. simpl.
    inversion B1; subst. apply Forall_app. split; [assumption|].
    constructor; [lra|constructor]. }
  assert (A5 : Forall (fun a => y2 a <= y1 a) (rows_of k curve)).
  { apply Forall2_map_cols with (R := Qle) (f := y2) (g := y1).
    rewrite Hy1, Hy2. apply shift_up_descends. apply curve_y_descends. }
  assert (A6 : Forall (fun a => y1 a <= Ik k) (rows_of k curve)).
  { apply (proj1 (Forall_map y1 (fun v => v <= Ik k) _)). rewrite Hy1.
    destruct (Y k) as [|y0 Y'] eqn:EY; [constructor|].
    assert (E0 : y0 == Ik k).
    { revert EY.
      destruct (segment_drops 0 (map slope (rows_of k tbl)) (V k))
        as [|d0 D0]; [simpl; discriminate|].
      cbn [cumsum_from]. rewrite shift_down_cons. cbn [map].
      intros [= <- _]. lra. }
    specialize (B2 y0 Y' eq_refl).
    eapply Forall_impl; [|exact B2]. intros y Hy. simpl in Hy. lra. }
  pose proof curve_intercept as Hi. pose proof curve_slope_neg as Hn.
  pose proof (rows_of_key k curve) as Hk.
  rewrite Forall_forall in *. intros a Ha.
  assert (Ha' : In a curve)
    by (apply (group_of_In String.eqb r String.eqb_eq) in Ha; tauto).
  rewrite (Hi a Ha'), (Hk a Ha).
  repeat split; auto.
Qed.

Lemma curve_starts (k : string) (a : plf_row) :
  hd_error (rows_of k curve) = Some a ->
  x1 a = 0 /\ y1 a == intercept a.
Proof.
  intros H.
  destruct (curve_x k) as [Hx1 Hx2]. destruct (curve_y k) as [Hy1 _].
  pose proof curve_intercept as Hi. pose proof (rows_of_key k curve) as Hk.
  destruct (rows_of k curve) as [|a0 G] eqn:EG; [discriminate|].
  injection H as ->.
  assert (Ha : In a curve).
  { assert (In a (rows_of k curve)) by (rewrite EG; now left).
    apply (group_of_In String.eqb r String.eqb_eq) in H. tauto. }
  rewrite Forall_forall in Hi. rewrite (Hi a Ha).
  inversion Hk; subst.
  cbn [map] in Hx1, Hx2, Hy1. rewrite <- Hx2 in Hx1.
  rewrite shift_down_cons in Hx1. injection Hx1 as Hx1 _.
  split; [exact Hx1|].
  destruct (segment_drops 0 (map slope (rows_of (r a) tbl)) (V (r a)))
    as [|d0 D0]; [simpl in Hy1; discriminate|].
  cbn [cumsum_from] in Hy1. rewrite shift_down_cons in Hy1.
  cbn [map] in Hy1. injection Hy1 as Hy1 _. rewrite Hy1. lra.
Qed.

Lemma curve_Dy_column (k : string) :
  map Dy (rows_of k curve)
  = segment_drops 0 (map slope (rows_of k tbl))
                  (map net_short_mwh (rows_of k tbl)).
Proof.
  unfold plfs_y. cbv zeta.
  rewrite (assign_other String.eqb r set_y2 (fun _ _ => eq_refl) Dy k _ _
                        (fun _ _ => eq_refl))
    by (rewrite groupby_transform_length; reflexivity).
  rewrite (assign_other String.eqb r set_y1 (fun _ _ => eq_refl) Dy k _ _
                        (fun _ _ => eq_refl))
    by apply y1_column_length.
  apply plfs_Dy_column.
Qed.

(** A segment that is not the last of its region ends where the line of
    its slope ends. *)
Lemma curve_linear (k : string) (l1 l2 : list plf_row) (a b : plf_row) :
  rows_of k curve = l1 ++ a :: b :: l2 -> y1 b == y1 a + Dy a.
Proof.
  intros HG.
  destruct (curve_y k) as [Hy1 _]. rewrite <- curve_Dy_column in Hy1.
  rewrite HG in Hy1. rewrite !map_app in Hy1. cbn [map] in Hy1.
  revert Hy1.
  generalize (map y1 l1) (map Dy l1) (map y1 l2) (map Dy l2)
             (eq_trans (length_map y1 l1) (eq_sym (length_map Dy l1))).
  generalize (y1 a) (y1 b) (Dy a) (Dy b) (Ik k).
  clear. intros y y' d d' I Y1 D1 Y2 D2.
  assert (G : forall acc p,
             p == acc -> length Y1 = length D1 ->
             Y1 ++ y :: y' :: Y2
             = map (Qplus I)
                   (shift_down p (cumsum_from acc (D1 ++ d :: d' :: D2))) ->
             y' == y + d).
  { revert Y1. induction D1 as [|d1 D1 IH]; intros [|y1 Y1] acc p Hp HL H;
      simpl in HL; try discriminate.
    - cbn [app cumsum_from] in H. rewrite !shift_down_cons in H.
      cbn [map] in H. injection H as H1 H2 _. rewrite H1, H2, Hp. ring.
    - cbn [app cumsum_from] in H. rewrite shift_down_cons in H.
      cbn [map] in H. injection H as _ H.
      apply (IH Y1 (acc + d1) (acc + d1)); [reflexivity|lia|exact H]. }
  intros HL H. apply (G 0 0); [reflexivity|exact HL|exact H].
Qed.
End Curve.

(** ** The curve that [update_prm] builds *)

Abbreviation bounds :=
  (fun a : plf_row =>
     0 <= x1 a /\ x1 a <= x2 a /\ 0 < x2 a
     /\ 0 <= y2 a /\ y2 a <= y1 a /\ y1 a <= intercept a /\ slope a < 0).

Lemma plfs_y_nil : plfs_y [] = [].
Proof. reflexivity. Qed.

(** The curve on exact values.  The bounds [0 <= y2 <= y1] and the line
    equation are those of exact arithmetic; the facts stated further on use
    what rounding keeps. *)
Lemma curve_of_samples (s : ShortfallSamples) :
  let T := plfs_y (plfs_upto_Dy s) in
  (forall k, map x1 (rows_of k T) = shift_down 0 (map x2 (rows_of k T)))
  /\ (forall k, map y2 (rows_of k T) = shift_up 0 (map y1 (rows_of k T)))
  /\ (forall k a, hd_error (rows_of k T) = Some a ->
                  x1 a = 0 /\ y1 a == intercept a)
  /\ (forall k, Forall bounds (rows_of k T))
  /\ (forall k l1 a b l2, rows_of k T = l1 ++ a :: b :: l2 ->
                          y1 b == y1 a + Dy a)
  /\ Forall (fun a => Dy a = slope a * (x2 a - x1 a)) T
  /\ (forall k a b, In a (rows_of k T) -> In b (rows_of k T) ->
                    intercept a = intercept b).
Proof.
  intros T. unfold T.
  destruct (samples s) as [|smp rest] eqn:E.
  - rewrite (no_samples_no_rows s E), plfs_y_nil. cbn.
    repeat split; try constructor; try discriminate; try tauto.
    intros k [|x l1] a b l2 H; discriminate H.
  - assert (Hn : (0 < n_samples s)%nat)
      by (unfold n_samples; rewrite E; simpl; lia).
    unfold plfs_upto_Dy, plfs_table.
    set (n := n_samples s) in *.
    set (crit := net_short_crit (clip_net_short (net_short_long s))).
    set (tbl := plfs_slope n (plfs_intercept n (plfs_positive crit))).
    pose proof (plfs_slope_sorted n (plfs_intercept n (plfs_positive crit)))
      as Hsorted.
    pose proof (built_pos n crit) as Hpos.
    pose proof (built_intercept n crit) as Hint.
    pose proof (fun k => @region_mean_scaled n k (plfs_positive crit) Hn)
      as Hmean.
    pose proof (plfs_slope_ok n (plfs_intercept n (plfs_positive crit)))
      as Hok.
    pose proof (plfs_slope_negative n (plfs_intercept n (plfs_positive crit))
                                    Hn) as Hneg.
    fold tbl in Hsorted, Hpos, Hint, Hmean, Hok, Hneg.
    split.
    { intros k. destruct (curve_x tbl k) as [H1 H2]. now rewrite H1, H2. }
    split.
    { intros k. destruct (curve_y tbl _ Hint k) as [H1 H2].
      now rewrite H1, H2. }
    split; [exact (curve_starts tbl _ Hint)|].
    split.
    { exact (curve_rows_bounds n tbl _ Hn Hsorted Hpos Hint Hmean Hok
                               Hneg). }
    split; [intros k l1 a b l2; exact (curve_linear tbl _ Hint k l1 l2 a b)|].
    split; [exact (curve_Dy tbl)|].
    intros k a b Ha Hb.
    pose proof (curve_intercept tbl _ Hint) as Hi.
    rewrite Forall_forall in Hi.
    apply (group_of_In String.eqb r String.eqb_eq) in Ha, Hb.
    destruct Ha as [Ha Hka], Hb as [Hb Hkb].
    rewrite (Hi a Ha), (Hi b Hb). congruence.
Qed.


End CurveFacts.
(** * Further facts on the increment of the reserve margin *)

Module IncrementFacts.
Import Pandas PandasFacts StressPeriods UpdatePrm UpdatePrmFacts CurveFacts.
Import PrmIncrement.

Lemma rows_of_In (k : string) (a : plf_row) (df : list plf_row) :
  In a (rows_of k df) <-> In a df /\ r a = k.
Proof. apply (group_of_In String.eqb r String.eqb_eq). Qed.

(** ** One segment *)

Lemma neg_times_neg (u v : Q) : u < 0 -> v < 0 -> 0 < u * v.
Proof.
  intros Hu Hv.
  setoid_replace (u * v) with ((- u) * (- v)) by ring.
  apply Qmult_lt_0_compat; lra.
Qed.

Lemma pos_times_neg (u v : Q) : 0 < u -> v < 0 -> u * v < 0.
Proof.
  intros Hu Hv.
  assert (H : 0 < u * (- v)) by (apply Qmult_lt_0_compat; lra).
  setoid_replace (u * - v) with (- (u * v)) in H by ring.
  lra.
Qed.

Lemma surplus_on_segment (a : plf_row) (t : Q) :
  slope a < 0 -> Dy a = slope a * (x2 a - x1 a) -> t <= y1 a ->
  x1 a <= surplus_mwh a t
  /\ y1 a + slope a * (surplus_mwh a t - x1 a) == t
  /\ (y1 a + Dy a <= t -> surplus_mwh a t <= x2 a).
Proof.
  intros Hs HD Ht. unfold surplus_mwh. rewrite HD.
  generalize (x1 a) (x2 a) (y1 a) (slope a) Hs Ht. clear.
  intros p1 p2 q1 sl Hs Ht.
  set (u := (t - q1) * (1 / sl)).
  assert (Hu : u * sl == t - q1).
  { unfold u. field. lra. }
  assert (Hu0 : 0 <= u).
  { destruct (Qlt_le_dec u 0) as [Hneg|Hok]; [|exact Hok].
    exfalso. pose proof (neg_times_neg u sl Hneg Hs). lra. }
  split; [lra|]. split.
  - setoid_replace (p1 + u - p1) with u by ring.
    rewrite Qmult_comm, Hu. ring.
  - intros H.
    assert (u <= p2 - p1); [|lra].
    destruct (Qlt_le_dec (p2 - p1) u) as [Hlt|Hok]; [|exact Hok].
    exfalso.
    assert (Hd : 0 < u - (p2 - p1)) by lra.
    pose proof (pos_times_neg _ _ Hd Hs) as Hp.
    setoid_replace ((u - (p2 - p1)) * sl)
      with (u * sl - sl * (p2 - p1)) in Hp by ring.
    lra.
Qed.

Lemma seg_true (a : plf_row) (t : Q) :
  seg a t = true <-> t <= y1 a /\ y2 a <= t.
Proof.
  unfold seg. rewrite andb_true_iff, !Qle_bool_iff. tauto.
Qed.

(** ** The segments of a region *)

Lemma chain_tail (x m : plf_row) (G : list plf_row) :
  map y2 (x :: m :: G) = shift_up 0 (map y1 (x :: m :: G)) ->
  y2 x = y1 m /\ map y2 (m :: G) = shift_up 0 (map y1 (m :: G)).
Proof.
  cbn [map shift_up app]. intros H. injection H as H1 H2. auto.
Qed.


(** A target between zero and the start of the curve lies on a segment. *)
Lemma chain_brackets (t : Q) (G : list plf_row) :
  forall a0,
    map y2 (a0 :: G) = shift_up 0 (map y1 (a0 :: G)) ->
    t <= y1 a0 -> 0 <= t ->
    exists a, In a (a0 :: G) /\ seg a t = true.
Proof.
  induction G as [|b G IH]; intros a0 H Ht H0.
  - exists a0. split; [now left|]. apply seg_true.
    cbn in H. injection H as H. rewrite H. auto.
  - apply chain_tail in H. destruct H as [H1 H2].
    destruct (Qlt_le_dec (y1 b) t) as [Hlt|Hle].
    + exists a0. split; [now left|]. apply seg_true. rewrite H1.
      split; [exact Ht|lra].
    + destruct (IH b H2 Hle H0) as (a & Ha & Hs).
      exists a. split; [now right|exact Hs].
Qed.

(** On exact values; that no target below zero lies on a segment is a fact
    of exact arithmetic only. *)
Lemma target_segment_facts (s : ShortfallSamples) :
  let T := plfs_y (plfs_upto_Dy s) in
  (forall a t, In a T -> seg a t = true -> 0 <= surplus_mwh a t)
  /\ (forall k a0 t,
         In a0 (rows_of k T) -> 0 <= t -> t <= intercept a0 ->
         exists a, In a (rows_of k T) /\ seg a t = true)
  /\ (forall a t,
         In a T -> t < 0 \/ intercept a < t -> seg a t = false).
Proof.
  destruct (curve_of_samples s) as (_ & H2 & H3 & H4 & _ & H6 & H7).
  cbv zeta in *.
  generalize dependent (plfs_y (plfs_upto_Dy s)). intros T H2 H3 H4 H6 H7.
  assert (Hb : forall a, In a T -> bounds a).
  { intros a Ha. specialize (H4 (r a)). rewrite Forall_forall in H4.
    apply H4. apply rows_of_In. split; [exact Ha|reflexivity]. }
  split; [|split].
  - intros a t Ha Hs. apply seg_true in Hs. destruct Hs as [Ht1 _].
    rewrite Forall_forall in H6.
    destruct (Hb a Ha) as (B1 & _ & _ & _ & _ & _ & Hsl).
    destruct (surplus_on_segment a t Hsl (H6 a Ha) Ht1) as [Hx _].
    lra.
  - intros k a0 t Ha0 H0 Ht.
    destruct (rows_of k T) as [|h G] eqn:EG; [destruct Ha0|].
    destruct (H3 k h) as [_ Hh]; [rewrite EG; reflexivity|].
    assert (Hi : intercept h = intercept a0).
    { apply (H7 k); rewrite EG; [now left|exact Ha0]. }
    pose proof (H2 k) as Hc. rewrite EG in Hc.
    apply (chain_brackets t G h Hc); [|exact H0].
    rewrite Hh, Hi. exact Ht.
  - intros a t Ha Hc.
    destruct (seg a t) eqn:Es; [|reflexivity].
    apply seg_true in Es. destruct Es as [Et1 Et2].
    destruct (Hb a Ha) as (_ & _ & _ & B4 & _ & B6 & _).
    exfalso. destruct Hc; lra.
Qed.

(** ** The table of increments *)

Lemma merge_on_r_In (plfs : list plf_row) (loads : list DfloadAll.row)
      (a : plf_row) (l : DfloadAll.row) :
  In (a, l) (merge_on_r plfs loads)
  <-> In a plfs /\ In l loads /\ DfloadAll.r l = r a.
Proof.
  unfold merge_on_r. rewrite in_flat_map. split.
  - intros (a' & Ha & H). apply in_map_iff in H.
    destruct H as (l' & Heq & Hl). injection Heq as -> ->.
    apply filter_In in Hl. destruct Hl as [Hl He].
    apply String.eqb_eq in He. split; [exact Ha|]. split; assumption.
  - intros (Ha & Hl & He). exists a. split; [exact Ha|].
    apply in_map. apply filter_In. split; [exact Hl|].
    now apply String.eqb_eq.
Qed.

(** X14.  The table of increments of the PRAS-informed update: an entry
    comes from a segment of the region that its target selects, the surplus
    behind it is never negative, so with a positive load in the stress
    periods the increment is a number that is not negative; a region whose
    target lies between zero and its mean shortfall has an entry, and a
    region whose target lies above its mean shortfall has none. *)
Theorem prm_increment_entries (s : ShortfallSamples)
        (loads : list DfloadAll.row) :
  let T := plfs_y (plfs_upto_Dy s) in
  (forall k v,
      In (k, v) (prm_increment T loads) ->
      exists a l,
        In a T /\ In l loads /\ r a = k /\ DfloadAll.r l = k
        /\ seg a (DfloadAll.target_eue_mwh l) = true
        /\ 0 <= surplus_mwh a (DfloadAll.target_eue_mwh l)
        /\ v = fdiv (surplus_mwh a (DfloadAll.target_eue_mwh l))
                    (DfloadAll.stress_load_mwh l)
        /\ (0 < DfloadAll.stress_load_mwh l ->
            exists q, v = Fin q /\ 0 <= q))
  /\ (forall l a0,
         In l loads -> In a0 T -> r a0 = DfloadAll.r l ->
         0 <= DfloadAll.target_eue_mwh l ->
         DfloadAll.target_eue_mwh l <= intercept a0 ->
         exists v, In (DfloadAll.r l, v) (prm_increment T loads))
  /\ (forall k,
         (forall l a0,
             In l loads -> In a0 T -> DfloadAll.r l = k -> r a0 = k ->
             intercept a0 < DfloadAll.target_eue_mwh l) ->
         forall v, ~ In (k, v) (prm_increment T loads)).
Proof.
  destruct (target_segment_facts s) as (Hseg & Hex & Hno).
  cbv zeta in *.
  generalize dependent (plfs_y (plfs_upto_Dy s)). intros T Hseg Hex Hno.
  assert (Hentry :
            forall k v,
              In (k, v) (prm_increment T loads) ->
              exists a l,
                In a T /\ In l loads
                /\ r a = k /\ DfloadAll.r l = k
                /\ seg a (DfloadAll.target_eue_mwh l) = true
                /\ v = fdiv (surplus_mwh a (DfloadAll.target_eue_mwh l))
                            (DfloadAll.stress_load_mwh l)).
  { intros k v H. unfold prm_increment in H. apply in_map_iff in H.
    destruct H as ([a l] & Heq & H). cbn [fst snd] in Heq.
    injection Heq as <- <-.
    apply filter_In in H. destruct H as [H Hs]. cbn [fst snd] in Hs.
    apply merge_on_r_In in H. destruct H as (Ha & Hl & He).
    exists a, l.
    split; [exact Ha|]. split; [exact Hl|]. split; [reflexivity|].
    split; [exact He|]. split; [exact Hs|reflexivity]. }
  split; [|split].
  - intros k v H.
    destruct (Hentry k v H) as (a & l & Ha & Hl & Hk & Hk' & Hs & Hv).
    exists a, l.
    pose proof (Hseg a _ Ha Hs) as H0.
    repeat (split; [assumption|]).
    intros Hpos. rewrite Hv. unfold fdiv.
    destruct (Qeq_bool (DfloadAll.stress_load_mwh l) 0) eqn:E.
    + apply Qeq_bool_iff in E. lra.
    + eexists. split; [reflexivity|].
      apply Qle_shift_div_l; [exact Hpos|lra].
  - intros l a0 Hl Ha0 Hr H0 Ht.
    destruct (Hex (r a0) a0 (DfloadAll.target_eue_mwh l))
      as (a & Ha & Hs);
      [apply rows_of_In; split; [exact Ha0|reflexivity]|exact H0|exact Ht|].
    apply rows_of_In in Ha. destruct Ha as [Ha Hka].
    eexists. unfold prm_increment. apply in_map_iff.
    exists (a, l). cbn [fst snd]. split.
    + rewrite Hka, Hr. reflexivity.
    + apply filter_In. split; [|exact Hs].
      apply merge_on_r_In. split; [exact Ha|]. split; [exact Hl|].
      congruence.
  - intros k Hall v H.
    destruct (Hentry k v H) as (a & l & Ha & Hl & Hk & Hk' & Hs & _).
    rewrite (Hno a _ Ha) in Hs; [discriminate|].
    right. now apply Hall.
Qed.

End IncrementFacts.

(** * The assertion on [Dy] *)

Module AssertionFacts.
Import Pandas PandasFacts UpdatePrm UpdatePrmFacts CurveFacts IncrementFacts.

(** ** The table has a row for every positive total *)















(** On doubles the start value of the last segment can fall below the fill
    value 0 that closes the curve: with the shortfalls 0.1,
    0.10000000000000002 and 0.05 the last [y1] is [-2^-56] and the last [y2]
    is 0.  [Dy] is not positive and the slope is below zero on every
    segment all the same. *)
Lemma last_start_value_below_fill :
  map (fun a => (UpdatePrmDoubles.y1 a, UpdatePrmDoubles.y2 a))
      (UpdatePrmDoubles.region_curve 3 UpdatePrmDoubles.three_samples)
  = [(0x1.5555555555555p-4, 0x1.111111111111p-5);
     (0x1.111111111111p-5, -0x1p-56);
     (-0x1p-56, 0)]%float
  /\ existsb (fun a => PrimFloat.ltb (UpdatePrmDoubles.y1 a)
                                     (UpdatePrmDoubles.y2 a))
             (UpdatePrmDoubles.region_curve 3 UpdatePrmDoubles.three_samples)
     = true
  /\ forallb (fun a => PrimFloat.leb (UpdatePrmDoubles.Dy a) 0
                       && PrimFloat.ltb (UpdatePrmDoubles.slope a) 0)
             (UpdatePrmDoubles.region_curve 3 UpdatePrmDoubles.three_samples)
     = true.
Proof.
  split; [vm_compute; reflexivity|].
  split; vm_compute; reflexivity.
Qed.

End AssertionFacts.
(** * Further facts on the regions that failed *)

Module FailedRegionsFacts.
Import Pandas PandasFacts TableFacts StressPeriods StressPeriodsFacts.
Import Orchestrator OrchestratorFacts DictFacts LoopFacts FailedRegions.

Lemma dict_get_some_key (V : Type) (k : string) (v : V)
      (d : dict string V) :
  dict_get String.eqb k d = Some v -> In k (dict_keys d).
Proof.
  intros H.
  destruct (in_dec string_dec k (dict_keys d)) as [Hin|Hn]; [exact Hin|].
  apply (dict_get_keys _ _ String.eqb string_eqb_iff) in Hn. congruence.
Qed.

Lemma failed_regions_of_key (co : Collaborators) (h : Frame string string)
      (failed : dict string (list (string * fval))) (c : string)
      (rows : list failed_region) :
  failed_regions_of co h failed c = Ok rows -> In c (dict_keys failed).
Proof.
  unfold failed_regions_of.
  destruct (split "_" c) as [|lvl [|ppm_text [|sm [|pam [|x l]]]]];
    try discriminate.
  intros H. bind_ok H.
  destruct (dict_get String.eqb c failed) as [fc|] eqn:Eg;
    cbn [bind] in H; [|discriminate].
  now apply dict_get_some_key in Eg.
Qed.

Lemma failed_regions_loop_rows (co : Collaborators) (h : Frame string string)
      (failed : dict string (list (string * fval))) (criteria : list string) :
  forall all,
    failed_regions_loop co h failed criteria = Ok all ->
    Forall (fun c => In c (dict_keys failed)) criteria
    /\ forall a,
        In a all
        <-> exists c rows_c,
            In c criteria
            /\ failed_regions_of co h failed c = Ok rows_c
            /\ In a rows_c.
Proof.
  induction criteria as [|c cs IH]; intros all H;
    cbn [failed_regions_loop] in H.
  - injection H as <-. split; [constructor|].
    intros a. split; [intros []|intros (c & rows_c & [] & _)].
  - bind_ok H. rename a into rows. bind_ok H. rename a into rest.
    injection H as <-.
    destruct (IH rest eq_refl) as [IH1 IH2]. split.
    + constructor; [|exact IH1]. exact (failed_regions_of_key _ _ _ _ _ E).
    + intros a. rewrite in_app_iff, IH2. split.
      * intros [Ha|(c' & rows_c & Hc & Hf & Ha)].
        -- exists c, rows. split; [now left|]. split; [exact E|exact Ha].
        -- exists c', rows_c. split; [now right|]. split; assumption.
      * intros (c' & rows_c & [<-|Hc] & Hf & Ha).
        -- left. rewrite E in Hf. injection Hf as <-. exact Ha.
        -- right. exists c', rows_c. split; [exact Hc|]. split; assumption.
Qed.

Abbreviation by_ppm :=
  (fun a b : failed_region => Qle_bool (ppm a) (ppm b)).
Abbreviation same_r :=
  (fun a b : failed_region => String.eqb (r a) (r b)).

Lemma sorted_by_ppm (l : list failed_region) :
  StronglySorted (fun a b => by_ppm a b = true) (sort_values by_ppm l).
Proof.
  apply sort_values_sorted_on with (P := fun _ : failed_region => True).
  - intros a b _ _ H. apply Qle_bool_iff. apply Qlt_le_weak.
    apply Qnot_le_lt. intros Hle. apply Qle_bool_iff in Hle. congruence.
  - intros a b c _ _ _ H1 H2. apply Qle_bool_iff.
    apply Qle_bool_iff in H1. apply Qle_bool_iff in H2.
    eapply Qle_trans; eassumption.
  - apply Forall_forall. auto.
Qed.

(** X15.  The table of failed regions of [update_prm] has one row per base
    region; every row is a row that some criterion of the list gives, and
    of all the rows that the criteria give for a base region the one kept
    has the lowest [ppm]: a region that failed several criteria is held to
    the most stringent one. *)
Theorem failed_regions_keeps_lowest_ppm
        (co : Collaborators) (h : Frame string string)
        (failed : dict string (list (string * fval)))
        (threshold : string) (rows : list failed_region) :
  failed_regions co h failed threshold = Ok rows ->
  NoDup (map r rows)
  /\ (forall a,
         In a rows ->
         exists c rows_c,
           In c (split "/" threshold)
           /\ failed_regions_of co h failed c = Ok rows_c
           /\ In a rows_c)
  /\ (forall c rows_c x,
         In c (split "/" threshold) ->
         failed_regions_of co h failed c = Ok rows_c ->
         In x rows_c ->
         exists a, In a rows /\ r a = r x /\ ppm a <= ppm x).
Proof.
  unfold failed_regions. intros H. bind_ok H. rename a into all.
  injection H as <-.
  destruct (failed_regions_loop_rows _ _ _ _ _ E) as [_ Hall].
  split; [|split].
  - apply (unique_keys_NoDup _ _ String.eqb r string_eqb_iff).
  - intros a Ha. apply unique_incl in Ha. apply sort_values_In in Ha.
    now apply Hall.
  - intros c rows_c x Hc Hf Hx.
    assert (Hin : In x (sort_values by_ppm all)).
    { apply sort_values_In. apply Hall. exists c, rows_c. auto. }
    destruct (unique_covers _ _ String.eqb r string_eqb_iff x _ Hin)
      as (z & Hz & Ez).
    exists z. split; [exact Hz|]. split; [exact Ez|].
    destruct (unique_first _ _ String.eqb r string_eqb_iff z _ Hz)
      as (l1 & l2 & EL & Hl1).
    pose proof (sorted_by_ppm all) as Hs. rewrite EL in Hin, Hs.
    apply in_app_or in Hin. destruct Hin as [Hin|[Hin|Hin]].
    + rewrite Forall_forall in Hl1. apply Hl1 in Hin. congruence.
    + subst x. apply Qle_refl.
    + apply Qle_bool_iff.
      exact (StronglySorted_app_right _ _ _ _ _ _ Hs Hin).
Qed.

(** X16.  [update_prm] looks every criterion of the list up in [failed].
    Its table of failed regions is made only when every criterion of the
    list is a key of [failed]; and since the loop of [main] ends with the
    first criterion above its threshold, on what [main] hands over it is
    made only when no criterion stands before that one in the list and every
    one after it is the same criterion again. *)
Theorem prm_update_needs_every_criterion_failed
        (co : Collaborators) (sw : Switches) (t : nat) (data : CaseData)
        (dfenergy_r : Frame Timestamp Q) (neue : neue_table)
        (pre : list string) (c : string) (post : list string)
        (out : MainOutput) (rows : list failed_region) :
  get_annual_neue (inputs data) = Ok neue ->
  storage_by_region data = Ok dfenergy_r ->
  GSw_PRM_CapCredit sw = false ->
  Nat.ltb t (GSw_StartMarkets sw) = false ->
  split "/" (GSw_PRM_StressThreshold sw) = pre ++ c :: post ->
  Forall (criterion_passes co sw data neue) pre ->
  threshold_test co neue c = Ok true ->
  main co sw t data = Ok (Some out) ->
  failed_regions co (hierarchy (inputs data)) (failed_criteria out)
                 (GSw_PRM_StressThreshold sw) = Ok rows ->
  Forall (fun c' => In c' (dict_keys (failed_criteria out)))
         (split "/" (GSw_PRM_StressThreshold sw))
  /\ dict_keys (failed_criteria out) = [c]
  /\ pre = []
  /\ Forall (fun c' => c' = c) post.
Proof.
  intros Hneue Hstor Hcap Hstart Hsplit Hpre Hc Hmain Hfr.
  destruct (@criterion_loop_first_failure co sw data dfenergy_r neue
                                          pre c post Hpre Hc)
    as [_ Hst].
  unfold main in Hmain.
  rewrite Hneue, Hcap, Hstart, Hstor, Hsplit in Hmain.
  cbn [orb bind] in Hmain.
  destruct (criterion_loop co sw data dfenergy_r neue empty_state
                           (pre ++ c :: post)) as [st|e] eqn:El;
    cbn [bind] in Hmain; [|discriminate].
  injection Hmain as <-.
  destruct (Hst st eq_refl) as (_ & Hkeys & _).
  cbn [main_output failed_criteria] in *.
  unfold failed_regions in Hfr. bind_ok Hfr.
  destruct (failed_regions_loop_rows _ _ _ _ _ E) as [Hall _].
  split; [exact Hall|]. split; [exact Hkeys|].
  rewrite Hsplit, Hkeys in Hall.
  apply Forall_app in Hall. destruct Hall as [Hp Hq].
  inversion Hq as [|? ? _ Hpost]; subst.
  split.
  - destruct pre as [|p pre']; [reflexivity|]. exfalso.
    inversion Hp as [|? ? Hp1 _]; subst.
    inversion Hpre as [|? ? Hpass _]; subst.
    destruct Hp1 as [->|[]]. destruct Hpass as [_ Hth]. congruence.
  - eapply Forall_impl; [|exact Hpost].
    intros c' [Hc'|[]]. now symmetry.
Qed.

Lemma failed_regions_keeps_lowest_ppm_witness :
  exists rows,
    failed_regions
      OrchestratorExamples.collaborators
      (hierarchy (inputs OrchestratorExamples.three_days))
      [("st_10_EUE_sum"%string, [("CA"%string, Fin 500)]);
       ("transreg_1_EUE_sum"%string, [("CAISO"%string, Fin 500)])]
      "st_10_EUE_sum/transreg_1_EUE_sum"
    = Ok rows
    /\ NoDup (map r rows).
Proof.
  eexists. split; [vm_compute; reflexivity|].
  refine (proj1 (failed_regions_keeps_lowest_ppm
                   OrchestratorExamples.collaborators
                   (hierarchy (inputs OrchestratorExamples.three_days))
                   [("st_10_EUE_sum"%string, [("CA"%string, Fin 500)]);
                    ("transreg_1_EUE_sum"%string,
                     [("CAISO"%string, Fin 500)])]
                   "st_10_EUE_sum/transreg_1_EUE_sum" _ _)).
  vm_compute. reflexivity.
Defined.

Lemma prm_update_needs_every_criterion_failed_witness :
  exists out rows,
    main OrchestratorExamples.collaborators ExtraExamples.single_switches
         2030 OrchestratorExamples.three_days
    = Ok (Some out)
    /\ failed_regions
         OrchestratorExamples.collaborators
         (hierarchy (inputs OrchestratorExamples.three_days))
         (failed_criteria out)
         (GSw_PRM_StressThreshold ExtraExamples.single_switches)
       = Ok rows
    /\ dict_keys (failed_criteria out) = ["st_10_EUE_sum"%string].
Proof.
  do 2 eexists.
  split; [vm_compute; reflexivity|].
  split; [vm_compute; reflexivity|].
  refine (proj1 (proj2 (prm_update_needs_every_criterion_failed
                          OrchestratorExamples.collaborators
                          ExtraExamples.single_switches
                          2030 OrchestratorExamples.three_days
                          OrchestratorExamples.storage_three_days
                          OrchestratorExamples.annual_neue_three_days
                          [] "st_10_EUE_sum"%string [] _ _
                          _ _ _ _ _ _ _ _ _))).
  - vm_compute. reflexivity.
  - vm_compute. reflexivity.
  - reflexivity.
  - reflexivity.
  - vm_compute. reflexivity.
  - constructor.
  - vm_compute. reflexivity.
  - vm_compute. reflexivity.
  - vm_compute. reflexivity.
Defined.

End FailedRegionsFacts.
(** * When [get_stress_periods] returns *)

Module ReturnFacts.
Import Pandas PandasFacts StressPeriods StressPeriodsFacts.
Import Orchestrator OrchestratorFacts.

Lemma aggregated_eue_returns (inp : Inputs) (level : string) :
  (exists fe, aggregated_eue inp level = Ok fe)
  <-> (exists rmap, get_rmap (hierarchy inp) level = Ok rmap)
      /\ length (timeindex inp) = length (index (dfpras inp)).
Proof.
  unfold aggregated_eue, get_pras_eue, set_index.
  destruct (get_rmap (hierarchy inp) level) as [rmap|e]; cbn [bind].
  - destruct (Nat.eqb (length (timeindex inp))
                      (length (index (dfpras inp)))) eqn:E; cbn [bind].
    + apply Nat.eqb_eq in E. split; [intros _|intros _; eexists; reflexivity].
      split; [now exists rmap|exact E].
    + apply Nat.eqb_neq in E. split; [intros [fe H]; discriminate H|].
      intros [_ H]. contradiction.
  - split; [intros [fe H]; discriminate H|].
    intros [[rmap H] _]. discriminate H.
Qed.

Lemma aggregated_eue_index (inp : Inputs) (level : string)
      (fe : Frame Timestamp Q) :
  aggregated_eue inp level = Ok fe -> index fe = timeindex inp.
Proof.
  unfold aggregated_eue, get_pras_eue, set_index.
  destruct (get_rmap (hierarchy inp) level) as [rmap|e]; cbn [bind];
    [|discriminate].
  destruct (Nat.eqb _ _); cbn [bind]; [|discriminate].
  intros [= <-]. reflexivity.
Qed.

Lemma aggregated_load_returns (inp : Inputs) (level : string)
      (fe : Frame Timestamp Q) :
  aggregated_eue inp level = Ok fe ->
  (exists fl, aggregated_load inp level = Ok fl)
  <-> length (index (pras_load inp)) = length (timeindex inp).
Proof.
  intros He. pose proof (aggregated_eue_index _ _ _ He) as Hi.
  assert (Hr : exists rmap, get_rmap (hierarchy inp) level = Ok rmap).
  { apply (aggregated_eue_returns inp level). now exists fe. }
  destruct Hr as [rmap Hr].
  unfold aggregated_load. rewrite Hr, He. cbn [bind].
  unfold set_index. cbn [index groupby_columns_sum rename_columns].
  rewrite Hi.
  destruct (Nat.eqb (length (timeindex inp))
                    (length (index (pras_load inp)))) eqn:E.
  - apply Nat.eqb_eq in E. split; [intros _; now symmetry|].
    intros _. eexists. reflexivity.
  - apply Nat.eqb_neq in E. split; [intros [fl H]; discriminate H|].
    intros H. exfalso. apply E. now symmetry.
Qed.

Lemma same_labels_eq (a b : list string) :
  same_labels a b = true <-> a = b.
Proof.
  revert b. induction a as [|x a IH]; intros [|x' b]; simpl;
    try (split; [discriminate|discriminate]); [tauto|].
  rewrite andb_true_iff, String.eqb_eq, IH. split.
  - intros [-> ->]. reflexivity.
  - intros [= -> ->]. auto.
Qed.

(** X17.  On a PRAS table with a zonal column of unserved energy and a time
    index that is not empty, and with one of the two methods [sum] and
    [max], [get_stress_periods] returns a table exactly when the hierarchy
    has the level, the time index is as long as the PRAS table, and the
    metric is EUE, or NEUE with a load table as long as the time index whose
    aggregated columns are the aggregated columns of the unserved energy
    (the case of the letters of the metric does not matter).  On such data a
    metric that is neither raises UnboundLocalError, and NEUE with two
    tables that do not carry the same aggregated columns raises KeyError. *)
Theorem get_stress_periods_returns_iff
        (co : Collaborators) (inp : Inputs)
        (hourly_type level stress_metric method : string) :
  method = "sum"%string \/ method = "max"%string ->
  timeindex inp <> [] ->
  (exists c, In c (cols (dfpras inp))
             /\ endswith (fst c) eue_tail = true
             /\ startswith (fst c) "USA" = false) ->
  ((exists tbl,
       get_stress_periods co inp hourly_type level stress_metric method
       = Ok tbl)
   <-> (exists rmap, get_rmap (hierarchy inp) level = Ok rmap)
       /\ length (timeindex inp) = length (index (dfpras inp))
       /\ (upper stress_metric = "EUE"%string
           \/ (upper stress_metric = "NEUE"%string
               /\ length (index (pras_load inp)) = length (timeindex inp)
               /\ exists fe fl,
                   aggregated_eue inp level = Ok fe
                   /\ aggregated_load inp level = Ok fl
                   /\ map fst (cols fe) = map fst (cols fl))))
  /\ ((exists rmap, get_rmap (hierarchy inp) level = Ok rmap) ->
      length (timeindex inp) = length (index (dfpras inp)) ->
      upper stress_metric <> "EUE"%string ->
      upper stress_metric <> "NEUE"%string ->
      get_stress_periods co inp hourly_type level stress_metric method
      = Raise UnboundLocalError)
  /\ (forall fe fl,
         upper stress_metric = "NEUE"%string ->
         aggregated_eue inp level = Ok fe ->
         aggregated_load inp level = Ok fl ->
         map fst (cols fe) <> map fst (cols fl) ->
         get_stress_periods co inp hourly_type level stress_metric method
         = Raise KeyError).
Proof.
  intros Hm _ _.
  assert (Hagg : exists f, agg_by_name method = Ok f).
  { unfold agg_by_name. destruct Hm as [-> | ->]; eexists; reflexivity. }
  destruct Hagg as [agg Hagg].
  pose proof (aggregated_eue_returns inp level) as He.
  unfold get_stress_periods, columns_called_r, dfmetric_period.
  destruct (aggregated_eue inp level) as [fe|e] eqn:Ee; cbn [bind].
  - destruct (proj1 He (ex_intro _ fe eq_refl)) as [Hr Hl].
    pose proof (aggregated_load_returns inp level fe Ee) as Hload.
    destruct (String.eqb (upper stress_metric) "EUE") eqn:E1.
    + apply String.eqb_eq in E1. rewrite Hagg. cbn [bind]. split; [|split].
      * split; [intros _; auto|intros _; eexists; reflexivity].
      * intros _ _ H. contradiction.
      * intros fe' fl' H. rewrite E1 in H. discriminate H.
    + apply String.eqb_neq in E1.
      destruct (String.eqb (upper stress_metric) "NEUE") eqn:E2.
      * apply String.eqb_eq in E2.
        destruct (aggregated_load inp level) as [fl|e] eqn:El; cbn [bind].
        -- assert (HL : length (index (pras_load inp))
                        = length (timeindex inp))
             by (apply Hload; now exists fl).
           assert (Hf : exists f,
                      (if String.eqb method "sum"
                       then Ok (frame_map times_1e6
                                  (frame_div (groupby_day Qsum fe)
                                             (groupby_day Qsum fl)))
                       else if String.eqb method "max"
                            then Ok (frame_map times_1e6
                                       (groupby_day series_fmax
                                                    (frame_div fe fl)))
                            else Raise UnboundLocalError) = Ok f).
           { destruct Hm as [-> | ->]; cbn; eexists; reflexivity. }
           destruct Hf as [f Hf]. rewrite Hf. cbn [bind].
           destruct (same_labels (map fst (cols fe)) (map fst (cols fl)))
             eqn:Es.
           ++ apply same_labels_eq in Es.
              split; [|split].
              ** split; [intros _|intros _; eexists; reflexivity].
                 split; [exact Hr|]. split; [exact Hl|]. right.
                 split; [exact E2|]. split; [exact HL|].
                 exists fe, fl. auto.
              ** intros _ _ _ H. contradiction.
              ** intros fe' fl' _ [= <-] [= <-] H. contradiction.
           ++ split; [|split].
              ** split; [intros [tbl H]; discriminate H|].
                 intros (_ & _ & [H|(_ & _ & fe' & fl' & H1 & H2 & H3)]);
                   [contradiction|].
                 injection H1 as <-. injection H2 as <-.
                 apply same_labels_eq in H3. congruence.
              ** intros _ _ _ H. contradiction.
              ** intros; reflexivity.
        -- split; [|split].
           ++ split; [intros [tbl H]; discriminate H|].
              intros (_ & _ & [H|(_ & H & _)]); [contradiction|].
              apply Hload in H. destruct H as [fl H]. discriminate H.
           ++ intros _ _ _ H. contradiction.
           ++ intros fe' fl' _ _ H. discriminate H.
      * apply String.eqb_neq in E2. cbn [bind]. split; [|split].
        -- split; [intros [tbl H]; discriminate H|].
           intros (_ & _ & [H|[H _]]); contradiction.
        -- reflexivity.
        -- intros fe' fl' H. contradiction.
  - split; [|split].
    + split; [intros [tbl H]; discriminate H|].
      intros (Hr & Hl & _).
      destruct (proj2 He (conj Hr Hl)) as [fe H]. discriminate H.
    + intros Hr Hl _ _.
      destruct (proj2 He (conj Hr Hl)) as [fe H]. discriminate H.
    + intros fe' fl' _ H. discriminate H.
Qed.

Lemma get_stress_periods_returns_iff_witness :
  get_stress_periods OrchestratorExamples.collaborators
                     (inputs OrchestratorExamples.three_days)
                     "day" "st" "LOLE" "sum"
  = Raise UnboundLocalError
  /\ get_stress_periods OrchestratorExamples.collaborators
                        ExtraExamples.two_days_stray_load
                        "day" "st" "NEUE" "max"
     = Raise KeyError.
Proof.
  split.
  - refine (proj1 (proj2 (get_stress_periods_returns_iff
                            OrchestratorExamples.collaborators
                            (inputs OrchestratorExamples.three_days)
                            "day" "st" "LOLE" "sum" _ _ _)) _ _ _ _).
    + left. reflexivity.
    + discriminate.
    + eexists. split; [left; reflexivity|]. split; reflexivity.
    + eexists. vm_compute. reflexivity.
    + vm_compute. reflexivity.
    + vm_compute. discriminate.
    + vm_compute. discriminate.
  - refine (proj2 (proj2 (get_stress_periods_returns_iff
                            OrchestratorExamples.collaborators
                            ExtraExamples.two_days_stray_load
                            "day" "st" "NEUE" "max" _ _ _)) _ _ _ _ _ _).
    + right. reflexivity.
    + discriminate.
    + eexists. split; [left; reflexivity|]. split; reflexivity.
    + reflexivity.
    + vm_compute. reflexivity.
    + vm_compute. reflexivity.
    + vm_compute. discriminate.
Defined.

End ReturnFacts.
(** * Further facts on the table of new stress periods *)

Module NewPeriodsFacts.
Import Pandas PandasFacts TableFacts StressPeriods StressPeriodsFacts.
Import Orchestrator OrchestratorFacts DictFacts LoopFacts.

(** The keys of the first dictionary stay where they are. *)
Lemma dict_merge_head (K V : Type) (eqb : K -> K -> bool) (k : K) (v : V)
      (d2 : dict K V) :
  (forall a b, eqb a b = true -> a = b) ->
  (forall kv2, In kv2 d2 -> fst kv2 <> k) ->
  forall d1, exists rest, dict_merge eqb ((k, v) :: d1) d2 = (k, v) :: rest.
Proof.
  intros Heq. unfold dict_merge.
  induction d2 as [|[k2 v2] d2 IH]; intros Hne d1; cbn [fold_left].
  - now exists d1.
  - cbn [fst snd dict_set].
    destruct (eqb k k2) eqn:E.
    + apply Heq in E. exfalso. apply (Hne (k2, v2)); [now left|].
      now symmetry.
    + apply IH. intros kv2 H2. apply Hne. now right.
Qed.

Lemma unique_app_incl (A : Type) (eqb : A -> A -> bool) (x : A)
      (l1 l2 : list A) :
  In x (unique eqb l1) -> In x (unique eqb (l1 ++ l2)).
Proof.
  induction l1 as [|k l1 IH]; cbn [unique app]; [intros []|].
  intros [H|H]; [now left|]. right.
  apply filter_In in H. destruct H as [H Hn].
  apply filter_In. split; [now apply IH|exact Hn].
Qed.

Abbreviation period_name := (fun n : new_period => actual_period (period n)).

(** ** The state that the first criterion above its threshold leaves *)

Lemma first_failure_state
      (co : Collaborators) (sw : Switches) (data : CaseData)
      (dfenergy_r : Frame Timestamp Q) (neue : neue_table)
      (pre : list string) (c : string) (post : list string)
      (st : LoopState) :
  Forall (criterion_passes co sw data neue) pre ->
  threshold_test co neue c = Ok true ->
  criterion_loop co sw data dfenergy_r neue empty_state (pre ++ c :: post)
  = Ok st ->
  exists tbl sm failed_c,
    candidate_periods co sw data c = Ok tbl
    /\ failed st = [(c, failed_c)]
    /\ high_eue_periods st
       = [((c, String.append "high_" sm),
           select_periods sw data (sort_values by_metric tbl) failed_c)]
    /\ forall kv,
        In kv (shoulder_periods st) ->
        shoulder_entry
          co c (select_periods sw data (sort_values by_metric tbl) failed_c)
          kv.
Proof.
  intros Hpre Hc Hloop.
  destruct (@loop_passes co sw data dfenergy_r neue pre Hpre empty_state)
    as (st' & F & Hi & Sh & _ & _ & Loop).
  rewrite (Loop (c :: post)) in Hloop. cbn [criterion_loop] in Hloop.
  destruct (criterion_step co sw data dfenergy_r neue st' c) as [res|e] eqn:Es;
    cbn [bind] in Hloop; [|discriminate].
  destruct (@step_fail co sw data dfenergy_r neue st' c res Hc Es)
    as (Hb & tbl & sm & failed_c & Ht & _ & Hf & Hh & _ & Hsh).
  rewrite Hb in Hloop. injection Hloop as <-.
  rewrite F in Hf. rewrite Hi in Hh. cbn in Hf, Hh.
  exists tbl, sm, failed_c.
  split; [exact Ht|]. split; [exact Hf|]. split; [exact Hh|].
  intros kv Hkv. destruct (Hsh kv Hkv) as [Hin|He]; [|exact He].
  rewrite Sh in Hin. destruct Hin.
Qed.

(** X18.  What [main] makes of the first criterion [c] above its threshold:
    [failed] holds the regions of [c] alone, the table of new stress periods
    names no period twice, every period selected for [c] is named in it by a
    row of type [high_<metric>] under [c], and its rows of that type are
    periods selected for [c]: a shoulder period never stands in for a
    selected period. *)
Theorem new_periods_cover_the_selection
        (co : Collaborators) (sw : Switches) (t : nat) (data : CaseData)
        (dfenergy_r : Frame Timestamp Q) (neue : neue_table)
        (pre : list string) (c : string) (post : list string)
        (out : MainOutput) :
  get_annual_neue (inputs data) = Ok neue ->
  storage_by_region data = Ok dfenergy_r ->
  GSw_PRM_CapCredit sw = false ->
  Nat.ltb t (GSw_StartMarkets sw) = false ->
  split "/" (GSw_PRM_StressThreshold sw) = pre ++ c :: post ->
  Forall (criterion_passes co sw data neue) pre ->
  threshold_test co neue c = Ok true ->
  main co sw t data = Ok (Some out) ->
  exists tbl sm failed_c news,
    candidate_periods co sw data c = Ok tbl
    /\ failed_criteria out = [(c, failed_c)]
    /\ new_periods out = Some news
    /\ NoDup (map period_name news)
    /\ (forall a,
           In a (select_periods sw data (sort_values by_metric tbl)
                                failed_c) ->
           exists n, In n news /\ period_name n = actual_period a
                     /\ criterion_of n = c
                     /\ periodtype n = String.append "high_" sm)
    /\ (forall n,
           In n news -> periodtype n = String.append "high_" sm ->
           In (period n)
              (select_periods sw data (sort_values by_metric tbl)
                              failed_c)).
Proof.
  intros Hneue Hstor Hcap Hstart Hsplit Hpre Hc Hmain.
  unfold main in Hmain.
  rewrite Hneue, Hcap, Hstart, Hstor, Hsplit in Hmain.
  cbn [orb bind] in Hmain.
  destruct (criterion_loop co sw data dfenergy_r neue empty_state
                           (pre ++ c :: post)) as [st|e] eqn:El;
    cbn [bind] in Hmain; [|discriminate].
  injection Hmain as <-.
  destruct (first_failure_state co sw data dfenergy_r neue pre c post st
                                Hpre Hc El)
    as (tbl & sm & failed_c & Ht & Hf & Hh & Hsh).
  set (rows := select_periods sw data (sort_values by_metric tbl) failed_c)
    in *.
  exists tbl, sm, failed_c.
  cbn [main_output failed_criteria new_periods].
  unfold new_stress_periods. rewrite Hf, Hh.
  eexists. split; [exact Ht|]. split; [reflexivity|].
  split; [reflexivity|].
  set (merged := dict_merge key2_eqb
                            [((c, String.append "high_" sm), rows)]
                            (shoulder_periods st)).
  assert (Hkeys : forall kv2,
             In kv2 (shoulder_periods st) ->
             fst kv2 <> (c, String.append "high_" sm)).
  { intros kv2 H2 E. destruct (Hsh kv2 H2) as (_ & q & tq & _ & _ & Hl).
    rewrite E in Hl. cbn [fst snd] in Hl.
    destruct Hl as [Hl|Hl]; cbn in Hl; discriminate Hl. }
  split; [|split].
  - apply (unique_keys_NoDup _ _ String.eqb period_name string_eqb_iff).
  - intros a Ha.
    destruct (dict_merge_head _ _ key2_eqb (c, String.append "high_" sm)
                              rows (shoulder_periods st) key2_eqb_eq
                              Hkeys [])
      as [rest Hrest].
    unfold merged. rewrite Hrest.
    unfold concat_periods. cbn [flat_map fst snd].
    set (mk := fun a0 : period_row =>
                 {| criterion_of := c;
                    periodtype := String.append "high_" sm;
                    period := a0 |}).
    destruct (unique_covers _ _ String.eqb period_name string_eqb_iff
                            (mk a) (map mk rows) (in_map mk rows a Ha))
      as (n & Hn & En).
    exists n. split; [now apply unique_app_incl|].
    split; [exact En|].
    apply unique_incl in Hn. apply in_map_iff in Hn.
    destruct Hn as (a0 & <- & _). split; reflexivity.
  - intros n Hn Hty. apply unique_incl in Hn.
    apply concat_periods_In in Hn.
    destruct Hn as (kv & Hkv & Hp & _ & Hpt).
    apply (dict_merge_In key2_eqb _ key2_eqb_eq) in Hkv.
    destruct Hkv as [[<-|[]]|Hkv]; [exact Hp|].
    exfalso. destruct (Hsh kv Hkv) as (_ & q & tq & _ & _ & Hl).
    rewrite <- Hpt, Hty in Hl.
    destruct Hl as [Hl|Hl]; cbn in Hl; discriminate Hl.
Qed.

Lemma new_periods_cover_the_selection_witness :
  exists tbl sm failed_c news,
    candidate_periods OrchestratorExamples.collaborators
                      OrchestratorExamples.switches
                      OrchestratorExamples.three_days "st_10_EUE_sum"
    = Ok tbl
    /\ failed_criteria
         (match main OrchestratorExamples.collaborators
                     OrchestratorExamples.switches
                     2030 OrchestratorExamples.three_days with
          | Ok (Some o) => o
          | _ => main_output empty_state
          end)
       = [("st_10_EUE_sum"%string, failed_c)]
    /\ new_periods
         (match main OrchestratorExamples.collaborators
                     OrchestratorExamples.switches
                     2030 OrchestratorExamples.three_days with
          | Ok (Some o) => o
          | _ => main_output empty_state
          end)
       = Some news
    /\ NoDup (map period_name news)
    /\ (forall a,
           In a (select_periods OrchestratorExamples.switches
                                OrchestratorExamples.three_days
                                (sort_values by_metric tbl) failed_c) ->
           exists n, In n news /\ period_name n = actual_period a
                     /\ criterion_of n = "st_10_EUE_sum"%string
                     /\ periodtype n = String.append "high_" sm)
    /\ (forall n,
           In n news -> periodtype n = String.append "high_" sm ->
           In (period n)
              (select_periods OrchestratorExamples.switches
                              OrchestratorExamples.three_days
                              (sort_values by_metric tbl) failed_c)).
Proof.
  apply (new_periods_cover_the_selection
           OrchestratorExamples.collaborators
           OrchestratorExamples.switches
           2030 OrchestratorExamples.three_days
           OrchestratorExamples.storage_three_days
           OrchestratorExamples.annual_neue_three_days
           ["st_100000_EUE_sum"%string] "st_10_EUE_sum"%string
           ["r_1_EUE_max"%string]).
  - vm_compute. reflexivity.
  - vm_compute. reflexivity.
  - reflexivity.
  - reflexivity.
  - vm_compute. reflexivity.
  - constructor; [|constructor]. split.
    + eexists. vm_compute. reflexivity.
    + vm_compute. reflexivity.
  - vm_compute. reflexivity.
  - vm_compute. reflexivity.
Defined.

End NewPeriodsFacts.

(** * The new stress periods of the first criterion above its threshold *)

Module FirstFailureFacts.
Import Pandas PandasFacts TableFacts StressPeriods StressPeriodsFacts.
Import Orchestrator OrchestratorFacts DictFacts SelectionFacts LoopFacts.
Import ShoulderFacts NewPeriodsFacts.

(** An entry of [shoulder_periods] that holds the shoulder period of one of
    [rows] on one side, under its key. *)
Abbreviation day_entry co timeindex periodhours criterion rows kv :=
  (fst (fst kv) = criterion
   /\ exists (q : period_row) (after : bool) (s : period_row),
       In q rows
       /\ shoulder_day co timeindex periodhours after q s
       /\ snd kv = [s]
       /\ snd (fst kv) = shoulder_label after q).

Lemma shoulder_row_days
      (co : Collaborators) (timeindex : list Timestamp)
      (dfenergy_agg : Frame Timestamp Q)
      (criterion stress_metric cutofftype cutoff : string) (periodhours : nat)
      (sh sh' : dict (string * string) (list period_row)) (row : period_row) :
  index dfenergy_agg = timeindex ->
  shoulder_row co timeindex dfenergy_agg criterion stress_metric cutofftype
               cutoff periodhours sh row = Ok sh' ->
  forall kv,
    In kv sh' ->
    In kv sh \/ day_entry co timeindex periodhours criterion [row] kv.
Proof.
  intros Hidx H kv Hkv.
  destruct (col_lookup (r row) (cols dfenergy_agg)) as [col|] eqn:Ec.
  2:{ unfold shoulder_row in H. rewrite Ec in H. injection H as <-.
      now left. }
  assert (Hc : col_lookup (r row) (cols dfenergy_agg) <> None)
    by congruence.
  destruct (shoulder_row_shape co timeindex dfenergy_agg criterion
                               stress_metric cutofftype cutoff periodhours
                               sh sh' row Hc H)
    as (i & t0 & t_a & t_b & after & before
        & H0 & Hi & _ & Ha & Hb & _ & Hs & _).
  rewrite Hidx in H0. subst sh'.
  assert (Hafter :
            forall kv0,
              In kv0 (put_shoulder after
                        (criterion,
                         String.append "after_" (actual_period row))
                        (shoulder_of co row t_a) sh) ->
              In kv0 sh
              \/ day_entry co timeindex periodhours criterion [row] kv0).
  { intros kv0 Hin. unfold put_shoulder in Hin.
    destruct after; [|now left].
    apply dict_set_In in Hin. destruct Hin as [[Hv Hk]|Hin]; [|now left].
    right.
    assert (Hk' : fst kv0
                  = (criterion, String.append "after_" (actual_period row))).
    { destruct Hk as [Hk|Hk]; [exact Hk|now apply key2_eqb_eq]. }
    rewrite Hk'. split; [reflexivity|].
    exists row, true. eexists.
    split; [now left|]. split; [|split; [exact Hv|reflexivity]].
    exists t0, t_a, i. auto. }
  unfold put_shoulder in Hkv at 1.
  destruct before; [|now apply Hafter].
  apply dict_set_In in Hkv. destruct Hkv as [[Hv Hk]|Hin];
    [|now apply Hafter].
  right.
  assert (Hk' : fst kv
                = (criterion, String.append "before_" (actual_period row))).
  { destruct Hk as [Hk|Hk]; [exact Hk|now apply key2_eqb_eq]. }
  rewrite Hk'. split; [reflexivity|].
  exists row, false. eexists.
  split; [now left|]. split; [|split; [exact Hv|reflexivity]].
  exists t0, t_b, i. auto.
Qed.

Lemma shoulder_rows_days
      (co : Collaborators) (timeindex : list Timestamp)
      (dfenergy_agg : Frame Timestamp Q)
      (criterion stress_metric cutofftype cutoff : string) (periodhours : nat)
      (rows : list period_row) :
  index dfenergy_agg = timeindex ->
  forall sh sh',
    shoulder_rows co timeindex dfenergy_agg criterion stress_metric cutofftype
                  cutoff periodhours sh rows = Ok sh' ->
    forall kv,
      In kv sh' ->
      In kv sh \/ day_entry co timeindex periodhours criterion rows kv.
Proof.
  intros Hidx.
  induction rows as [|row rows IH]; intros sh sh' H kv Hkv;
    cbn [shoulder_rows] in H.
  - injection H as <-. now left.
  - bind_ok H. rename a into sh1.
    destruct (IH _ _ H kv Hkv) as [Hin|(Hc & q & af & s & Hq & Hrest)].
    + destruct (shoulder_row_days co timeindex dfenergy_agg criterion
                                  stress_metric cutofftype cutoff periodhours
                                  sh sh1 row Hidx E kv Hin)
        as [H1|(Hc & q & af & s & Hq & Hrest)]; [now left|].
      right. split; [exact Hc|]. exists q, af, s.
      split; [|exact Hrest]. destruct Hq as [<-|[]]. now left.
    + right. split; [exact Hc|]. exists q, af, s.
      split; [now right|exact Hrest].
Qed.

Lemma add_shoulders_days
      (co : Collaborators) (sw : Switches) (data : CaseData)
      (dfenergy_r : Frame Timestamp Q)
      (criterion hierarchy_level stress_metric : string)
      (rows : list period_row) (st st' : LoopState) :
  index dfenergy_r = timeindex (inputs data) ->
  add_shoulders co sw data dfenergy_r criterion hierarchy_level stress_metric
                rows st = Ok st' ->
  forall kv,
    In kv (shoulder_periods st') ->
    In kv (shoulder_periods st)
    \/ exists periodhours,
        periodhours_of (GSw_HourlyType sw) = Ok periodhours
        /\ day_entry co (timeindex (inputs data)) periodhours criterion rows
                     kv.
Proof.
  intros Hidx. unfold add_shoulders.
  destruct (isin _ _); [intros H; injection H as <-; now left|].
  destruct (frame_empty dfenergy_r); [intros H; injection H as <-; now left|].
  destruct (split "_" _) as [|cutofftype [|cutoff [|x l]]]; try discriminate.
  intros H. bind_ok H. rename a into periodhours.
  bind_ok H. rename a into rmap. bind_ok H. rename a into sh.
  injection H as <-. cbn [shoulder_periods]. intros kv Hkv.
  destruct (shoulder_rows_days
              co (timeindex (inputs data))
              (groupby_columns_sum (rename_columns rmap dfenergy_r))
              criterion stress_metric cutofftype cutoff periodhours rows
              Hidx _ _ E1 kv Hkv) as [Hin|Hd].
  - now left.
  - right. exists periodhours. split; [reflexivity|exact Hd].
Qed.

Lemma storage_by_region_index (data : CaseData)
      (dfenergy_r : Frame Timestamp Q) :
  storage_by_region data = Ok dfenergy_r ->
  index dfenergy_r = timeindex (inputs data).
Proof.
  unfold storage_by_region, set_index.
  destruct (Nat.eqb _ _); cbn [bind]; [|discriminate].
  cbn [index cols].
  destruct (region_columns (cols (dfenergy data))); cbn [bind];
    [|discriminate].
  intros [= <-]. reflexivity.
Qed.

(** The state that the first criterion above its threshold leaves, with the
    days of its shoulder periods. *)
Lemma first_failure_days
      (co : Collaborators) (sw : Switches) (data : CaseData)
      (dfenergy_r : Frame Timestamp Q) (neue : neue_table)
      (pre : list string) (c : string) (post : list string)
      (st : LoopState) :
  index dfenergy_r = timeindex (inputs data) ->
  Forall (criterion_passes co sw data neue) pre ->
  threshold_test co neue c = Ok true ->
  criterion_loop co sw data dfenergy_r neue empty_state (pre ++ c :: post)
  = Ok st ->
  exists tbl sm failed_c,
    candidate_periods co sw data c = Ok tbl
    /\ failed st = [(c, failed_c)]
    /\ high_eue_periods st
       = [((c, String.append "high_" sm),
           select_periods sw data (sort_values by_metric tbl) failed_c)]
    /\ forall kv,
        In kv (shoulder_periods st) ->
        exists periodhours,
          periodhours_of (GSw_HourlyType sw) = Ok periodhours
          /\ day_entry co (timeindex (inputs data)) periodhours c
                       (select_periods sw data (sort_values by_metric tbl)
                                       failed_c)
                       kv.
Proof.
  intros Hidx Hpre Hc Hloop.
  destruct (@loop_passes co sw data dfenergy_r neue pre Hpre empty_state)
    as (st' & F & Hi & Sh & _ & _ & Loop).
  rewrite (Loop (c :: post)) in Hloop. cbn [criterion_loop] in Hloop.
  destruct (criterion_step co sw data dfenergy_r neue st' c) as [res|e] eqn:Es;
    cbn [bind] in Hloop; [|discriminate].
  unfold criterion_step, candidate_periods, threshold_test in *.
  destruct (split "_" c) as [|lvl [|ppm [|sm [|pam [|x l]]]]];
    try discriminate.
  bind_ok Es. rename a into tbl.
  bind_ok Hc. bind_ok Hc. injection Hc as Hc.
  cbn [bind] in Es. rewrite Hc in Es.
  bind_ok Es. rename a1 into st3. injection Es as <-.
  cbn [snd fst] in Hloop. injection Hloop as <-.
  pose proof (@add_shoulders_inv _ _ _ _ _ _ _ _ _ _ E2) as (_ & H2 & H3 & _ & _).
  cbn in H2, H3. rewrite F in H2. rewrite Hi in H3. cbn in H2, H3.
  exists tbl, sm. eexists.
  split; [reflexivity|]. split; [exact H2|]. split; [exact H3|].
  intros kv Hkv.
  destruct (add_shoulders_days _ _ _ _ _ _ _ _ _ _ Hidx E2 kv Hkv)
    as [Hin|Hd]; [|exact Hd].
  cbn in Hin. rewrite Sh in Hin. destruct Hin.
Qed.

(** C3.  In [main], when the criteria before [c] in the list pass and [c] is
    above its threshold, the criteria after [c] are not evaluated: [main]
    gives what the loop over the criteria up to [c] gives, whatever comes
    after [c]; the lines printed on thresholds are those of the criteria up
    to [c]; [c] is the one entry of [failed].  Every new stress period is
    recorded under [c], and it is either one of the candidate periods of [c]
    that the selection kept, or the shoulder period of such a period: the
    day of the time index one period after or before it, which need not be
    a candidate period of [c]. *)
Theorem first_failing_criterion_and_its_shoulders
        (co : Collaborators) (sw : Switches) (t : nat) (data : CaseData)
        (dfenergy_r : Frame Timestamp Q) (neue : neue_table)
        (pre : list string) (c : string) (post : list string) :
  get_annual_neue (inputs data) = Ok neue ->
  storage_by_region data = Ok dfenergy_r ->
  GSw_PRM_CapCredit sw = false ->
  Nat.ltb t (GSw_StartMarkets sw) = false ->
  split "/" (GSw_PRM_StressThreshold sw) = pre ++ c :: post ->
  Forall (criterion_passes co sw data neue) pre ->
  threshold_test co neue c = Ok true ->
  main co sw t data
  = (st <- criterion_loop co sw data dfenergy_r neue empty_state
                          (pre ++ [c]) ;;
     Ok (Some (main_output st)))
  /\ forall out,
      main co sw t data = Ok (Some out) ->
      printed out = map Passed pre ++ [Failed c]
      /\ (forall k, In k (dict_keys (eue_sorted_periods out)) ->
                    In k (pre ++ [c]))
      /\ exists tbl failed_c news,
          candidate_periods co sw data c = Ok tbl
          /\ failed_criteria out = [(c, failed_c)]
          /\ new_periods out = Some news
          /\ forall n,
              In n news ->
              criterion_of n = c
              /\ ((In (period n) tbl
                   /\ In (period n)
                         (select_periods sw data (sort_values by_metric tbl)
                                         failed_c))
                  \/ exists q after periodhours,
                      In q tbl
                      /\ In q (select_periods
                                 sw data (sort_values by_metric tbl) failed_c)
                      /\ periodhours_of (GSw_HourlyType sw) = Ok periodhours
                      /\ shoulder_day co (timeindex (inputs data))
                                      periodhours after q (period n)
                      /\ periodtype n = shoulder_label after q).
Proof.
  intros Hneue Hstor Hcap Hstart Hsplit Hpre Hc.
  destruct (@criterion_loop_first_failure co sw data dfenergy_r neue
                                          pre c post Hpre Hc)
    as [Hloop Hst].
  assert (Hmain :
            main co sw t data
            = (st <- criterion_loop co sw data dfenergy_r neue empty_state
                                    (pre ++ c :: post) ;;
               Ok (Some (main_output st)))).
  { unfold main. rewrite Hneue, Hcap, Hstart, Hstor, Hsplit. reflexivity. }
  split.
  - rewrite Hmain, Hloop. reflexivity.
  - intros out Hout. rewrite Hmain in Hout.
    destruct (criterion_loop co sw data dfenergy_r neue empty_state
                             (pre ++ c :: post)) as [st|e] eqn:El;
      [|discriminate Hout].
    cbn [bind] in Hout. injection Hout as <-.
    destruct (Hst st eq_refl) as (Hprint & _ & Hkeys & _).
    split; [exact Hprint|]. split; [exact Hkeys|].
    destruct (first_failure_days co sw data dfenergy_r neue pre c post st
                                 (storage_by_region_index data dfenergy_r
                                                          Hstor)
                                 Hpre Hc El)
      as (tbl & sm & failed_c & Ht & Hf & Hh & Hsh).
    exists tbl, failed_c.
    cbn [main_output failed_criteria new_periods].
    unfold new_stress_periods. rewrite Hf, Hh.
    eexists. split; [exact Ht|]. split; [reflexivity|].
    split; [reflexivity|].
    assert (Hrows : forall q,
               In q (select_periods sw data (sort_values by_metric tbl)
                                    failed_c) ->
               In q tbl).
    { intros q Hq. apply select_periods_incl in Hq.
      destruct Hq as [Hq _]. now apply sort_values_In in Hq. }
    intros n Hn. apply unique_incl in Hn. apply concat_periods_In in Hn.
    destruct Hn as (kv & Hkv & Hp & Hcr & Hty).
    apply (dict_merge_In key2_eqb _ key2_eqb_eq) in Hkv.
    destruct Hkv as [[<-|[]]|Hkv].
    + cbn [fst snd] in Hp, Hcr. split; [exact Hcr|]. left.
      split; [now apply Hrows|exact Hp].
    + destruct (Hsh kv Hkv)
        as (ph & Hph & Hk & q & af & s & Hq & Hday & Hv & Hl).
      split; [now rewrite Hcr|]. right.
      exists q, af, ph.
      rewrite Hv in Hp. destruct Hp as [<-|[]].
      split; [now apply Hrows|]. split; [exact Hq|].
      split; [exact Hph|]. split; [exact Hday|].
      now rewrite Hty.
Qed.

Lemma first_failing_criterion_and_its_shoulders_witness :
  main OrchestratorExamples.collaborators OrchestratorExamples.switches
       2030 OrchestratorExamples.three_days
  = (st <- criterion_loop
             OrchestratorExamples.collaborators
             OrchestratorExamples.switches
             OrchestratorExamples.three_days
             OrchestratorExamples.storage_three_days
             OrchestratorExamples.annual_neue_three_days
             empty_state
             (["st_100000_EUE_sum"%string] ++ ["st_10_EUE_sum"%string]) ;;
     Ok (Some (main_output st))).
Proof.
  refine (proj1 (first_failing_criterion_and_its_shoulders
                   OrchestratorExamples.collaborators
                   OrchestratorExamples.switches
                   2030 OrchestratorExamples.three_days
                   OrchestratorExamples.storage_three_days
                   OrchestratorExamples.annual_neue_three_days
                   ["st_100000_EUE_sum"%string] "st_10_EUE_sum"%string
                   ["r_1_EUE_max"%string] _ _ _ _ _ _ _)).
  - vm_compute. reflexivity.
  - vm_compute. reflexivity.
  - reflexivity.
  - reflexivity.
  - vm_compute. reflexivity.
  - constructor; [|constructor]. split.
    + eexists. vm_compute. reflexivity.
    + vm_compute. reflexivity.
  - vm_compute. reflexivity.
Defined.

(** On the three days of [OrchestratorExamples] the first criterion passes
    and the second, [st_10_EUE_sum], is above its threshold.  Its candidate
    periods are the second and the third day; the first day has no unserved
    energy and is no candidate period of any criterion, and comes in all
    the same as the shoulder period before the second day. *)
Lemma shoulder_period_is_no_candidate :
  exists (out : MainOutput) (news : list new_period) (tbl : list period_row),
    threshold_test OrchestratorExamples.collaborators
                   OrchestratorExamples.annual_neue_three_days
                   "st_100000_EUE_sum" = Ok false
    /\ threshold_test OrchestratorExamples.collaborators
                      OrchestratorExamples.annual_neue_three_days
                      "st_10_EUE_sum" = Ok true
    /\ main OrchestratorExamples.collaborators OrchestratorExamples.switches
            2030 OrchestratorExamples.three_days = Ok (Some out)
    /\ new_periods out = Some news
    /\ candidate_periods OrchestratorExamples.collaborators
                         OrchestratorExamples.switches
                         OrchestratorExamples.three_days "st_10_EUE_sum"
       = Ok tbl
    /\ map actual_period tbl = ["y2012d184"; "y2012d185"]%string
    /\ map (fun n => (periodtype n, actual_period (period n))) news
       = [("high_EUE", "y2012d184"); ("after_y2012d184", "y2012d185");
          ("before_y2012d184", "y2012d183")]%string
    /\ existsb (fun n =>
                  negb (existsb
                          (fun a => String.eqb (actual_period a)
                                               (actual_period (period n)))
                          tbl))
               news
       = true.
Proof.
  do 3 eexists.
  split; [vm_compute; reflexivity|].
  split; [vm_compute; reflexivity|].
  split; [vm_compute; reflexivity|].
  split; [vm_compute; reflexivity|].
  split; [vm_compute; reflexivity|].
  split; [vm_compute; reflexivity|].
  split; vm_compute; reflexivity.
Qed.

End FirstFailureFacts.
(** * Facts on the labels of the periods written for the next iteration *)

Module PeriodsWriteFacts.
Import Pandas StressPeriods Orchestrator PeriodsWrite.

(** ** Strings *)

Lemma all_chars_app (P : ascii -> bool) (a b : string) :
  all_chars P (String.append a b) = all_chars P a && all_chars P b.
Proof.
  induction a as [|c a IH]; simpl; [reflexivity|].
  now rewrite IH, andb_assoc.
Qed.

Lemma all_chars_impl (P Q : ascii -> bool) (s : string) :
  (forall c, P c = true -> Q c = true) ->
  all_chars P s = true -> all_chars Q s = true.
Proof.
  intros H. induction s as [|c s IH]; simpl; [reflexivity|].
  intros Hs. apply andb_true_iff in Hs. destruct Hs as [Hc Hs].
  now rewrite (H c Hc), IH.
Qed.

Lemma lstrip_id (chars s : string) :
  all_chars (fun c => negb (mem_ascii c chars)) s = true ->
  lstrip chars s = s.
Proof.
  destruct s as [|c s]; simpl; [reflexivity|].
  intros H. apply andb_true_iff in H. destruct H as [Hc _].
  apply negb_true_iff in Hc. now rewrite Hc.
Qed.

Lemma rstrip_id (chars s : string) :
  all_chars (fun c => negb (mem_ascii c chars)) s = true ->
  rstrip chars s = s.
Proof.
  induction s as [|c s IH]; simpl; [reflexivity|].
  intros H. apply andb_true_iff in H. destruct H as [Hc Hs].
  apply negb_true_iff in Hc. rewrite (IH Hs), Hc.
  destruct s; reflexivity.
Qed.

Lemma split_none (sep : ascii) (s : string) :
  all_chars (fun c => negb (Ascii.eqb c sep)) s = true ->
  split sep s = [s].
Proof.
  induction s as [|c s IH]; simpl; [reflexivity|].
  intros H. apply andb_true_iff in H. destruct H as [Hc Hs].
  apply negb_true_iff in Hc. now rewrite Hc, (IH Hs).
Qed.

Lemma split_at (sep : ascii) (a b : string) :
  all_chars (fun c => negb (Ascii.eqb c sep)) a = true ->
  split sep (String.append a (String sep b)) = a :: split sep b.
Proof.
  induction a as [|c a IH]; simpl.
  - intros _. now rewrite Ascii.eqb_refl.
  - intros H. apply andb_true_iff in H. destruct H as [Hc Ha].
    apply negb_true_iff in Hc. now rewrite Hc, (IH Ha).
Qed.

(** ** Numbers *)

Lemma is_digit_range (c : ascii) :
  is_digit c = true ->
  (48 <= nat_of_ascii c)%nat /\ (nat_of_ascii c <= 57)%nat.
Proof.
  unfold is_digit, digit_value. cbv zeta.
  destruct (Nat.leb 48 (nat_of_ascii c)) eqn:E1;
    destruct (Nat.leb (nat_of_ascii c) 57) eqn:E2; simpl;
    try discriminate.
  intros _. apply Nat.leb_le in E1. apply Nat.leb_le in E2. auto.
Qed.

Lemma digit_differs (c d : ascii) :
  is_digit c = true -> is_digit d = false -> Ascii.eqb c d = false.
Proof.
  intros Hc Hd. destruct (Ascii.eqb c d) eqn:E; [|reflexivity].
  apply Ascii.eqb_eq in E. subst. congruence.
Qed.

Lemma digits_have_value (s : string) :
  all_chars is_digit s = true ->
  forall acc, exists n, digits_value acc s = Some n.
Proof.
  induction s as [|c s IH]; simpl; intros H acc; [now exists acc|].
  apply andb_true_iff in H. destruct H as [Hc Hs].
  unfold is_digit in Hc. destruct (digit_value c) as [v|]; [|discriminate].
  apply IH. exact Hs.
Qed.

Lemma py_int_digits (s : string) :
  digits s = true -> exists n, py_int s = Ok n /\ digits_value 0 s = Some n.
Proof.
  unfold digits. intros H. apply andb_true_iff in H. destruct H as [Hne Hd].
  destruct (digits_have_value s Hd 0) as [n Hn]. exists n.
  split; [|exact Hn]. unfold py_int. rewrite Hn.
  destruct s; [discriminate Hne|reflexivity].
Qed.

Lemma digits_value_stops (a b : string) (c : ascii) :
  is_digit c = false ->
  forall acc, digits_value acc (String.append a (String c b)) = None.
Proof.
  intros Hc. unfold is_digit in Hc.
  induction a as [|x a IH]; simpl; intros acc.
  - destruct (digit_value c); [discriminate|reflexivity].
  - destruct (digit_value x); [apply IH|reflexivity].
Qed.

(** A text with a letter in it is no number. *)
Lemma py_int_letter (a b : string) (c : ascii) :
  is_digit c = false -> beside_digits c = false ->
  py_int (String.append a (String c b)) = Raise ValueError.
Proof.
  intros Hd Hb. unfold py_int.
  rewrite (digits_value_stops a b c Hd).
  rewrite all_chars_app. simpl.
  unfold is_digit in Hd. destruct (digit_value c); [discriminate|].
  rewrite Hb. simpl. rewrite andb_false_r.
  destruct a; reflexivity.
Qed.

(** ** One label *)

Abbreviation letter p := (p = "d"%char \/ p = "w"%char).

Lemma digit_not_sy (c : ascii) :
  is_digit c = true -> mem_ascii c "sy" = false.
Proof.
  intros H. simpl.
  rewrite (digit_differs c "s" H eq_refl), (digit_differs c "y" H eq_refl).
  reflexivity.
Qed.

Lemma digits_outside_sy (s : string) :
  all_chars is_digit s = true ->
  all_chars (fun c => negb (mem_ascii c "sy")) s = true.
Proof.
  apply all_chars_impl. intros c Hc. apply negb_true_iff.
  now apply digit_not_sy.
Qed.

Lemma strip_label (p : ascii) (Y J : string) :
  letter p -> digits Y = true -> digits J = true ->
  strip "sy" (period_label p Y J) = String.append Y (String p J).
Proof.
  intros Hp HY HJ. unfold digits in HY, HJ.
  apply andb_true_iff in HY. destruct HY as [HYn HY].
  apply andb_true_iff in HJ. destruct HJ as [HJn HJ].
  assert (Hall : all_chars (fun c => negb (mem_ascii c "sy"))
                           (String.append Y (String p J)) = true).
  { rewrite all_chars_app. cbn [all_chars].
    rewrite (digits_outside_sy Y HY), (digits_outside_sy J HJ).
    destruct Hp as [-> | ->]; reflexivity. }
  unfold strip, period_label.
  change (lstrip "sy" (String "y" (String.append Y (String p J))))
    with (lstrip "sy" (String.append Y (String p J))).
  rewrite (lstrip_id _ _ Hall). apply rstrip_id. exact Hall.
Qed.

Lemma digits_without (p : ascii) (s : string) :
  is_digit p = false -> all_chars is_digit s = true ->
  all_chars (fun c => negb (Ascii.eqb c p)) s = true.
Proof.
  intros Hp. apply all_chars_impl. intros c Hc.
  now rewrite (digit_differs c p Hc Hp).
Qed.

Lemma letter_no_digit (p : ascii) :
  letter p -> is_digit p = false /\ beside_digits p = false.
Proof. intros [-> | ->]; split; reflexivity. Qed.

(** The label written with the letter [p] is read back with [p]. *)
Lemma label_read_back (p : ascii) (Y J : string) :
  letter p -> digits Y = true -> digits J = true ->
  exists y j,
    digits_value 0 Y = Some y /\ digits_value 0 J = Some j
    /\ year_of p (period_label p Y J) = Ok y
    /\ yperiod_of p (period_label p Y J) = Ok j.
Proof.
  intros Hp HY HJ.
  destruct (py_int_digits Y HY) as (y & Hy & Vy).
  destruct (py_int_digits J HJ) as (j & Hj & Vj).
  exists y, j. split; [exact Vy|]. split; [exact Vj|].
  destruct (letter_no_digit p Hp) as [Hd _].
  unfold year_of, yperiod_of. rewrite (strip_label p Y J Hp HY HJ).
  unfold digits in HY, HJ.
  apply andb_true_iff in HY. destruct HY as [_ HY].
  apply andb_true_iff in HJ. destruct HJ as [_ HJ].
  rewrite (split_at p Y J (digits_without p Y Hd HY)).
  rewrite (split_none p J (digits_without p J Hd HJ)).
  cbn [hd]. auto.
Qed.

(** The label written with another letter is not read: the year is no
    number. *)
Lemma label_misread (p q : ascii) (Y J : string) :
  letter p -> letter q -> p <> q -> digits Y = true -> digits J = true ->
  year_of q (period_label p Y J) = Raise ValueError.
Proof.
  intros Hp Hq Hpq HY HJ.
  destruct (letter_no_digit p Hp) as [Hd Hb].
  destruct (letter_no_digit q Hq) as [Hdq _].
  unfold year_of. rewrite (strip_label p Y J Hp HY HJ).
  unfold digits in HY, HJ.
  apply andb_true_iff in HY. destruct HY as [_ HY].
  apply andb_true_iff in HJ. destruct HJ as [_ HJ].
  rewrite split_none.
  - cbn [hd]. now apply py_int_letter.
  - rewrite all_chars_app. simpl.
    rewrite (digits_without q Y Hdq HY), (digits_without q J Hdq HJ).
    assert (E : Ascii.eqb p q = false) by now apply Ascii.eqb_neq.
    now rewrite E.
Qed.

(** ** The table *)

Lemma series_map_first_error (A B : Type) (f : A -> result B) (e : error)
      (l : list A) :
  Forall (fun a => (exists b, f a = Ok b) \/ f a = Raise e) l ->
  Exists (fun a => f a = Raise e) l ->
  series_map f l = Raise e.
Proof.
  induction 1 as [|a l Ha Hl IH]; intros Hex; [inversion Hex|].
  cbn [series_map].
  destruct Ha as [[b Hb]|Ha]; [|now rewrite Ha].
  rewrite Hb. cbn [bind].
  inversion Hex as [? ? H|? ? H]; subst; [congruence|].
  now rewrite (IH H).
Qed.

Abbreviation period_name := (fun n : new_period =>
                               Orchestrator.actual_period (period n)).

(** The name of the period is a label with the letter [p]. *)
Abbreviation labelled p n :=
  (exists Y J, digits Y = true /\ digits J = true
               /\ period_name n = period_label p Y J).

Lemma period_letter_is_letter (hourly_type : string) :
  letter (period_letter hourly_type).
Proof.
  unfold period_letter. destruct (String.eqb hourly_type "wek"); auto.
Qed.

(** X19.  The labels of the new stress periods are read back when they
    are written for the next iteration: when every period is named [y],
    year, letter, number, with the letter of [GSw_HourlyType] ([w] for
    [wek], else [d]), the table is made, it has one row per period in the
    same order, the two label columns hold the name, and the columns [year]
    and [yperiod] hold the numbers that the digits of the name write. *)
Theorem period_labels_are_read_back
        (hourly_type : string) (news : list new_period) :
  Forall (fun n => labelled (period_letter hourly_type) n) news ->
  exists rows,
    new_stressperiods_write hourly_type news = Ok rows
    /\ Forall2 (fun n row =>
                  rep_period row = period_name n
                  /\ PeriodsWrite.actual_period row = period_name n
                  /\ exists Y J,
                      period_name n
                      = period_label (period_letter hourly_type) Y J
                      /\ digits_value 0 Y = Some (PeriodsWrite.year row)
                      /\ digits_value 0 J = Some (yperiod row))
               news rows.
Proof.
  intros Hall. unfold new_stressperiods_write. cbv zeta.
  set (p := period_letter hourly_type) in *.
  pose proof (period_letter_is_letter hourly_type) as Hp. fold p in Hp.
  induction Hall as [|n news (Y & J & HY & HJ & Hn) Hall IH].
  - exists []. split; [reflexivity|constructor].
  - destruct IH as (rows & Hrows & HF).
    destruct (label_read_back p Y J Hp HY HJ) as (y & j & Vy & Vj & Ey & Ej).
    cbn [map series_map]. rewrite Hn, Ey, Ej. cbn [bind].
    destruct (series_map (year_of p) (map period_name news))
      as [ys|e]; cbn [bind] in *; [|discriminate Hrows].
    destruct (series_map (yperiod_of p) (map period_name news))
      as [js|e]; cbn [bind] in *; [|discriminate Hrows].
    injection Hrows as <-.
    eexists. split; [reflexivity|].
    cbn [combine map]. constructor; [|exact HF].
    cbn [rep_period PeriodsWrite.actual_period PeriodsWrite.year yperiod
         fst snd].
    split; [now rewrite Hn|]. split; [now rewrite Hn|].
    exists Y, J. auto.
Qed.

(** X20.  The letter of the labels has to be the letter of
    [GSw_HourlyType]: when the periods are named by labels and one of them
    carries the other letter, the column [year] cannot be read and the
    table is not made, ValueError is raised.  The shoulder periods are
    always named with the letter [d], so under [wek] one shoulder period
    among the new periods is enough. *)
Theorem period_labels_of_other_type_fail
        (hourly_type : string) (news : list new_period) :
  Forall (fun n => labelled "d"%char n \/ labelled "w"%char n) news ->
  Exists (fun n => exists q, letter q /\ q <> period_letter hourly_type
                             /\ labelled q n) news ->
  new_stressperiods_write hourly_type news = Raise ValueError.
Proof.
  intros Hall Hex. unfold new_stressperiods_write. cbv zeta.
  set (p := period_letter hourly_type) in *.
  pose proof (period_letter_is_letter hourly_type) as Hp. fold p in Hp.
  assert (Hread : forall q Y J,
             letter q -> digits Y = true -> digits J = true ->
             (exists y, year_of p (period_label q Y J) = Ok y)
             \/ year_of p (period_label q Y J) = Raise ValueError).
  { intros q Y J Hq HY HJ.
    destruct (ascii_dec q p) as [->|Hne].
    - left. destruct (label_read_back p Y J Hp HY HJ)
        as (y & j & _ & _ & Ey & _). now exists y.
    - right. now apply label_misread. }
  rewrite (series_map_first_error _ _ (year_of p) ValueError
                                  (map period_name news));
    [reflexivity| |].
  - apply Forall_map. eapply Forall_impl; [|exact Hall].
    intros n [(Y & J & HY & HJ & Hn)|(Y & J & HY & HJ & Hn)];
      cbv beta; rewrite Hn; apply Hread; auto.
  - apply Exists_exists. apply Exists_exists in Hex.
    destruct Hex as (n & Hin & q & Hq & Hne & Y & J & HY & HJ & Hn).
    exists (period_name n).
    split; [exact (in_map period_name news n Hin)|].
    rewrite Hn. now apply label_misread.
Qed.

Lemma period_labels_are_read_back_witness :
  exists rows,
    new_stressperiods_write
      "day"
      [{| criterion_of := "c"; periodtype := "high_EUE";
          period := ExtraExamples.first_day |}]
    = Ok rows
    /\ Forall2 (fun n row =>
                  rep_period row = period_name n
                  /\ PeriodsWrite.actual_period row = period_name n
                  /\ exists Y J,
                      period_name n = period_label (period_letter "day") Y J
                      /\ digits_value 0 Y = Some (PeriodsWrite.year row)
                      /\ digits_value 0 J = Some (yperiod row))
               [{| criterion_of := "c"; periodtype := "high_EUE";
                   period := ExtraExamples.first_day |}]
               rows.
Proof.
  apply (period_labels_are_read_back
           "day"
           [{| criterion_of := "c"; periodtype := "high_EUE";
               period := ExtraExamples.first_day |}]).
  constructor; [|constructor].
  exists "2012"%string, "183"%string.
  split; [reflexivity|]. split; reflexivity.
Defined.

Lemma period_labels_of_other_type_fail_witness :
  new_stressperiods_write
    "wek"
    [{| criterion_of := "c"; periodtype := "after_y2012w026";
        period := ExtraExamples.first_day |}]
  = Raise ValueError.
Proof.
  apply (period_labels_of_other_type_fail
           "wek"
           [{| criterion_of := "c"; periodtype := "after_y2012w026";
               period := ExtraExamples.first_day |}]).
  - constructor; [|constructor]. left.
    exists "2012"%string, "183"%string.
    split; [reflexivity|]. split; reflexivity.
  - constructor. exists "d"%char.
    split; [left; reflexivity|]. split; [discriminate|].
    exists "2012"%string, "183"%string.
    split; [reflexivity|]. split; reflexivity.
Defined.

End PeriodsWriteFacts.
